(** * OpenMOC [Solver]: the outer-iteration engine of [src/Solver.cpp]

    A shallow embedding of the base [Solver] class and the properties of its
    query, configuration and solve routines.

    Conventions of the model:
    - [int] is [Z]; the index arithmetic of the code ([group-1],
      [r*_num_groups+e], [counter++]) is far from the bounds of [int] for
      every array that can be allocated, and signed overflow is undefined in
      C++ anyway. The product [_num_groups * _num_polar], which indexes no
      array of this file and one factor of which a caller supplies, is
      computed as a 32-bit [int] computes it, with its wrap-around
      ([int_mul]).
    - [FP_PRECISION] is the exact rational field [Q]: rounding is outside
      the model, equality of computed values is [Qeq]. The values of the
      floating-point format that are not numbers (the infinities and NaN)
      are not in [Q]: an argument a caller passes may be one of them
      ([fp_argument]), and an operation that yields or would store one has
      the outcome [NonFinite].
    - a pointer to an engine-owned array is [option (list _)], [None] being
      [NULL]; a read or write outside the allocated storage, like a
      dereference of [NULL], has the outcome [Undefined].
    - [log_printf(ERROR, ...)] raises; the state at the moment of the raise is
      kept, so that partial mutation is visible.
    - calls to collaborators whose code is elsewhere (track generator,
      exponential evaluator, CMFD, timer, the pure-virtual sweep methods) are
      recorded in a ghost trace, in call order. *)

From Stdlib Require Import ZArith QArith Qabs String List Lia Sorted.
From stdpp Require Import base list sorting.

Local Open Scope Z_scope.

(** ** Numbers *)

(** [FP_PRECISION] (float or double, chosen at compile time) is [Q]. *)
Abbreviation FP_PRECISION := Q (only parsing).

(** [a < b] and [a <= b] on [FP_PRECISION], as the booleans of the code. *)
Definition fp_lt (a b : FP_PRECISION) : bool :=
  match (a ?= b)%Q with Lt => true | _ => false end.

Definition fp_le (a b : FP_PRECISION) : bool :=
  match (a ?= b)%Q with Gt => false | _ => true end.

(** [std::min(a, b)]: [b] when [b < a], otherwise [a]. *)
Definition std_min (a b : FP_PRECISION) : FP_PRECISION :=
  if fp_lt b a then b else a.

(** The value of type [int] (32 bits, two's complement) that an arithmetic
    result [z] wraps around to: what the multiplication instruction of the
    compiled code leaves, signed overflow being undefined in C++. *)
Definition int_wrap (z : Z) : Z := (z + 2 ^ 31) mod 2 ^ 32 - 2 ^ 31.

(** [a * b] on [int]. *)
Definition int_mul (a b : Z) : Z := int_wrap (a * b).

(** A value of type [FP_PRECISION] as a caller may pass it: a number, an
    infinity or NaN. *)
Inductive fp_argument : Type :=
| Number (x : FP_PRECISION)
| PlusInfinity
| MinusInfinity
| NaN.

(** [a <= 0.0] on such a value: false for [NaN], as every comparison with
    it is. *)
Definition arg_le_zero (a : fp_argument) : bool :=
  match a with
  | Number x => fp_le x 0%Q
  | MinusInfinity => true
  | PlusInfinity => false
  | NaN => false
  end.

(** ** Errors and outcomes *)

(** The error taxonomy; every [log_printf(ERROR, ...)] site of the code is
    tagged with the class it belongs to. *)
Inductive error_kind : Type :=
| ConfigurationError
| InvalidArgument
| OutOfRange
| NotReady.

Record error : Type := mkError { err_kind : error_kind; err_msg : string }.

(** What a call does: it returns; it raises an error; it runs into undefined
    behaviour ([Undefined]: an access outside an array, a dereference of
    [NULL]); or it goes on with an infinity or a NaN ([NonFinite]), which the
    numbers of the model do not have, so that the model does not follow it
    any further. *)
Inductive outcome (A : Type) : Type :=
| Return (a : A)
| Raise (e : error)
| Undefined
| NonFinite.

Arguments Return {A} a.
Arguments Raise {A} e.
Arguments Undefined {A}.
Arguments NonFinite {A}.

Definition is_range_error {A} (o : outcome A) : bool :=
  match o with
  | Raise (mkError OutOfRange _) => true
  | _ => false
  end.

Definition is_not_ready {A} (o : outcome A) : bool :=
  match o with
  | Raise (mkError NotReady _) => true
  | _ => false
  end.

Definition obind {A B} (f : A -> outcome B) (o : outcome A) : outcome B :=
  match o with
  | Return a => f a
  | Raise e => Raise e
  | Undefined => Undefined
  | NonFinite => NonFinite
  end.

(** [a / b] on [FP_PRECISION]: a division by zero yields an infinity or a
    NaN. *)
Definition fp_div (a b : FP_PRECISION) : outcome FP_PRECISION :=
  if Qeq_bool b 0 then NonFinite else Return (a / b)%Q.

#[global] Instance outcome_ret : MRet outcome := @Return.
#[global] Instance outcome_bind : MBind outcome := @obind.

(** ** Arrays *)

(** [arr[i]] for an engine-owned array. *)
Definition array_read {A} (arr : option (list A)) (i : Z) : outcome A :=
  match arr with
  | None => Undefined
  | Some l =>
      if i <? 0 then Undefined
      else match l !! Z.to_nat i with
           | Some x => Return x
           | None => Undefined
           end
  end.

(** [arr[i] = v]. *)
Definition array_write {A} (arr : option (list A)) (i : Z) (v : A)
  : outcome (option (list A)) :=
  match arr with
  | None => Undefined
  | Some l =>
      if (i <? 0) || (Z.of_nat (length l) <=? i) then Undefined
      else Return (Some (<[Z.to_nat i := v]> l))
  end.

(** [new T[n]]: storage for [n] elements, its content not yet written. *)
Definition new_array {A} (n : Z) (junk : A) : outcome (option (list A)) :=
  if n <? 0 then Undefined else Return (Some (replicate (Z.to_nat n) junk)).

Definition is_NULL {A} (p : option A) : bool :=
  match p with None => true | Some _ => false end.

(** [for (int i = i0; i < i0 + n; i++) acc = body(i, acc)]. *)
Fixpoint for_acc {A} (n : nat) (i : Z) (body : Z -> A -> outcome A) (acc : A)
  : outcome A :=
  match n with
  | O => Return acc
  | S n' => acc' ← body i acc; for_acc n' (i + 1) body acc'
  end.

(** Modelled from the spec: the two-index accessor macros of [Solver.h]
    ([_scalar_flux(r,e)], [_fixed_sources(r,e)], [_polar_weights(i,p)]) are
    missing from the sources; the fields are dense arrays indexed
    [FSR][energyGroup] (resp. [azimuth][polar]), stored row by row. *)
Definition idx2 (stride r e : Z) : Z := r * stride + e.

(** ** Logging, timing and the ghost trace *)

Inductive logLevel : Type := DEBUG | INFO | NORMAL | WARNING | ERROR.

Inductive log_arg : Type :=
| ArgInt (z : Z)
| ArgFP (x : FP_PRECISION).

Inductive residualType : Type := SCALAR_FLUX | FISSION_SOURCE | TOTAL_SOURCE.

(** The pure-virtual methods of [Solver], implemented by its subclasses. *)
Inductive virtual_call : Type :=
| V_initializeFluxArrays
| V_initializeSourceArrays
| V_flattenFSRFluxes (value : FP_PRECISION)
| V_zeroTrackFluxes
| V_storeFSRFluxes
| V_normalizeFluxes
| V_computeFSRSources
| V_transportSweep
| V_addSourceToScalarFlux
| V_computeResidual (res_type : residualType)
| V_computeKeff.

Inductive event : Type :=
| Logged (lvl : logLevel) (fmt : string) (args : list log_arg)
| TimerClearSplit (name : string)
| TimerStart
| TimerStop
| TimerRecordSplit (name : string)
| Virtual (c : virtual_call)
| TG_splitSegments (max_tau : FP_PRECISION)
| Exp_setPolarQuadrature
| Exp_setMaxOpticalLength (max_tau : FP_PRECISION)
| Exp_initialize
| PQ_setNumPolarAngles (n : Z)
| PQ_initialize
| Cmfd_call (method : string)
| Cmfd_computeKeff (i : Z)
| Cmfd_updateBoundaryFlux.

(** ** Collaborators *)

(** The cross sections of a material, by 0-based group. [mat_sigma_s g g']
    is [getSigmaSByGroupInline(g, g')]: scattering from [g] into [g']. *)
Record Material : Type := {
  mat_id : Z;
  mat_nu_sigma_f : Z -> FP_PRECISION;
  mat_chi : Z -> FP_PRECISION;
  mat_sigma_s : Z -> Z -> FP_PRECISION;
  mat_fissionable : bool
}.

(** Types and constants the engine uses without owning their code: the polar
    quadrature, the CMFD accelerator, the interpolation table, and the
    constants of [constants.h]. *)
Class Externals : Type := {
  PolarQuad : Type;
  pq_getNumPolarAngles : PolarQuad -> Z;
  pq_setNumPolarAngles : Z -> PolarQuad -> PolarQuad;
  pq_initialize : PolarQuad -> PolarQuad;
  pq_getMultiple : PolarQuad -> Z -> FP_PRECISION;
  ExpTable : Type;
  exp_build_table : option PolarQuad -> FP_PRECISION -> FP_PRECISION -> ExpTable;
  Cmfd : Type;
  cmfd_isFluxUpdateOn : Cmfd -> bool;
  cmfd_setNumFSRs : Z -> Cmfd -> Cmfd;
  cmfd_setFSRVolumes : option (list FP_PRECISION) -> Cmfd -> Cmfd;
  cmfd_setFSRMaterials : option (list Material) -> Cmfd -> Cmfd;
  cmfd_setFSRFluxes : option (list FP_PRECISION) -> Cmfd -> Cmfd;
  cmfd_setPolarQuadrature : PolarQuad -> Cmfd -> Cmfd;
  cmfd_initializeSurfaceCurrents : Cmfd -> Cmfd;
  ONE_OVER_FOUR_PI : FP_PRECISION;
  FOUR_PI : FP_PRECISION;
  (** the content of freshly allocated, not yet written storage *)
  indeterminate : FP_PRECISION
}.

Section Model.
Context `{Ext : Externals}.

Record Geometry : Type := {
  geo_num_FSRs : Z;
  geo_num_groups : Z;
  geo_num_materials : Z;
  geo_cmfd : option Cmfd;
  geo_findFSRMaterial : Z -> Material
}.

(** A non-owning handle [&getTracks()[i][j]] on a track of the generator. *)
Definition TrackHandle : Type := (Z * Z)%type.

Record TrackGenerator : Type := {
  tg_containsTracks : bool;
  tg_num_azim : Z;
  tg_num_tracks_array : list Z;
  tg_num_tracks : Z;
  tg_geometry : Geometry;
  tg_max_optical_length : FP_PRECISION;
  tg_azim_weights : Z -> FP_PRECISION;
  tg_FSR_volumes : list FP_PRECISION
}.

Record ExpEvaluator : Type := {
  exp_interpolate : bool;
  exp_max_optical_length : FP_PRECISION;
  exp_precision : FP_PRECISION;
  exp_polar_quad : option PolarQuad;
  exp_table : option ExpTable
}.

(** The fields of [Solver]. *)
Record Solver : Type := mkSolver {
  _num_materials : Z;
  _num_groups : Z;
  _num_azim : Z;
  _num_FSRs : Z;
  _num_fissionable_FSRs : Z;
  _FSR_volumes : option (list FP_PRECISION);
  _FSR_materials : option (list Material);
  _track_generator : option TrackGenerator;
  _geometry : option Geometry;
  _cmfd : option Cmfd;
  _exp_evaluator : ExpEvaluator;
  _tracks : option (list TrackHandle);
  _tot_num_tracks : Z;
  _polar_weights : option (list FP_PRECISION);
  _boundary_flux : option (list FP_PRECISION);
  _boundary_leakage : option (list FP_PRECISION);
  _scalar_flux : option (list FP_PRECISION);
  _old_scalar_flux : option (list FP_PRECISION);
  _fixed_sources : option (list FP_PRECISION);
  _reduced_sources : option (list FP_PRECISION);
  _user_polar_quad : bool;
  _polar_quad : PolarQuad;
  _num_polar : Z;
  _polar_times_groups : Z;
  _num_iterations : Z;
  _converge_thresh : FP_PRECISION;
  _k_eff : FP_PRECISION
}.

(** Field assignments. *)
Definition set_num_materials (v : Z) (s : Solver) : Solver :=
  mkSolver v (_num_groups s) (_num_azim s) (_num_FSRs s)
    (_num_fissionable_FSRs s) (_FSR_volumes s) (_FSR_materials s)
    (_track_generator s) (_geometry s) (_cmfd s) (_exp_evaluator s)
    (_tracks s) (_tot_num_tracks s) (_polar_weights s) (_boundary_flux s)
    (_boundary_leakage s) (_scalar_flux s) (_old_scalar_flux s)
    (_fixed_sources s) (_reduced_sources s) (_user_polar_quad s)
    (_polar_quad s) (_num_polar s) (_polar_times_groups s)
    (_num_iterations s) (_converge_thresh s) (_k_eff s).

Definition set_num_groups (v : Z) (s : Solver) : Solver :=
  mkSolver (_num_materials s) v (_num_azim s) (_num_FSRs s)
    (_num_fissionable_FSRs s) (_FSR_volumes s) (_FSR_materials s)
    (_track_generator s) (_geometry s) (_cmfd s) (_exp_evaluator s)
    (_tracks s) (_tot_num_tracks s) (_polar_weights s) (_boundary_flux s)
    (_boundary_leakage s) (_scalar_flux s) (_old_scalar_flux s)
    (_fixed_sources s) (_reduced_sources s) (_user_polar_quad s)
    (_polar_quad s) (_num_polar s) (_polar_times_groups s)
    (_num_iterations s) (_converge_thresh s) (_k_eff s).

Definition set_num_azim (v : Z) (s : Solver) : Solver :=
  mkSolver (_num_materials s) (_num_groups s) v (_num_FSRs s)
    (_num_fissionable_FSRs s) (_FSR_volumes s) (_FSR_materials s)
    (_track_generator s) (_geometry s) (_cmfd s) (_exp_evaluator s)
    (_tracks s) (_tot_num_tracks s) (_polar_weights s) (_boundary_flux s)
    (_boundary_leakage s) (_scalar_flux s) (_old_scalar_flux s)
    (_fixed_sources s) (_reduced_sources s) (_user_polar_quad s)
    (_polar_quad s) (_num_polar s) (_polar_times_groups s)
    (_num_iterations s) (_converge_thresh s) (_k_eff s).

Definition set_num_FSRs (v : Z) (s : Solver) : Solver :=
  mkSolver (_num_materials s) (_num_groups s) (_num_azim s) v
    (_num_fissionable_FSRs s) (_FSR_volumes s) (_FSR_materials s)
    (_track_generator s) (_geometry s) (_cmfd s) (_exp_evaluator s)
    (_tracks s) (_tot_num_tracks s) (_polar_weights s) (_boundary_flux s)
    (_boundary_leakage s) (_scalar_flux s) (_old_scalar_flux s)
    (_fixed_sources s) (_reduced_sources s) (_user_polar_quad s)
    (_polar_quad s) (_num_polar s) (_polar_times_groups s)
    (_num_iterations s) (_converge_thresh s) (_k_eff s).

Definition set_num_fissionable_FSRs (v : Z) (s : Solver) : Solver :=
  mkSolver (_num_materials s) (_num_groups s) (_num_azim s) (_num_FSRs s)
    v (_FSR_volumes s) (_FSR_materials s) (_track_generator s) (_geometry
    s) (_cmfd s) (_exp_evaluator s) (_tracks s) (_tot_num_tracks s)
    (_polar_weights s) (_boundary_flux s) (_boundary_leakage s)
    (_scalar_flux s) (_old_scalar_flux s) (_fixed_sources s)
    (_reduced_sources s) (_user_polar_quad s) (_polar_quad s) (_num_polar
    s) (_polar_times_groups s) (_num_iterations s) (_converge_thresh s)
    (_k_eff s).

Definition set_FSR_volumes (v : option (list FP_PRECISION)) (s : Solver) : Solver :=
  mkSolver (_num_materials s) (_num_groups s) (_num_azim s) (_num_FSRs s)
    (_num_fissionable_FSRs s) v (_FSR_materials s) (_track_generator s)
    (_geometry s) (_cmfd s) (_exp_evaluator s) (_tracks s)
    (_tot_num_tracks s) (_polar_weights s) (_boundary_flux s)
    (_boundary_leakage s) (_scalar_flux s) (_old_scalar_flux s)
    (_fixed_sources s) (_reduced_sources s) (_user_polar_quad s)
    (_polar_quad s) (_num_polar s) (_polar_times_groups s)
    (_num_iterations s) (_converge_thresh s) (_k_eff s).

Definition set_FSR_materials (v : option (list Material)) (s : Solver) : Solver :=
  mkSolver (_num_materials s) (_num_groups s) (_num_azim s) (_num_FSRs s)
    (_num_fissionable_FSRs s) (_FSR_volumes s) v (_track_generator s)
    (_geometry s) (_cmfd s) (_exp_evaluator s) (_tracks s)
    (_tot_num_tracks s) (_polar_weights s) (_boundary_flux s)
    (_boundary_leakage s) (_scalar_flux s) (_old_scalar_flux s)
    (_fixed_sources s) (_reduced_sources s) (_user_polar_quad s)
    (_polar_quad s) (_num_polar s) (_polar_times_groups s)
    (_num_iterations s) (_converge_thresh s) (_k_eff s).

Definition set_track_generator (v : option TrackGenerator) (s : Solver) : Solver :=
  mkSolver (_num_materials s) (_num_groups s) (_num_azim s) (_num_FSRs s)
    (_num_fissionable_FSRs s) (_FSR_volumes s) (_FSR_materials s) v
    (_geometry s) (_cmfd s) (_exp_evaluator s) (_tracks s)
    (_tot_num_tracks s) (_polar_weights s) (_boundary_flux s)
    (_boundary_leakage s) (_scalar_flux s) (_old_scalar_flux s)
    (_fixed_sources s) (_reduced_sources s) (_user_polar_quad s)
    (_polar_quad s) (_num_polar s) (_polar_times_groups s)
    (_num_iterations s) (_converge_thresh s) (_k_eff s).

Definition set_geometry (v : option Geometry) (s : Solver) : Solver :=
  mkSolver (_num_materials s) (_num_groups s) (_num_azim s) (_num_FSRs s)
    (_num_fissionable_FSRs s) (_FSR_volumes s) (_FSR_materials s)
    (_track_generator s) v (_cmfd s) (_exp_evaluator s) (_tracks s)
    (_tot_num_tracks s) (_polar_weights s) (_boundary_flux s)
    (_boundary_leakage s) (_scalar_flux s) (_old_scalar_flux s)
    (_fixed_sources s) (_reduced_sources s) (_user_polar_quad s)
    (_polar_quad s) (_num_polar s) (_polar_times_groups s)
    (_num_iterations s) (_converge_thresh s) (_k_eff s).

Definition set_cmfd (v : option Cmfd) (s : Solver) : Solver :=
  mkSolver (_num_materials s) (_num_groups s) (_num_azim s) (_num_FSRs s)
    (_num_fissionable_FSRs s) (_FSR_volumes s) (_FSR_materials s)
    (_track_generator s) (_geometry s) v (_exp_evaluator s) (_tracks s)
    (_tot_num_tracks s) (_polar_weights s) (_boundary_flux s)
    (_boundary_leakage s) (_scalar_flux s) (_old_scalar_flux s)
    (_fixed_sources s) (_reduced_sources s) (_user_polar_quad s)
    (_polar_quad s) (_num_polar s) (_polar_times_groups s)
    (_num_iterations s) (_converge_thresh s) (_k_eff s).

Definition set_exp_evaluator (v : ExpEvaluator) (s : Solver) : Solver :=
  mkSolver (_num_materials s) (_num_groups s) (_num_azim s) (_num_FSRs s)
    (_num_fissionable_FSRs s) (_FSR_volumes s) (_FSR_materials s)
    (_track_generator s) (_geometry s) (_cmfd s) v (_tracks s)
    (_tot_num_tracks s) (_polar_weights s) (_boundary_flux s)
    (_boundary_leakage s) (_scalar_flux s) (_old_scalar_flux s)
    (_fixed_sources s) (_reduced_sources s) (_user_polar_quad s)
    (_polar_quad s) (_num_polar s) (_polar_times_groups s)
    (_num_iterations s) (_converge_thresh s) (_k_eff s).

Definition set_tracks (v : option (list TrackHandle)) (s : Solver) : Solver :=
  mkSolver (_num_materials s) (_num_groups s) (_num_azim s) (_num_FSRs s)
    (_num_fissionable_FSRs s) (_FSR_volumes s) (_FSR_materials s)
    (_track_generator s) (_geometry s) (_cmfd s) (_exp_evaluator s) v
    (_tot_num_tracks s) (_polar_weights s) (_boundary_flux s)
    (_boundary_leakage s) (_scalar_flux s) (_old_scalar_flux s)
    (_fixed_sources s) (_reduced_sources s) (_user_polar_quad s)
    (_polar_quad s) (_num_polar s) (_polar_times_groups s)
    (_num_iterations s) (_converge_thresh s) (_k_eff s).

Definition set_tot_num_tracks (v : Z) (s : Solver) : Solver :=
  mkSolver (_num_materials s) (_num_groups s) (_num_azim s) (_num_FSRs s)
    (_num_fissionable_FSRs s) (_FSR_volumes s) (_FSR_materials s)
    (_track_generator s) (_geometry s) (_cmfd s) (_exp_evaluator s)
    (_tracks s) v (_polar_weights s) (_boundary_flux s) (_boundary_leakage
    s) (_scalar_flux s) (_old_scalar_flux s) (_fixed_sources s)
    (_reduced_sources s) (_user_polar_quad s) (_polar_quad s) (_num_polar
    s) (_polar_times_groups s) (_num_iterations s) (_converge_thresh s)
    (_k_eff s).

Definition set_polar_weights (v : option (list FP_PRECISION)) (s : Solver) : Solver :=
  mkSolver (_num_materials s) (_num_groups s) (_num_azim s) (_num_FSRs s)
    (_num_fissionable_FSRs s) (_FSR_volumes s) (_FSR_materials s)
    (_track_generator s) (_geometry s) (_cmfd s) (_exp_evaluator s)
    (_tracks s) (_tot_num_tracks s) v (_boundary_flux s)
    (_boundary_leakage s) (_scalar_flux s) (_old_scalar_flux s)
    (_fixed_sources s) (_reduced_sources s) (_user_polar_quad s)
    (_polar_quad s) (_num_polar s) (_polar_times_groups s)
    (_num_iterations s) (_converge_thresh s) (_k_eff s).

Definition set_boundary_flux (v : option (list FP_PRECISION)) (s : Solver) : Solver :=
  mkSolver (_num_materials s) (_num_groups s) (_num_azim s) (_num_FSRs s)
    (_num_fissionable_FSRs s) (_FSR_volumes s) (_FSR_materials s)
    (_track_generator s) (_geometry s) (_cmfd s) (_exp_evaluator s)
    (_tracks s) (_tot_num_tracks s) (_polar_weights s) v
    (_boundary_leakage s) (_scalar_flux s) (_old_scalar_flux s)
    (_fixed_sources s) (_reduced_sources s) (_user_polar_quad s)
    (_polar_quad s) (_num_polar s) (_polar_times_groups s)
    (_num_iterations s) (_converge_thresh s) (_k_eff s).

Definition set_boundary_leakage (v : option (list FP_PRECISION)) (s : Solver) : Solver :=
  mkSolver (_num_materials s) (_num_groups s) (_num_azim s) (_num_FSRs s)
    (_num_fissionable_FSRs s) (_FSR_volumes s) (_FSR_materials s)
    (_track_generator s) (_geometry s) (_cmfd s) (_exp_evaluator s)
    (_tracks s) (_tot_num_tracks s) (_polar_weights s) (_boundary_flux s)
    v (_scalar_flux s) (_old_scalar_flux s) (_fixed_sources s)
    (_reduced_sources s) (_user_polar_quad s) (_polar_quad s) (_num_polar
    s) (_polar_times_groups s) (_num_iterations s) (_converge_thresh s)
    (_k_eff s).

Definition set_scalar_flux (v : option (list FP_PRECISION)) (s : Solver) : Solver :=
  mkSolver (_num_materials s) (_num_groups s) (_num_azim s) (_num_FSRs s)
    (_num_fissionable_FSRs s) (_FSR_volumes s) (_FSR_materials s)
    (_track_generator s) (_geometry s) (_cmfd s) (_exp_evaluator s)
    (_tracks s) (_tot_num_tracks s) (_polar_weights s) (_boundary_flux s)
    (_boundary_leakage s) v (_old_scalar_flux s) (_fixed_sources s)
    (_reduced_sources s) (_user_polar_quad s) (_polar_quad s) (_num_polar
    s) (_polar_times_groups s) (_num_iterations s) (_converge_thresh s)
    (_k_eff s).

Definition set_old_scalar_flux (v : option (list FP_PRECISION)) (s : Solver) : Solver :=
  mkSolver (_num_materials s) (_num_groups s) (_num_azim s) (_num_FSRs s)
    (_num_fissionable_FSRs s) (_FSR_volumes s) (_FSR_materials s)
    (_track_generator s) (_geometry s) (_cmfd s) (_exp_evaluator s)
    (_tracks s) (_tot_num_tracks s) (_polar_weights s) (_boundary_flux s)
    (_boundary_leakage s) (_scalar_flux s) v (_fixed_sources s)
    (_reduced_sources s) (_user_polar_quad s) (_polar_quad s) (_num_polar
    s) (_polar_times_groups s) (_num_iterations s) (_converge_thresh s)
    (_k_eff s).

Definition set_fixed_sources (v : option (list FP_PRECISION)) (s : Solver) : Solver :=
  mkSolver (_num_materials s) (_num_groups s) (_num_azim s) (_num_FSRs s)
    (_num_fissionable_FSRs s) (_FSR_volumes s) (_FSR_materials s)
    (_track_generator s) (_geometry s) (_cmfd s) (_exp_evaluator s)
    (_tracks s) (_tot_num_tracks s) (_polar_weights s) (_boundary_flux s)
    (_boundary_leakage s) (_scalar_flux s) (_old_scalar_flux s) v
    (_reduced_sources s) (_user_polar_quad s) (_polar_quad s) (_num_polar
    s) (_polar_times_groups s) (_num_iterations s) (_converge_thresh s)
    (_k_eff s).

Definition set_reduced_sources (v : option (list FP_PRECISION)) (s : Solver) : Solver :=
  mkSolver (_num_materials s) (_num_groups s) (_num_azim s) (_num_FSRs s)
    (_num_fissionable_FSRs s) (_FSR_volumes s) (_FSR_materials s)
    (_track_generator s) (_geometry s) (_cmfd s) (_exp_evaluator s)
    (_tracks s) (_tot_num_tracks s) (_polar_weights s) (_boundary_flux s)
    (_boundary_leakage s) (_scalar_flux s) (_old_scalar_flux s)
    (_fixed_sources s) v (_user_polar_quad s) (_polar_quad s) (_num_polar
    s) (_polar_times_groups s) (_num_iterations s) (_converge_thresh s)
    (_k_eff s).

Definition set_user_polar_quad (v : bool) (s : Solver) : Solver :=
  mkSolver (_num_materials s) (_num_groups s) (_num_azim s) (_num_FSRs s)
    (_num_fissionable_FSRs s) (_FSR_volumes s) (_FSR_materials s)
    (_track_generator s) (_geometry s) (_cmfd s) (_exp_evaluator s)
    (_tracks s) (_tot_num_tracks s) (_polar_weights s) (_boundary_flux s)
    (_boundary_leakage s) (_scalar_flux s) (_old_scalar_flux s)
    (_fixed_sources s) (_reduced_sources s) v (_polar_quad s) (_num_polar
    s) (_polar_times_groups s) (_num_iterations s) (_converge_thresh s)
    (_k_eff s).

Definition set_polar_quad (v : PolarQuad) (s : Solver) : Solver :=
  mkSolver (_num_materials s) (_num_groups s) (_num_azim s) (_num_FSRs s)
    (_num_fissionable_FSRs s) (_FSR_volumes s) (_FSR_materials s)
    (_track_generator s) (_geometry s) (_cmfd s) (_exp_evaluator s)
    (_tracks s) (_tot_num_tracks s) (_polar_weights s) (_boundary_flux s)
    (_boundary_leakage s) (_scalar_flux s) (_old_scalar_flux s)
    (_fixed_sources s) (_reduced_sources s) (_user_polar_quad s) v
    (_num_polar s) (_polar_times_groups s) (_num_iterations s)
    (_converge_thresh s) (_k_eff s).

Definition set_num_polar (v : Z) (s : Solver) : Solver :=
  mkSolver (_num_materials s) (_num_groups s) (_num_azim s) (_num_FSRs s)
    (_num_fissionable_FSRs s) (_FSR_volumes s) (_FSR_materials s)
    (_track_generator s) (_geometry s) (_cmfd s) (_exp_evaluator s)
    (_tracks s) (_tot_num_tracks s) (_polar_weights s) (_boundary_flux s)
    (_boundary_leakage s) (_scalar_flux s) (_old_scalar_flux s)
    (_fixed_sources s) (_reduced_sources s) (_user_polar_quad s)
    (_polar_quad s) v (_polar_times_groups s) (_num_iterations s)
    (_converge_thresh s) (_k_eff s).

Definition set_polar_times_groups (v : Z) (s : Solver) : Solver :=
  mkSolver (_num_materials s) (_num_groups s) (_num_azim s) (_num_FSRs s)
    (_num_fissionable_FSRs s) (_FSR_volumes s) (_FSR_materials s)
    (_track_generator s) (_geometry s) (_cmfd s) (_exp_evaluator s)
    (_tracks s) (_tot_num_tracks s) (_polar_weights s) (_boundary_flux s)
    (_boundary_leakage s) (_scalar_flux s) (_old_scalar_flux s)
    (_fixed_sources s) (_reduced_sources s) (_user_polar_quad s)
    (_polar_quad s) (_num_polar s) v (_num_iterations s) (_converge_thresh
    s) (_k_eff s).

Definition set_num_iterations (v : Z) (s : Solver) : Solver :=
  mkSolver (_num_materials s) (_num_groups s) (_num_azim s) (_num_FSRs s)
    (_num_fissionable_FSRs s) (_FSR_volumes s) (_FSR_materials s)
    (_track_generator s) (_geometry s) (_cmfd s) (_exp_evaluator s)
    (_tracks s) (_tot_num_tracks s) (_polar_weights s) (_boundary_flux s)
    (_boundary_leakage s) (_scalar_flux s) (_old_scalar_flux s)
    (_fixed_sources s) (_reduced_sources s) (_user_polar_quad s)
    (_polar_quad s) (_num_polar s) (_polar_times_groups s) v
    (_converge_thresh s) (_k_eff s).

Definition set_converge_thresh (v : FP_PRECISION) (s : Solver) : Solver :=
  mkSolver (_num_materials s) (_num_groups s) (_num_azim s) (_num_FSRs s)
    (_num_fissionable_FSRs s) (_FSR_volumes s) (_FSR_materials s)
    (_track_generator s) (_geometry s) (_cmfd s) (_exp_evaluator s)
    (_tracks s) (_tot_num_tracks s) (_polar_weights s) (_boundary_flux s)
    (_boundary_leakage s) (_scalar_flux s) (_old_scalar_flux s)
    (_fixed_sources s) (_reduced_sources s) (_user_polar_quad s)
    (_polar_quad s) (_num_polar s) (_polar_times_groups s)
    (_num_iterations s) v (_k_eff s).

Definition set_k_eff (v : FP_PRECISION) (s : Solver) : Solver :=
  mkSolver (_num_materials s) (_num_groups s) (_num_azim s) (_num_FSRs s)
    (_num_fissionable_FSRs s) (_FSR_volumes s) (_FSR_materials s)
    (_track_generator s) (_geometry s) (_cmfd s) (_exp_evaluator s)
    (_tracks s) (_tot_num_tracks s) (_polar_weights s) (_boundary_flux s)
    (_boundary_leakage s) (_scalar_flux s) (_old_scalar_flux s)
    (_fixed_sources s) (_reduced_sources s) (_user_polar_quad s)
    (_polar_quad s) (_num_polar s) (_polar_times_groups s)
    (_num_iterations s) (_converge_thresh s) v.

End Model.

(** ** The sweep backend *)

(** The pure-virtual methods of [Solver] and the collaborator operations that
    act on the engine's arrays. Their code belongs to the subclasses and to
    the CMFD and track-generator classes; here they are arbitrary total
    state transformers. *)
Class Backend `{Ext : Externals} : Type := {
  initializeFluxArrays : Solver -> Solver;
  initializeSourceArrays : Solver -> Solver;
  flattenFSRFluxes : FP_PRECISION -> Solver -> Solver;
  zeroTrackFluxes : Solver -> Solver;
  storeFSRFluxes : Solver -> Solver;
  normalizeFluxes : Solver -> Solver;
  computeFSRSources : Solver -> Solver;
  transportSweep : Solver -> Solver;
  addSourceToScalarFlux : Solver -> Solver;
  computeResidual : residualType -> Solver -> FP_PRECISION * Solver;
  computeKeff : Solver -> Solver;
  cmfd_computeKeff : Z -> Solver -> FP_PRECISION * Solver;
  cmfd_updateBoundaryFlux : Solver -> Solver;
  tg_splitSegments : FP_PRECISION -> TrackGenerator -> TrackGenerator
}.

(** ** The state-and-exception monad of the engine *)

Section Engine.
Context `{Ext : Externals} {B : Backend}.

Record World : Type := mkWorld { solver : Solver; trace : list event }.

Definition M (A : Type) : Type := World -> outcome A * World.

Definition ret {A} (a : A) : M A := fun w => (Return a, w).

Definition bind {A C} (m : M A) (f : A -> M C) : M C :=
  fun w =>
    match m w with
    | (Return a, w') => f a w'
    | (Raise e, w') => (Raise e, w')
    | (Undefined, w') => (Undefined, w')
    | (NonFinite, w') => (NonFinite, w')
    end.

Definition raise {A} (e : error) : M A := fun w => (Raise e, w).

Definition lift {A} (o : outcome A) : M A := fun w => (o, w).

Definition get {A} (f : Solver -> A) : M A := fun w => (Return (f (solver w)), w).

Definition modify (f : Solver -> Solver) : M unit :=
  fun w => (Return tt, mkWorld (f (solver w)) (trace w)).

Definition modify_with {A} (f : Solver -> A * Solver) : M A :=
  fun w => let (a, s') := f (solver w) in (Return a, mkWorld s' (trace w)).

Definition emit (ev : event) : M unit :=
  fun w => (Return tt, mkWorld (solver w) (trace w ++ [ev])).

#[global] Instance M_ret : MRet M := @ret.
#[global] Instance M_bind : MBind M := fun A C f m => bind m f.



(** Modelled from the spec: [log_printf] is missing from the sources. At
    level [ERROR] it raises, and the enclosing call is aborted at once
    (errors "abort the call immediately"); at the other levels it prints
    and the call goes on. *)
Definition log_error {A} (k : error_kind) (fmt : string) : M A :=
  raise (mkError k fmt).

Definition log_printf (lvl : logLevel) (fmt : string) (args : list log_arg)
  : M unit :=
  emit (Logged lvl fmt args).

(** A call of a pure-virtual method. *)
Definition virtual (c : virtual_call) (f : Solver -> Solver) : M unit :=
  emit (Virtual c);; modify f.

Definition virtual_computeResidual (res_type : residualType) : M FP_PRECISION :=
  emit (Virtual (V_computeResidual res_type));;
  modify_with (computeResidual res_type).

(** [p->...] on a pointer field. *)
Definition deref {A} (f : Solver -> option A) : M A :=
  p ← get f; match p with Some x => ret x | None => lift Undefined end.

(** [for (int i = i0; i < i0 + n; i++) acc = body(i, acc)] on the engine. *)
Fixpoint for_M {A} (n : nat) (i : Z) (body : Z -> A -> M A) (acc : A) : M A :=
  match n with
  | O => ret acc
  | S n' => acc' ← body i acc; for_M n' (i + 1) body acc'
  end.

(** A [for] loop whose body may [return] from the enclosing function: the
    body yields [Some r] to return [r], [None] to go on. *)
Fixpoint for_return {R} (n : nat) (i : Z) (body : Z -> M (option R))
  : M (option R) :=
  match n with
  | O => ret None
  | S n' =>
      r ← body i;
      match r with
      | Some x => ret (Some x)
      | None => for_return n' (i + 1) body
      end
  end.

(** ** Queries *)

Definition getGeometry (s : Solver) : outcome Geometry :=
  match _geometry s with
  | None => Raise (mkError ConfigurationError
      "Unable to return the Solver's Geometry since it has not yet been set")
  | Some g => Return g
  end.

Definition getTrackGenerator (s : Solver) : outcome TrackGenerator :=
  match _track_generator s with
  | None => Raise (mkError ConfigurationError
      "Unable to return the Solver's TrackGenetrator since it has not yet been set")
  | Some tg => Return tg
  end.

Definition getFSRVolume (s : Solver) (fsr_id : Z) : outcome FP_PRECISION :=
  if (fsr_id <? 0) || (fsr_id >? _num_FSRs s) then
    Raise (mkError OutOfRange
      "Unable to get the volume for FSR %d since the FSR IDs lie in the range (0, %d)")
  else if is_NULL (_FSR_volumes s) then
    Raise (mkError NotReady
      "Unable to get the volume for FSR %d since the FSR volumes have not yet been computed")
  else array_read (_FSR_volumes s) fsr_id.

Definition getNumPolarAngles (s : Solver) : Z := _num_polar s.
Definition getNumIterations (s : Solver) : Z := _num_iterations s.
Definition getKeff (s : Solver) : FP_PRECISION := _k_eff s.
Definition getConvergenceThreshold (s : Solver) : FP_PRECISION :=
  _converge_thresh s.

Definition getFSRScalarFlux (s : Solver) (fsr_id group : Z)
  : outcome FP_PRECISION :=
  if fsr_id >=? _num_FSRs s then
    Raise (mkError OutOfRange
      "Unable to return a scalar flux for FSR ID = %d since the max FSR ID = %d")
  else if fsr_id <? 0 then
    Raise (mkError OutOfRange
      "Unable to return a scalar flux for FSR ID = %d since FSRs do not have negative IDs")
  else if group - 1 >=? _num_groups s then
    Raise (mkError OutOfRange
      "Unable to return a scalar flux in group %d since there are only %d groups")
  else if group <=? 0 then
    Raise (mkError OutOfRange
      "Unable to return a scalar flux in group %d since groups must be greater or equal to 1")
  else if is_NULL (_scalar_flux s) then
    Raise (mkError NotReady
      "Unable to return a scalar flux since it has not yet been computed")
  else array_read (_scalar_flux s) (idx2 (_num_groups s) fsr_id (group - 1)).

(** The fission loop of [getFSRSource]:
    [source += _scalar_flux(fsr_id,e) * nu_sigma_f[e]]. *)
Definition fission_step (s : Solver) (material : Material) (fsr_id : Z)
  (e : Z) (source : FP_PRECISION) : outcome FP_PRECISION :=
  phi ← array_read (_scalar_flux s) (idx2 (_num_groups s) fsr_id e);
  Return (source + phi * mat_nu_sigma_f material e)%Q.

(** The scatter loop of [getFSRSource]:
    [source += getSigmaSByGroupInline(g,group-1) * _scalar_flux(fsr_id,g)]. *)
Definition scatter_step (s : Solver) (material : Material) (fsr_id group : Z)
  (g : Z) (source : FP_PRECISION) : outcome FP_PRECISION :=
  phi ← array_read (_scalar_flux s) (idx2 (_num_groups s) fsr_id g);
  Return (source + mat_sigma_s material g (group - 1) * phi)%Q.

Definition getFSRSource (s : Solver) (fsr_id group : Z)
  : outcome FP_PRECISION :=
  if fsr_id >=? _num_FSRs s then
    Raise (mkError OutOfRange
      "Unable to return a source for FSR ID = %d since the max FSR ID = %d")
  else if fsr_id <? 0 then
    Raise (mkError OutOfRange
      "Unable to return a source for FSR ID = %d since FSRs do not have negative IDs")
  else if group - 1 >=? _num_groups s then
    Raise (mkError OutOfRange
      "Unable to return a source in group %d since there are only %d groups")
  else if group <=? 0 then
    Raise (mkError OutOfRange
      "Unable to return a source in group %d since groups must be greater or equal to 1")
  else if is_NULL (_scalar_flux s) then
    Raise (mkError NotReady
      "Unable to return a source since it has not yet been computed")
  else
    material ← array_read (_FSR_materials s) fsr_id;
    source ← (if mat_fissionable material then
                fis ← for_acc (Z.to_nat (_num_groups s)) 0
                        (fission_step s material fsr_id) 0%Q;
                fp_div fis (_k_eff s * mat_chi material (group - 1))%Q
              else Return 0%Q);
    source ← for_acc (Z.to_nat (_num_groups s)) 0
               (scatter_step s material fsr_id group) source;
    fixed ← array_read (_fixed_sources s)
              (idx2 (_num_groups s) fsr_id (group - 1));
    Return ((source + fixed) * ONE_OVER_FOUR_PI)%Q.

(** ** Configuration *)

Definition setGeometry (geometry : Geometry) : M unit :=
  (if geo_num_FSRs geometry =? 0 then
     log_error ConfigurationError
       "Unable to set the Geometry for the Solver since the Geometry has not yet initialized FSRs"
   else ret tt);;
  modify (set_geometry (Some geometry));;
  modify (set_cmfd (geo_cmfd geometry));;
  modify (set_num_FSRs (geo_num_FSRs geometry));;
  modify (set_num_groups (geo_num_groups geometry));;
  modify (fun s =>
            set_polar_times_groups (int_mul (_num_groups s) (_num_polar s)) s);;
  modify (set_num_materials (geo_num_materials geometry)).

(** The content of a slot of [new Track*[n]] before it is written. *)
Definition junk_handle : TrackHandle := (-1, -1).

(** [_tracks[counter] = &getTracks()[i][j]; counter++]. *)
Definition store_track (i j counter : Z) : M Z :=
  tracks ← get _tracks;
  tracks' ← lift (array_write tracks counter (i, j));
  modify (set_tracks tracks');;
  ret (counter + 1).

(** The inner loop of [setTrackGenerator]:
    [for (int j=0; j < num_tracks[i]; j++) ...]. *)
Definition store_track_row (num_tracks : option (list Z)) (i counter : Z)
  : M Z :=
  n ← lift (array_read num_tracks i);
  for_M (Z.to_nat n) 0 (store_track i) counter.

Definition setTrackGenerator (track_generator : TrackGenerator) : M unit :=
  (if negb (tg_containsTracks track_generator) then
     log_error ConfigurationError
       "Unable to set the TrackGenerator for the Solver since the TrackGenerator has not yet generated tracks"
   else ret tt);;
  modify (set_track_generator (Some track_generator));;
  modify (set_num_azim (Z.quot (tg_num_azim track_generator) 2));;
  let num_tracks := Some (tg_num_tracks_array track_generator) in
  modify (set_tot_num_tracks (tg_num_tracks track_generator));;
  tot ← get _tot_num_tracks;
  arr ← lift (new_array tot junk_handle);
  modify (set_tracks arr);;
  num_azim ← get _num_azim;
  for_M (Z.to_nat num_azim) 0 (store_track_row num_tracks) 0;;
  setGeometry (tg_geometry track_generator).

Definition setPolarQuadrature (polar_quad : PolarQuad) : M unit :=
  modify (set_user_polar_quad true);;
  modify (set_polar_quad polar_quad);;
  modify (fun s => set_num_polar (pq_getNumPolarAngles (_polar_quad s)) s);;
  modify (fun s =>
            set_polar_times_groups (int_mul (_num_groups s) (_num_polar s)) s).

(** The threshold is the caller's: it may be an infinity or NaN, which the
    code stores like a number when the test lets it through. *)
Definition setConvergenceThreshold (threshold : fp_argument) : M unit :=
  (if arg_le_zero threshold then
     log_error InvalidArgument
       "Unable to set the convergence threshold to %f since it is not a positive number"
   else ret tt);;
  match threshold with
  | Number x => modify (set_converge_thresh x)
  | PlusInfinity | MinusInfinity | NaN => lift NonFinite
  end.

(** The base-class routine: "a helper routine to perform error checking for
    the subclasses which store the source in the appropriate array". *)
Definition setFixedSourceByFSR (fsr_id group : Z) (source : FP_PRECISION)
  : M unit :=
  num_groups ← get _num_groups;
  (if (group <=? 0) || (group >? num_groups) then
     log_error OutOfRange
       "Unable to set fixed source for group %d in in a %d energy group problem"
   else ret tt);;
  num_FSRs ← get _num_FSRs;
  (if (fsr_id <? 0) || (fsr_id >=? num_FSRs) then
     log_error OutOfRange
       "Unable to set fixed source for FSR %d with only %d FSRs in the geometry"
   else ret tt).

(** Modelled from the spec: the override of [setFixedSourceByFSR] in the
    subclasses is missing from the sources. Fixed-source assignment "by
    region id (base case, validates and stores)": it runs the base-class
    validation and then stores [source] in [_fixed_sources(fsr_id,group-1)];
    the fixed-source field is a "sparse, user-populated overlay", so it is
    created with every entry zero when it does not exist yet. *)
Definition Subclass_setFixedSourceByFSR (fsr_id group : Z)
  (source : FP_PRECISION) : M unit :=
  setFixedSourceByFSR fsr_id group source;;
  fixed ← get _fixed_sources;
  (if is_NULL fixed then
     size ← get (fun s => _num_FSRs s * _num_groups s);
     arr ← lift (new_array size 0%Q);
     modify (set_fixed_sources arr)
   else ret tt);;
  fixed ← get _fixed_sources;
  num_groups ← get _num_groups;
  fixed' ← lift (array_write fixed (idx2 num_groups fsr_id (group - 1)) source);
  modify (set_fixed_sources fixed').

(** ** Initialization of the derived data *)

(** [_polar_weights(i,p) = azim_weights[i] * getMultiple(p) * FOUR_PI]. *)
Definition store_polar_weight (azim_weights : Z -> FP_PRECISION) (i p : Z)
  : M unit :=
  weights ← get _polar_weights;
  num_polar ← get _num_polar;
  pq ← get _polar_quad;
  weights' ← lift (array_write weights (idx2 num_polar i p)
                     (azim_weights i * pq_getMultiple pq p * FOUR_PI)%Q);
  modify (set_polar_weights weights').

Definition initializePolarQuadrature : M unit :=
  tg ← deref _track_generator;
  let azim_weights := tg_azim_weights tg in
  num_polar ← get _num_polar;
  emit (PQ_setNumPolarAngles num_polar);;
  modify (fun s => set_polar_quad (pq_setNumPolarAngles num_polar (_polar_quad s)) s);;
  emit PQ_initialize;;
  modify (fun s => set_polar_quad (pq_initialize (_polar_quad s)) s);;
  modify (fun s =>
            set_polar_times_groups (int_mul (_num_groups s) (_num_polar s)) s);;
  size ← get (fun s => _num_azim s * _num_polar s);
  arr ← lift (new_array size indeterminate);
  modify (set_polar_weights arr);;
  num_azim ← get _num_azim;
  for_M (Z.to_nat num_azim) 0
    (fun i _ =>
       num_polar ← get _num_polar;
       for_M (Z.to_nat num_polar) 0
         (fun p _ => store_polar_weight azim_weights i p) tt) tt.

(** Modelled from the spec: the methods of [ExpEvaluator] are missing from
    the sources. The setters store their argument; [initialize] builds the
    "precomputed piecewise-linear table built over [0, maxOpticalLength] at a
    caller-specified error tolerance", which also depends on the polar
    quadrature ("per-angle secants scale the stored lengths"), and changes
    nothing else. *)
Definition Exp_with_polar_quad (pq : PolarQuad) (e : ExpEvaluator)
  : ExpEvaluator :=
  {| exp_interpolate := exp_interpolate e;
     exp_max_optical_length := exp_max_optical_length e;
     exp_precision := exp_precision e;
     exp_polar_quad := Some pq;
     exp_table := exp_table e |}.

Definition Exp_with_max_optical_length (max_tau : FP_PRECISION)
  (e : ExpEvaluator) : ExpEvaluator :=
  {| exp_interpolate := exp_interpolate e;
     exp_max_optical_length := max_tau;
     exp_precision := exp_precision e;
     exp_polar_quad := exp_polar_quad e;
     exp_table := exp_table e |}.

Definition Exp_initialized (e : ExpEvaluator) : ExpEvaluator :=
  {| exp_interpolate := exp_interpolate e;
     exp_max_optical_length := exp_max_optical_length e;
     exp_precision := exp_precision e;
     exp_polar_quad := exp_polar_quad e;
     exp_table := Some (exp_build_table (exp_polar_quad e)
                          (exp_max_optical_length e) (exp_precision e)) |}.

Definition on_exp_evaluator (ev : event) (f : ExpEvaluator -> ExpEvaluator)
  : M unit :=
  emit ev;; modify (fun s => set_exp_evaluator (f (_exp_evaluator s)) s).

Definition initializeExpEvaluator : M unit :=
  pq ← get _polar_quad;
  on_exp_evaluator Exp_setPolarQuadrature (Exp_with_polar_quad pq);;
  interpolate ← get (fun s => exp_interpolate (_exp_evaluator s));
  if (interpolate : bool) then
    tg ← deref _track_generator;
    let max_tau_a := tg_max_optical_length tg in
    max_tau_b ← get (fun s => exp_max_optical_length (_exp_evaluator s));
    let max_tau := std_min max_tau_a max_tau_b in
    emit (TG_splitSegments max_tau);;
    modify (set_track_generator (Some (tg_splitSegments max_tau tg)));;
    on_exp_evaluator (Exp_setMaxOpticalLength max_tau)
      (Exp_with_max_optical_length max_tau);;
    on_exp_evaluator Exp_initialize Exp_initialized
  else ret tt.

(** The content of a slot of [new Material*[n]] before it is written. *)
Definition junk_material : Material :=
  {| mat_id := -1;
     mat_nu_sigma_f := fun _ => 0%Q;
     mat_chi := fun _ => 0%Q;
     mat_sigma_s := fun _ _ => 0%Q;
     mat_fissionable := false |}.

Definition initializeFSRs : M unit :=
  log_printf INFO "Initializing flat source regions..." [];;
  tg ← deref _track_generator;
  modify (set_FSR_volumes (Some (tg_FSR_volumes tg)));;
  num_FSRs ← get _num_FSRs;
  arr ← lift (new_array num_FSRs junk_material);
  modify (set_FSR_materials arr);;
  modify (set_num_fissionable_FSRs 0);;
  num_FSRs ← get _num_FSRs;
  for_M (Z.to_nat num_FSRs) 0
    (fun r _ =>
       geometry ← deref _geometry;
       materials ← get _FSR_materials;
       materials' ← lift (array_write materials r (geo_findFSRMaterial geometry r));
       modify (set_FSR_materials materials');;
       materials ← get _FSR_materials;
       material ← lift (array_read materials r);
       volumes ← get _FSR_volumes;
       volume ← lift (array_read volumes r);
       log_printf DEBUG "FSR ID = %d has Material ID = %d and volume = %f "
         [ArgInt r; ArgInt (mat_id material); ArgFP volume]) tt.

Definition countFissionableFSRs : M unit :=
  log_printf INFO "Counting fissionable FSRs..." [];;
  deref _geometry;;
  modify (set_num_fissionable_FSRs 0);;
  num_FSRs ← get _num_FSRs;
  for_M (Z.to_nat num_FSRs) 0
    (fun r _ =>
       materials ← get _FSR_materials;
       material ← lift (array_read materials r);
       if mat_fissionable material then
         modify (fun s => set_num_fissionable_FSRs (_num_fissionable_FSRs s + 1) s)
       else ret tt) tt.

Definition on_cmfd (method : string) (f : Solver -> Cmfd -> Cmfd) : M unit :=
  cmfd ← deref _cmfd;
  emit (Cmfd_call method);;
  modify (fun s => set_cmfd (Some (f s cmfd)) s).

Definition initializeCmfd : M unit :=
  log_printf INFO "Initializing CMFD..." [];;
  on_cmfd "setNumFSRs" (fun s => cmfd_setNumFSRs (_num_FSRs s));;
  on_cmfd "setFSRVolumes" (fun s => cmfd_setFSRVolumes (_FSR_volumes s));;
  on_cmfd "setFSRMaterials" (fun s => cmfd_setFSRMaterials (_FSR_materials s));;
  on_cmfd "setFSRFluxes" (fun s => cmfd_setFSRFluxes (_scalar_flux s));;
  on_cmfd "setPolarQuadrature" (fun s => cmfd_setPolarQuadrature (_polar_quad s));;
  on_cmfd "initializeSurfaceCurrents" (fun _ => cmfd_initializeSurfaceCurrents).

Definition cmfd_flux_update_on (s : Solver) : bool :=
  match _cmfd s with
  | Some cmfd => cmfd_isFluxUpdateOn cmfd
  | None => false
  end.

Definition clearTimerSplits : M unit := emit (TimerClearSplit "Total time").

(** ** The three solve routines *)

(** The convergence test that ends each pass of the three source-iteration
    loops: on success the iteration counter is set and the function
    returns. *)
Definition check_convergence (i : Z) (residual : FP_PRECISION)
  : M (option unit) :=
  thresh ← get _converge_thresh;
  if (i >? 1) && fp_lt residual thresh then
    modify (set_num_iterations i);;
    emit TimerStop;;
    emit (TimerRecordSplit "Total time");;
    ret (Some tt)
  else ret None.

(** The statements after a source-iteration loop that ran to its end. *)
Definition not_converged (warning : string) (max_iters : Z) : M unit :=
  log_printf WARNING warning [];;
  modify (set_num_iterations max_iters);;
  emit TimerStop;;
  emit (TimerRecordSplit "Total time").

(** [computeFlux], up to the source-iteration loop. *)
Definition computeFlux_setup (only_fixed_source : bool) : M unit :=
  tg ← get _track_generator;
  (if is_NULL tg then
     log_error ConfigurationError
       "The Solver is unable to compute the flux since it does not contain a TrackGenerator"
   else ret tt);;
  log_printf NORMAL "Computing the flux..." [];;
  clearTimerSplits;;
  emit TimerStart;;
  initializePolarQuadrature;;
  initializeExpEvaluator;;
  num_iterations ← get _num_iterations;
  (if only_fixed_source || (num_iterations =? 0) then
     virtual V_initializeFluxArrays initializeFluxArrays;;
     virtual (V_flattenFSRFluxes 0%Q) (flattenFSRFluxes 0%Q)
   else ret tt);;
  virtual V_initializeSourceArrays initializeSourceArrays;;
  initializeFSRs;;
  countFissionableFSRs;;
  virtual V_zeroTrackFluxes zeroTrackFluxes;;
  virtual V_computeFSRSources computeFSRSources.

(** One pass of the loop of [computeFlux], up to the convergence test. *)
Definition computeFlux_iteration (i : Z) : M FP_PRECISION :=
  virtual V_transportSweep transportSweep;;
  virtual V_addSourceToScalarFlux addSourceToScalarFlux;;
  residual ← virtual_computeResidual SCALAR_FLUX;
  virtual V_storeFSRFluxes storeFSRFluxes;;
  log_printf NORMAL "Iteration %d:\tres = %1.3E" [ArgInt i; ArgFP residual];;
  ret residual.

(** The source-iteration loop of [computeFlux] and what follows it. *)
Definition computeFlux_iterations (max_iters : Z) : M unit :=
  returned ← for_return (Z.to_nat max_iters) 0
               (fun i => residual ← computeFlux_iteration i;
                         check_convergence i residual);
  match returned with
  | Some _ => ret tt
  | None => not_converged "Unable to converge the flux" max_iters
  end.

Definition computeFlux (max_iters : Z) (only_fixed_source : bool) : M unit :=
  computeFlux_setup only_fixed_source;;
  computeFlux_iterations max_iters.

(** [computeSource], up to the source-iteration loop. *)
Definition computeSource_setup (k_eff : FP_PRECISION) : M unit :=
  tg ← get _track_generator;
  (if is_NULL tg then
     log_error ConfigurationError
       "The Solver is unable to compute the source since it does not contain a TrackGenerator"
   else if fp_le k_eff 0%Q then
     log_error InvalidArgument
       "The Solver is unable to compute the source with keff = %f since it is not a positive value"
   else ret tt);;
  log_printf NORMAL "Computing the source..." [];;
  clearTimerSplits;;
  emit TimerStart;;
  modify (set_k_eff k_eff);;
  initializePolarQuadrature;;
  initializeExpEvaluator;;
  virtual V_initializeFluxArrays initializeFluxArrays;;
  virtual V_initializeSourceArrays initializeSourceArrays;;
  initializeFSRs;;
  virtual (V_flattenFSRFluxes 1%Q) (flattenFSRFluxes 1%Q);;
  virtual V_zeroTrackFluxes zeroTrackFluxes.

Definition computeSource_iteration (res_type : residualType) (i : Z)
  : M FP_PRECISION :=
  virtual V_computeFSRSources computeFSRSources;;
  virtual V_transportSweep transportSweep;;
  virtual V_addSourceToScalarFlux addSourceToScalarFlux;;
  residual ← virtual_computeResidual res_type;
  virtual V_storeFSRFluxes storeFSRFluxes;;
  log_printf NORMAL "Iteration %d:\tres = %1.3E" [ArgInt i; ArgFP residual];;
  ret residual.

Definition computeSource_iterations (max_iters : Z) (res_type : residualType)
  : M unit :=
  returned ← for_return (Z.to_nat max_iters) 0
               (fun i => residual ← computeSource_iteration res_type i;
                         check_convergence i residual);
  match returned with
  | Some _ => ret tt
  | None => not_converged "Unable to converge the source" max_iters
  end.

Definition computeSource (max_iters : Z) (k_eff : FP_PRECISION)
  (res_type : residualType) : M unit :=
  computeSource_setup k_eff;;
  computeSource_iterations max_iters res_type.

(** [computeEigenvalue], up to the source-iteration loop. *)
Definition computeEigenvalue_setup : M unit :=
  tg ← get _track_generator;
  (if is_NULL tg then
     log_error ConfigurationError
       "The Solver is unable to compute the eigenvalue since it does not contain a TrackGenerator"
   else ret tt);;
  log_printf NORMAL "Computing the eigenvalue..." [];;
  clearTimerSplits;;
  emit TimerStart;;
  modify (set_k_eff 1%Q);;
  initializePolarQuadrature;;
  initializeExpEvaluator;;
  virtual V_initializeFluxArrays initializeFluxArrays;;
  virtual V_initializeSourceArrays initializeSourceArrays;;
  initializeFSRs;;
  countFissionableFSRs;;
  update_on ← get cmfd_flux_update_on;
  (if (update_on : bool) then initializeCmfd else ret tt);;
  virtual (V_flattenFSRFluxes 1%Q) (flattenFSRFluxes 1%Q);;
  virtual V_zeroTrackFluxes zeroTrackFluxes.

Definition computeEigenvalue_iteration (res_type : residualType) (i : Z)
  : M FP_PRECISION :=
  virtual V_normalizeFluxes normalizeFluxes;;
  virtual V_computeFSRSources computeFSRSources;;
  virtual V_transportSweep transportSweep;;
  virtual V_addSourceToScalarFlux addSourceToScalarFlux;;
  residual ← virtual_computeResidual res_type;
  virtual V_storeFSRFluxes storeFSRFluxes;;
  update_on ← get cmfd_flux_update_on;
  (if (update_on : bool) then
     emit (Cmfd_computeKeff i);;
     k ← modify_with (cmfd_computeKeff i);
     modify (set_k_eff k);;
     emit Cmfd_updateBoundaryFlux;;
     modify cmfd_updateBoundaryFlux
   else virtual V_computeKeff computeKeff);;
  k_eff ← get _k_eff;
  log_printf NORMAL "Iteration %d:\tk_eff = %1.6f\tres = %1.3E"
    [ArgInt i; ArgFP k_eff; ArgFP residual];;
  ret residual.

Definition computeEigenvalue_iterations (max_iters : Z)
  (res_type : residualType) : M unit :=
  returned ← for_return (Z.to_nat max_iters) 0
               (fun i => residual ← computeEigenvalue_iteration res_type i;
                         check_convergence i residual);
  match returned with
  | Some _ => ret tt
  | None => not_converged "Unable to converge the source distribution" max_iters
  end.

Definition computeEigenvalue (max_iters : Z) (res_type : residualType)
  : M unit :=
  computeEigenvalue_setup;;
  computeEigenvalue_iterations max_iters res_type.

(** ** Construction *)

(** The constructor, run on the not yet initialized storage of the object:
    the fields it does not assign ([_tot_num_tracks], [_k_eff]) keep whatever
    that storage held. [new_ExpEvaluator] and [new_TYPolarQuad] are the
    objects [new ExpEvaluator()] and [new TYPolarQuad()] yield; a [NULL]
    track generator is [None]. The timer it creates last is not a field of
    the model: its calls are the timer events of the trace. *)
Definition Solver_constructor (new_ExpEvaluator : ExpEvaluator)
  (new_TYPolarQuad : PolarQuad) (track_generator : option TrackGenerator)
  : M unit :=
  modify (set_num_materials 0);;
  modify (set_num_groups 0);;
  modify (set_num_azim 0);;
  modify (set_num_FSRs 0);;
  modify (set_num_fissionable_FSRs 0);;
  modify (set_FSR_volumes None);;
  modify (set_FSR_materials None);;
  modify (set_track_generator None);;
  modify (set_geometry None);;
  modify (set_cmfd None);;
  modify (set_exp_evaluator new_ExpEvaluator);;
  modify (set_tracks None);;
  modify (set_polar_weights None);;
  modify (set_boundary_flux None);;
  modify (set_boundary_leakage None);;
  modify (set_scalar_flux None);;
  modify (set_old_scalar_flux None);;
  modify (set_fixed_sources None);;
  modify (set_reduced_sources None);;
  match track_generator with
  | Some tg => setTrackGenerator tg
  | None => ret tt
  end;;
  modify (set_user_polar_quad false);;
  modify (set_polar_quad new_TYPolarQuad);;
  modify (set_num_polar 3);;
  modify (set_polar_times_groups 0);;
  modify (set_num_iterations 0);;
  modify (set_converge_thresh (1 # 100000)%Q).

End Engine.

(** * Vocabulary of the properties *)

Definition no_raise {A} (o : outcome A) : Prop :=
  match o with Raise _ => False | _ => True end.

(** The content of [arr[i]], for statements about allocated storage. *)
Definition entry (arr : option (list FP_PRECISION)) (i : Z) : FP_PRECISION :=
  match array_read arr i with Return x => x | _ => 0%Q end.

(** The sum of [term e] over the [n] groups [e0, e0+1, ...]. *)
Fixpoint sum_groups (n : nat) (e0 : Z) (term : Z -> FP_PRECISION)
  : FP_PRECISION :=
  match n with
  | O => 0%Q
  | S n' => (term e0 + sum_groups n' (e0 + 1) term)%Q
  end.

Section Vocabulary.
Context `{Ext : Externals} {B : Backend}.

(** The index pair [(fsr_id, group)] is outside [[0,numFSRs) x [1,numGroups]]. *)
Definition out_of_range (s : Solver) (fsr_id group : Z) : bool :=
  (fsr_id <? 0) || (fsr_id >=? _num_FSRs s) ||
  (group <=? 0) || (group >? _num_groups s).

(** The source of region [fsr_id] and group [group] as the specification
    writes it: the fission sum divided by [kEff * chi[group]] for a
    fissionable material, plus the in-scatter sum, plus the fixed source, the
    whole scaled by [1/(4 pi)]. *)
Definition spec_FSRSource_with (s : Solver) (material : Material)
  (fsr_id group : Z) (fixedSource : FP_PRECISION) : FP_PRECISION :=
  let num_groups := Z.to_nat (_num_groups s) in
  let scalarFlux e := entry (_scalar_flux s) (idx2 (_num_groups s) fsr_id e) in
  (((if mat_fissionable material then
       sum_groups num_groups 0
         (fun e => scalarFlux e * mat_nu_sigma_f material e)
       / (_k_eff s * mat_chi material (group - 1))
     else 0)
    + sum_groups num_groups 0
        (fun e => scalarFlux e * mat_sigma_s material e (group - 1))
    + fixedSource) * ONE_OVER_FOUR_PI)%Q.

Definition spec_FSRSource (s : Solver) (material : Material)
  (fsr_id group : Z) : FP_PRECISION :=
  spec_FSRSource_with s material fsr_id group
    (entry (_fixed_sources s) (idx2 (_num_groups s) fsr_id (group - 1))).

(** The scalar flux and the region materials exist with the size of the
    problem, as they do once a solve has computed the scalar flux. *)
Definition flux_ready (s : Solver) : Prop :=
  0 <= _num_FSRs s /\ 0 <= _num_groups s /\
  (exists flux, _scalar_flux s = Some flux /\
                length flux = Z.to_nat (_num_FSRs s * _num_groups s)) /\
  (exists materials, _FSR_materials s = Some materials /\
                     length materials = Z.to_nat (_num_FSRs s)).

(** The fixed-source array exists with the size of the problem. *)
Definition fixed_sources_sized (s : Solver) : Prop :=
  exists fixed, _fixed_sources s = Some fixed /\
                length fixed = Z.to_nat (_num_FSRs s * _num_groups s).

(** All the arrays read by [getFSRSource] are there. *)
Definition arrays_ready (s : Solver) : Prop :=
  flux_ready s /\ fixed_sources_sized s.

(** The fission term of [getFSRSource(fsr_id, group)] is a quotient of
    numbers: when the material of the region is fissionable, the divisor
    [_k_eff * chi[group-1]] is not zero. *)
Definition fission_divisor_nonzero (s : Solver) (fsr_id group : Z) : Prop :=
  forall material,
    array_read (_FSR_materials s) fsr_id = Return material ->
    mat_fissionable material = true ->
    ~ (_k_eff s * mat_chi material (group - 1) == 0)%Q.

(** The fixed sources of the engine, all zero when none has been set yet. *)
Definition fixed_sources_before (s : Solver) : list FP_PRECISION :=
  match _fixed_sources s with
  | Some fixed => fixed
  | None => replicate (Z.to_nat (_num_FSRs s * _num_groups s)) 0%Q
  end.

(** The engine after [source] has been stored for [(fsr_id, group)]. *)
Definition with_fixed_source (fsr_id group : Z) (source : FP_PRECISION)
  (s : Solver) : Solver :=
  set_fixed_sources
    (Some (<[Z.to_nat (idx2 (_num_groups s) fsr_id (group - 1)) := source]>
             (fixed_sources_before s)))
    s.

(** The handles of row [i] of the generator's tracks, [n] tracks long. *)
Definition track_row (i n : Z) : list TrackHandle :=
  map (fun j => (i, Z.of_nat j)) (seq 0 (Z.to_nat n)).

(** The handles of consecutive rows, the first being row [i]: row after row,
    each in the order of its tracks. *)
Fixpoint flat_tracks_from (i : Z) (rows : list Z) : list TrackHandle :=
  match rows with
  | [] => []
  | n :: rows' => track_row i n ++ flat_tracks_from (i + 1) rows'
  end.

Definition flat_tracks (num_azim : Z) (num_tracks : list Z)
  : list TrackHandle :=
  flat_tracks_from 0 (firstn (Z.to_nat num_azim) num_tracks).

(** Azimuthal index first, track index second. *)
Definition handle_lt (a b : TrackHandle) : Prop :=
  fst a < fst b \/ (fst a = fst b /\ snd a < snd b).

(** The track generator is consistent: it has a track count for each of its
    [getNumAzim()/2] rows, and [getNumTracks()] is their total. *)
Definition tracks_consistent (tg : TrackGenerator) : Prop :=
  (Z.to_nat (Z.quot (tg_num_azim tg) 2) <= length (tg_num_tracks_array tg))%nat /\
  tg_num_tracks tg
  = Z.of_nat (length (flat_tracks (Z.quot (tg_num_azim tg) 2)
                        (tg_num_tracks_array tg))).

(** The engine after a successful [setTrackGenerator(tg)]. *)
Definition bound_to (tg : TrackGenerator) (s : Solver) : Solver :=
  let geometry := tg_geometry tg in
  set_num_materials (geo_num_materials geometry)
    (set_polar_times_groups
       (int_mul (geo_num_groups geometry) (_num_polar s))
       (set_num_groups (geo_num_groups geometry)
          (set_num_FSRs (geo_num_FSRs geometry)
             (set_cmfd (geo_cmfd geometry)
                (set_geometry (Some geometry)
                   (set_tracks
                      (Some (flat_tracks (Z.quot (tg_num_azim tg) 2)
                               (tg_num_tracks_array tg)))
                      (set_tot_num_tracks (tg_num_tracks tg)
                         (set_num_azim (Z.quot (tg_num_azim tg) 2)
                            (set_track_generator (Some tg) s))))))))).

(** *** The three solve operations, uniformly *)

Inductive solve_operation : Type :=
| Flux (only_fixed_source : bool)
| Source (k_eff : FP_PRECISION) (res_type : residualType)
| Eigenvalue (res_type : residualType).

Definition solve (op : solve_operation) (max_iters : Z) : M unit :=
  match op with
  | Flux only_fixed_source => computeFlux max_iters only_fixed_source
  | Source k_eff res_type => computeSource max_iters k_eff res_type
  | Eigenvalue res_type => computeEigenvalue max_iters res_type
  end.

Definition setup_of (op : solve_operation) : M unit :=
  match op with
  | Flux only_fixed_source => computeFlux_setup only_fixed_source
  | Source k_eff _ => computeSource_setup k_eff
  | Eigenvalue _ => computeEigenvalue_setup
  end.

Definition iteration_of (op : solve_operation) : Z -> M FP_PRECISION :=
  match op with
  | Flux _ => computeFlux_iteration
  | Source _ res_type => computeSource_iteration res_type
  | Eigenvalue res_type => computeEigenvalue_iteration res_type
  end.

Definition warning_of (op : solve_operation) : string :=
  match op with
  | Flux _ => "Unable to converge the flux"
  | Source _ _ => "Unable to converge the source"
  | Eigenvalue _ => "Unable to converge the source distribution"
  end.

(** The world after one pass [i] of a loop body, and the residual that the
    pass computed. *)
Definition world_after (pass : Z -> M FP_PRECISION) (i : Z) (w : World)
  : World :=
  snd (pass i w).

Definition residual_of_pass (pass : Z -> M FP_PRECISION) (i : Z) (w : World)
  : FP_PRECISION :=
  match fst (pass i w) with Return r => r | _ => 0%Q end.

(** The world after the [k] passes [i0, i0+1, ...], none of which ends the
    loop. *)
Fixpoint passes (pass : Z -> M FP_PRECISION) (i0 : Z) (k : nat) (w : World)
  : World :=
  match k with
  | O => w
  | S k' => passes pass (i0 + 1) k' (world_after pass i0 w)
  end.

(** A loop body that always completes its pass. *)
Definition total_pass (pass : Z -> M FP_PRECISION) : Prop :=
  forall i w, exists r w', pass i w = (Return r, w').

(** The convergence test of pass [i0 + k]: the index exceeds 1 and the
    residual of the pass is below the threshold. *)
Definition converged_at (pass : Z -> M FP_PRECISION) (i0 : Z) (k : nat)
  (w : World) : bool :=
  let before := passes pass i0 k w in
  let i := i0 + Z.of_nat k in
  (i >? 1) && fp_lt (residual_of_pass pass i before)
                (_converge_thresh (solver (world_after pass i before))).

(** The world in which a solve returns after its pass [i] converged. *)
Definition success_world (i : Z) (after : World) : World :=
  mkWorld (set_num_iterations i (solver after))
    (trace after ++ [TimerStop; TimerRecordSplit "Total time"]).

(** The world in which a solve returns after [max_iters] passes without
    convergence. *)
Definition exhausted_world (warning : string) (max_iters : Z) (last : World)
  : World :=
  mkWorld (set_num_iterations max_iters (solver last))
    (trace last ++ [Logged WARNING warning []; TimerStop;
                    TimerRecordSplit "Total time"]).

(** Modelled from the spec: the pure-virtual methods are implemented in the
    subclasses, which are missing from the sources. What the specification
    says of the ones [computeFlux] calls before its loop: "after
    flattenFSRFluxes(1.0), every region/group scalar flux equals exactly
    1.0", the scalar flux field being the dense array [FSR][energyGroup]
    that [initializeFluxArrays] allocates; the source arrays, the boundary
    fluxes and the source assembly leave the scalar flux as it is. *)
Class BackendContract : Prop := {
  flatten_after_allocation : forall v s,
    _scalar_flux (flattenFSRFluxes v (initializeFluxArrays s))
    = Some (replicate (Z.to_nat (_num_FSRs s * _num_groups s)) v);
  initializeSourceArrays_keeps_flux : forall s,
    _scalar_flux (initializeSourceArrays s) = _scalar_flux s;
  zeroTrackFluxes_keeps_flux : forall s,
    _scalar_flux (zeroTrackFluxes s) = _scalar_flux s;
  computeFSRSources_keeps_flux : forall s,
    _scalar_flux (computeFSRSources s) = _scalar_flux s
}.

(** An event other than the (re)allocation and the flattening of the flux. *)
Definition quiet (ev : event) : Prop :=
  match ev with
  | Virtual V_initializeFluxArrays => False
  | Virtual (V_flattenFSRFluxes _) => False
  | _ => True
  end.

(** What the routines around the flux initialization of [computeFlux] leave
    alone: the scalar flux, the dimensions and the iteration counter; and
    they neither reallocate nor flatten the flux. *)
Definition quiet_extension (w w' : World) : Prop :=
  exists d, trace w' = trace w ++ d /\ Forall quiet d.

Definition steady (w w' : World) : Prop :=
  _scalar_flux (solver w') = _scalar_flux (solver w) /\
  _num_FSRs (solver w') = _num_FSRs (solver w) /\
  _num_groups (solver w') = _num_groups (solver w) /\
  _num_iterations (solver w') = _num_iterations (solver w) /\
  quiet_extension w w'.

Definition flux_kept (w w' : World) : Prop :=
  _scalar_flux (solver w') = _scalar_flux (solver w) /\
  quiet_extension w w'.

(** Whatever its outcome, [m] takes a world to an [R]-related one. *)
Definition preserving (R : World -> World -> Prop) {A} (m : M A) : Prop :=
  forall w o w', m w = (o, w') -> R w w'.

(** *** Vocabulary of the configuration and initialization routines *)

(** The trace of [w'] is the one of [w] followed by events that all satisfy
    [P]. *)
Definition appends (P : event -> Prop) (w w' : World) : Prop :=
  exists d, trace w' = trace w ++ d /\ Forall P d.

(** An event that is not a call of the timer. *)
Definition untimed (ev : event) : Prop :=
  match ev with
  | TimerClearSplit _ | TimerStart | TimerStop | TimerRecordSplit _ => False
  | _ => True
  end.

(** The fields that hold the solution of a solve: the fluxes, the sources,
    the eigenvalue and the iteration counter. *)
Definition solution_kept (w w' : World) : Prop :=
  _scalar_flux (solver w') = _scalar_flux (solver w) /\
  _old_scalar_flux (solver w') = _old_scalar_flux (solver w) /\
  _boundary_flux (solver w') = _boundary_flux (solver w) /\
  _boundary_leakage (solver w') = _boundary_leakage (solver w) /\
  _fixed_sources (solver w') = _fixed_sources (solver w) /\
  _reduced_sources (solver w') = _reduced_sources (solver w) /\
  _k_eff (solver w') = _k_eff (solver w) /\
  _num_iterations (solver w') = _num_iterations (solver w).

(** The line a solve operation logs when it starts. *)
Definition banner_of (op : solve_operation) : string :=
  match op with
  | Flux _ => "Computing the flux..."
  | Source _ _ => "Computing the source..."
  | Eigenvalue _ => "Computing the eigenvalue..."
  end.

(** [_polar_times_groups] is the product it is named after, as [int]
    computes it. *)
Definition polar_times_groups_ok (s : Solver) : Prop :=
  _polar_times_groups s = int_mul (_num_groups s) (_num_polar s).

(** The number of fissionable materials of a list. *)
Fixpoint count_fissionable (materials : list Material) : Z :=
  match materials with
  | [] => 0
  | material :: materials' =>
      (if mat_fissionable material then 1 else 0)
      + count_fissionable materials'
  end.

(** The materials the geometry finds for the regions [r0, r0+1, ...]. *)
Definition region_materials (geometry : Geometry) (r0 : Z) (n : nat)
  : list Material :=
  map (fun r => geo_findFSRMaterial geometry (r0 + Z.of_nat r)) (seq 0 n).


(** The row of azimuthal angle [i] of a table of [num_polar] columns, and
    the rows of the angles [i0, i0+1, ...] one after the other. *)
Definition weight_row (weight : Z -> Z -> FP_PRECISION) (num_polar : nat)
  (i : Z) (p0 : Z) : list FP_PRECISION :=
  map (fun p => weight i (p0 + Z.of_nat p)) (seq 0 num_polar).

Fixpoint weight_rows (weight : Z -> Z -> FP_PRECISION) (num_polar : nat)
  (i0 : Z) (n : nat) : list FP_PRECISION :=
  match n with
  | O => []
  | S n' => weight_row weight num_polar i0 0
            ++ weight_rows weight num_polar (i0 + 1) n'
  end.



(** The engine after a successful [initializeFSRs]. *)
Definition with_FSRs (tg : TrackGenerator) (geometry : Geometry) (s : Solver)
  : Solver :=
  set_FSR_materials
    (Some (region_materials geometry 0 (Z.to_nat (_num_FSRs s))))
    (set_num_fissionable_FSRs 0
       (set_FSR_volumes (Some (tg_FSR_volumes tg)) s)).

(** The lines [initializeFSRs] logs for the regions [r0, r0+1, ...]. *)
Definition FSR_log (geometry : Geometry) (volumes : list FP_PRECISION)
  (r0 : Z) (n : nat) : list event :=
  map (fun k =>
         let r := r0 + Z.of_nat k in
         Logged DEBUG "FSR ID = %d has Material ID = %d and volume = %f "
           [ArgInt r; ArgInt (mat_id (geo_findFSRMaterial geometry r));
            ArgFP (entry (Some volumes) r)])
    (seq 0 n).

(** The engine a constructor call without a track generator yields, on
    storage that held [raw]. *)
Definition constructed (new_ExpEvaluator : ExpEvaluator)
  (new_TYPolarQuad : PolarQuad) (raw : Solver) : Solver :=
  {| _num_materials := 0; _num_groups := 0; _num_azim := 0; _num_FSRs := 0;
     _num_fissionable_FSRs := 0; _FSR_volumes := None; _FSR_materials := None;
     _track_generator := None; _geometry := None; _cmfd := None;
     _exp_evaluator := new_ExpEvaluator; _tracks := None;
     _tot_num_tracks := _tot_num_tracks raw;
     _polar_weights := None; _boundary_flux := None;
     _boundary_leakage := None; _scalar_flux := None;
     _old_scalar_flux := None; _fixed_sources := None;
     _reduced_sources := None; _user_polar_quad := false;
     _polar_quad := new_TYPolarQuad;
     _num_polar := 3; _polar_times_groups := 0; _num_iterations := 0;
     _converge_thresh := (1 # 100000)%Q; _k_eff := _k_eff raw |}.
End Vocabulary.

(** ** A small concrete engine

    Two regions, two groups, five tracks and a contracting sweep
    [phi := phi/2 + 1]: used to run the definitions above on concrete
    inputs. *)

Module Demo.

Definition ext : Externals := {|
  PolarQuad := Z;
  pq_getNumPolarAngles := fun n => n;
  pq_setNumPolarAngles := fun n _ => n;
  pq_initialize := fun n => n;
  pq_getMultiple := fun _ _ => 1%Q;
  ExpTable := FP_PRECISION;
  exp_build_table := fun _ max_tau _ => max_tau;
  Cmfd := bool;
  cmfd_isFluxUpdateOn := fun on => on;
  cmfd_setNumFSRs := fun _ c => c;
  cmfd_setFSRVolumes := fun _ c => c;
  cmfd_setFSRMaterials := fun _ c => c;
  cmfd_setFSRFluxes := fun _ c => c;
  cmfd_setPolarQuadrature := fun _ c => c;
  cmfd_initializeSurfaceCurrents := fun c => c;
  ONE_OVER_FOUR_PI := (795774715 # 10000000000)%Q;
  FOUR_PI := (125663706143 # 10000000000)%Q;
  indeterminate := 0%Q
|}.

#[local] Existing Instance ext.

Definition flux_size (s : Solver) : nat := Z.to_nat (_num_FSRs s * _num_groups s).

Definition residual_of (s : Solver) : FP_PRECISION :=
  match _scalar_flux s, _old_scalar_flux s with
  | Some (x :: _), Some (y :: _) => Qred (Qabs (x - y))
  | _, _ => 0%Q
  end.

Definition backend : Backend := {|
  initializeFluxArrays := fun s =>
    set_boundary_flux (Some (replicate (Z.to_nat (_tot_num_tracks s)) 0%Q))
      (set_old_scalar_flux (Some (replicate (flux_size s) 0%Q))
         (set_scalar_flux (Some (replicate (flux_size s) 0%Q)) s));
  initializeSourceArrays := fun s =>
    set_reduced_sources (Some (replicate (flux_size s) 0%Q))
      (if is_NULL (_fixed_sources s)
       then set_fixed_sources (Some (replicate (flux_size s) 0%Q)) s
       else s);
  flattenFSRFluxes := fun v s =>
    set_scalar_flux (fmap (M := option) (map (fun _ => v)) (_scalar_flux s)) s;
  zeroTrackFluxes := fun s =>
    set_boundary_flux
      (fmap (M := option) (map (fun _ => 0%Q)) (_boundary_flux s)) s;
  storeFSRFluxes := fun s => set_old_scalar_flux (_scalar_flux s) s;
  normalizeFluxes := fun s => s;
  computeFSRSources := fun s => s;
  transportSweep := fun s =>
    set_scalar_flux
      (fmap (M := option) (map (fun x => Qred (x / 2 + 1)%Q)) (_scalar_flux s)) s;
  addSourceToScalarFlux := fun s => s;
  computeResidual := fun _ s => (residual_of s, s);
  computeKeff := fun s => s;
  cmfd_computeKeff := fun _ s => (1%Q, s);
  cmfd_updateBoundaryFlux := fun s => s;
  tg_splitSegments := fun max_tau tg =>
    {| tg_containsTracks := tg_containsTracks tg;
       tg_num_azim := tg_num_azim tg;
       tg_num_tracks_array := tg_num_tracks_array tg;
       tg_num_tracks := tg_num_tracks tg;
       tg_geometry := tg_geometry tg;
       tg_max_optical_length := std_min (tg_max_optical_length tg) max_tau;
       tg_azim_weights := tg_azim_weights tg;
       tg_FSR_volumes := tg_FSR_volumes tg |}
|}.

#[local] Existing Instance backend.

Definition fuel : Material :=
  {| mat_id := 1;
     mat_nu_sigma_f := fun _ => (1 # 2)%Q;
     mat_chi := fun _ => 1%Q;
     mat_sigma_s := fun _ _ => (1 # 4)%Q;
     mat_fissionable := true |}.

Definition geometry : Geometry :=
  {| geo_num_FSRs := 2;
     geo_num_groups := 2;
     geo_num_materials := 1;
     geo_cmfd := None;
     geo_findFSRMaterial := fun _ => fuel |}.

(** Four azimuthal angles, hence two stored rows of tracks: 2 + 3. *)
Definition track_generator : TrackGenerator :=
  {| tg_containsTracks := true;
     tg_num_azim := 4;
     tg_num_tracks_array := [2; 3];
     tg_num_tracks := 5;
     tg_geometry := geometry;
     tg_max_optical_length := 7%Q;
     tg_azim_weights := fun _ => (1 # 2)%Q;
     tg_FSR_volumes := [1%Q; 3%Q] |}.

Definition no_tracks : TrackGenerator :=
  {| tg_containsTracks := false;
     tg_num_azim := 4;
     tg_num_tracks_array := [];
     tg_num_tracks := 0;
     tg_geometry := geometry;
     tg_max_optical_length := 0%Q;
     tg_azim_weights := fun _ => 0%Q;
     tg_FSR_volumes := [] |}.

Definition evaluator : ExpEvaluator :=
  {| exp_interpolate := true;
     exp_max_optical_length := 10%Q;
     exp_precision := (1 # 100000)%Q;
     exp_polar_quad := None;
     exp_table := None |}.

(** The engine as its constructor leaves it (the fields the constructor does
    not write are given a value here). *)
Definition fresh : Solver :=
  {| _num_materials := 0; _num_groups := 0; _num_azim := 0; _num_FSRs := 0;
     _num_fissionable_FSRs := 0; _FSR_volumes := None; _FSR_materials := None;
     _track_generator := None; _geometry := None; _cmfd := None;
     _exp_evaluator := evaluator; _tracks := None; _tot_num_tracks := 0;
     _polar_weights := None; _boundary_flux := None;
     _boundary_leakage := None; _scalar_flux := None;
     _old_scalar_flux := None; _fixed_sources := None;
     _reduced_sources := None; _user_polar_quad := false; _polar_quad := 3;
     _num_polar := 3; _polar_times_groups := 0; _num_iterations := 0;
     _converge_thresh := (1 # 100000)%Q; _k_eff := 0%Q |}.

Definition fresh_world : World := mkWorld fresh [].

(** The engine after [setTrackGenerator(track_generator)]. *)
Definition attached_world : World :=
  Eval vm_compute in snd (setTrackGenerator track_generator fresh_world).

Definition attached : Solver := Eval vm_compute in solver attached_world.

(** A loose threshold: every residual of the demo sweep is below it. *)
Definition loose_world : World :=
  Eval vm_compute in mkWorld (set_converge_thresh 10%Q attached) [].

(** The engine after a fixed-source solve. *)
Definition solved_world : World :=
  Eval vm_compute in snd (computeSource 6 1%Q FISSION_SOURCE loose_world).

Definition solved : Solver := Eval vm_compute in solver solved_world.

(** The evaluator switched to the intrinsic exponential. *)
Definition intrinsic_world : World :=
  Eval vm_compute in
  mkWorld
    (set_exp_evaluator
       {| exp_interpolate := false;
          exp_max_optical_length := 10%Q;
          exp_precision := (1 # 100000)%Q;
          exp_polar_quad := None;
          exp_table := None |} attached) [].

End Demo.

(** ** Variants of the concrete engine

    A geometry of three regions of which only the first is fissionable, a
    generator over it, a geometry without regions, and the storage of an
    engine before its constructor has run. *)

Module DemoVariants.
Import Demo.
#[local] Existing Instance ext.
#[local] Existing Instance backend.

Definition moderator : Material :=
  {| mat_id := 2;
     mat_nu_sigma_f := fun _ => 0%Q;
     mat_chi := fun _ => 0%Q;
     mat_sigma_s := fun _ _ => (1 # 3)%Q;
     mat_fissionable := false |}.

Definition mixed_geometry : Geometry :=
  {| geo_num_FSRs := 3;
     geo_num_groups := 2;
     geo_num_materials := 2;
     geo_cmfd := None;
     geo_findFSRMaterial := fun r => if r =? 0 then fuel else moderator |}.

(** Two azimuthal angles, hence one stored row of four tracks. *)
Definition mixed_generator : TrackGenerator :=
  {| tg_containsTracks := true;
     tg_num_azim := 2;
     tg_num_tracks_array := [4];
     tg_num_tracks := 4;
     tg_geometry := mixed_geometry;
     tg_max_optical_length := 5%Q;
     tg_azim_weights := fun i => if i =? 0 then (1 # 4)%Q else (3 # 4)%Q;
     tg_FSR_volumes := [2%Q; 5%Q; 7%Q] |}.

Definition empty_geometry : Geometry :=
  {| geo_num_FSRs := 0;
     geo_num_groups := 2;
     geo_num_materials := 1;
     geo_cmfd := None;
     geo_findFSRMaterial := fun _ => fuel |}.

(** A generator that has tracks over a geometry without regions. *)
Definition early_generator : TrackGenerator :=
  {| tg_containsTracks := true;
     tg_num_azim := 4;
     tg_num_tracks_array := [2; 3];
     tg_num_tracks := 5;
     tg_geometry := empty_geometry;
     tg_max_optical_length := 7%Q;
     tg_azim_weights := fun _ => (1 # 2)%Q;
     tg_FSR_volumes := [] |}.

(** The storage of an engine before its constructor has run. *)
Definition raw : Solver :=
  {| _num_materials := 41; _num_groups := 42; _num_azim := 43;
     _num_FSRs := 44; _num_fissionable_FSRs := 45;
     _FSR_volumes := Some [46%Q]; _FSR_materials := Some [moderator];
     _track_generator := Some no_tracks; _geometry := Some empty_geometry;
     _cmfd := Some true; _exp_evaluator := evaluator;
     _tracks := Some [(47, 48)]; _tot_num_tracks := 49;
     _polar_weights := Some [50%Q]; _boundary_flux := Some [51%Q];
     _boundary_leakage := Some [52%Q]; _scalar_flux := Some [53%Q];
     _old_scalar_flux := Some [54%Q]; _fixed_sources := Some [55%Q];
     _reduced_sources := Some [56%Q]; _user_polar_quad := true;
     _polar_quad := 57; _num_polar := 58; _polar_times_groups := 59;
     _num_iterations := 60; _converge_thresh := 61%Q; _k_eff := 62%Q |}.

Definition raw_world : World := mkWorld raw [].

(** The engine after [setTrackGenerator(mixed_generator)]. *)
Definition mixed_world : World :=
  Eval vm_compute in snd (setTrackGenerator mixed_generator fresh_world).

(** The engine after [initializeFSRs] on it. *)
Definition mixed_regions_world : World :=
  Eval vm_compute in snd (initializeFSRs mixed_world).

(** The bound engine with a CMFD object whose flux update is on. *)
Definition accelerated_world : World :=
  Eval vm_compute in mkWorld (set_cmfd (Some true) attached) [].

End DemoVariants.

(** * Properties *)

(** Case analysis on the integer comparisons of a goal. *)
Ltac zcases :=
  rewrite ?Z.geb_leb, ?Z.gtb_ltb in *;
  repeat match goal with
         | |- context [?a <? ?b] => destruct (Z.ltb_spec a b)
         | |- context [?a <=? ?b] => destruct (Z.leb_spec a b)
         | |- context [?a =? ?b] => destruct (Z.eqb_spec a b)
         end;
  simpl; try lia; try reflexivity.

Lemma array_read_no_raise {A} (arr : option (list A)) i :
  no_raise (array_read arr i).
Proof.
  unfold array_read. destruct arr as [l|]; simpl; [|exact I].
  destruct (i <? 0); simpl; [exact I|]. destruct (l !! Z.to_nat i); exact I.
Qed.

Lemma obind_no_raise {A C} (o : outcome A) (f : A -> outcome C) :
  no_raise o -> (forall a, no_raise (f a)) -> no_raise (obind f o).
Proof. destruct o; simpl; auto. Qed.

Lemma for_acc_no_raise {A} (body : Z -> A -> outcome A) :
  (forall i acc, no_raise (body i acc)) ->
  forall n i acc, no_raise (for_acc n i body acc).
Proof.
  intros Hb n. induction n as [|n IH]; intros i acc; simpl; [exact I|].
  apply obind_no_raise; auto.
Qed.

Lemma no_raise_not_range {A} (o : outcome A) :
  no_raise o -> is_range_error o = false.
Proof. destruct o; simpl; auto. contradiction. Qed.

Lemma no_raise_not_ready {A} (o : outcome A) :
  no_raise o -> is_not_ready o = false.
Proof. destruct o; simpl; auto. contradiction. Qed.

Section Properties.
Context `{Ext : Externals} {B : Backend}.

(** The part of [getFSRSource] after its guards never raises. *)
Lemma fission_step_no_raise s material fsr_id e acc :
  no_raise (fission_step s material fsr_id e acc).
Proof.
  unfold fission_step. apply obind_no_raise; [apply array_read_no_raise|].
  intros; exact I.
Qed.

Lemma scatter_step_no_raise s material fsr_id group g acc :
  no_raise (scatter_step s material fsr_id group g acc).
Proof.
  unfold scatter_step. apply obind_no_raise; [apply array_read_no_raise|].
  intros; exact I.
Qed.

Lemma getFSRScalarFlux_range s fsr_id group :
  is_range_error (getFSRScalarFlux s fsr_id group) = out_of_range s fsr_id group.
Proof.
  unfold getFSRScalarFlux, out_of_range. zcases.
  destruct (is_NULL (_scalar_flux s)); [reflexivity|].
  apply no_raise_not_range, array_read_no_raise.
Qed.

Lemma getFSRSource_tail_no_raise s fsr_id group :
  no_raise
    (material ← array_read (_FSR_materials s) fsr_id;
     source ← (if mat_fissionable material then
                 fis ← for_acc (Z.to_nat (_num_groups s)) 0
                         (fission_step s material fsr_id) 0%Q;
                 fp_div fis (_k_eff s * mat_chi material (group - 1))%Q
               else Return 0%Q);
     source ← for_acc (Z.to_nat (_num_groups s)) 0
                (scatter_step s material fsr_id group) source;
     fixed ← array_read (_fixed_sources s)
               (idx2 (_num_groups s) fsr_id (group - 1));
     Return ((source + fixed) * ONE_OVER_FOUR_PI)%Q).
Proof.
  apply obind_no_raise; [apply array_read_no_raise|]. intros material.
  apply obind_no_raise.
  - destruct (mat_fissionable material); [|exact I].
    apply obind_no_raise.
    + apply for_acc_no_raise. intros. apply fission_step_no_raise.
    + intros fis. unfold fp_div. destruct (Qeq_bool _ _); exact I.
  - intros src. apply obind_no_raise.
    + apply for_acc_no_raise. intros. apply scatter_step_no_raise.
    + intros src'. apply obind_no_raise; [apply array_read_no_raise|].
      intros; exact I.
Qed.

Lemma getFSRSource_range s fsr_id group :
  is_range_error (getFSRSource s fsr_id group) = out_of_range s fsr_id group.
Proof.
  unfold getFSRSource, out_of_range. zcases.
  destruct (is_NULL (_scalar_flux s)); [reflexivity|].
  apply no_raise_not_range, getFSRSource_tail_no_raise.
Qed.

Lemma getFSRScalarFlux_not_ready s fsr_id group :
  is_not_ready (getFSRScalarFlux s fsr_id group)
  = negb (out_of_range s fsr_id group) && is_NULL (_scalar_flux s).
Proof.
  unfold getFSRScalarFlux, out_of_range. zcases.
  destruct (is_NULL (_scalar_flux s)); [reflexivity|].
  apply no_raise_not_ready, array_read_no_raise.
Qed.

Lemma getFSRSource_not_ready s fsr_id group :
  is_not_ready (getFSRSource s fsr_id group)
  = negb (out_of_range s fsr_id group) && is_NULL (_scalar_flux s).
Proof.
  unfold getFSRSource, out_of_range. zcases.
  destruct (is_NULL (_scalar_flux s)); [reflexivity|].
  apply no_raise_not_ready, getFSRSource_tail_no_raise.
Qed.

(** Unfolds the monad of the engine in the goal. *)
Ltac run :=
  unfold deref, log_error, log_printf;
  unfold mbind, M_bind, mret, M_ret, bind, ret, get, modify, modify_with,
    emit, lift, raise; simpl.

Lemma setFixedSourceByFSR_outcome fsr_id group source w :
  setFixedSourceByFSR fsr_id group source w
  = ((if (group <=? 0) || (group >? _num_groups (solver w)) then
        Raise (mkError OutOfRange
          "Unable to set fixed source for group %d in in a %d energy group problem")
      else if (fsr_id <? 0) || (fsr_id >=? _num_FSRs (solver w)) then
        Raise (mkError OutOfRange
          "Unable to set fixed source for FSR %d with only %d FSRs in the geometry")
      else Return tt), w).
Proof.
  unfold setFixedSourceByFSR. run.
  destruct ((group <=? 0) || (group >? _num_groups (solver w))); simpl;
    [reflexivity|].
  destruct ((fsr_id <? 0) || (fsr_id >=? _num_FSRs (solver w))); reflexivity.
Qed.

(** The four boundary indices just outside the valid rectangle. *)
Lemma boundary_indices_out_of_range s fsr_id group :
  0 <= _num_FSRs s -> 0 <= _num_groups s ->
  out_of_range s fsr_id 0 = true /\
  out_of_range s fsr_id (_num_groups s + 1) = true /\
  out_of_range s (-1) group = true /\
  out_of_range s (_num_FSRs s) group = true.
Proof. intros HN HG. unfold out_of_range. repeat split; zcases. Qed.

Lemma valid_indices_in_range s fsr_id group :
  0 <= fsr_id < _num_FSRs s -> 1 <= group <= _num_groups s ->
  out_of_range s fsr_id group = false.
Proof. intros Hr Hg. unfold out_of_range. zcases. Qed.

(** C4. For [getFSRScalarFlux], [getFSRSource] and [setFixedSourceByFSR], the
    range error is raised exactly when [fsr_id < 0], [fsr_id >= numFSRs],
    [group <= 0] or [group > numGroups]: never for a pair inside
    [[0,numFSRs) x [1,numGroups]], where [setFixedSourceByFSR] returns
    normally. The two queries raise the not-ready error for a pair inside the
    rectangle exactly when the scalar flux array does not exist; so with no
    scalar flux they fail for every pair. *)
Theorem pair_index_range_errors (w : World) (fsr_id group : Z)
  (source : FP_PRECISION) :
  let s := solver w in
  is_range_error (getFSRScalarFlux s fsr_id group) = out_of_range s fsr_id group /\
  is_range_error (getFSRSource s fsr_id group) = out_of_range s fsr_id group /\
  is_range_error (fst (setFixedSourceByFSR fsr_id group source w))
    = out_of_range s fsr_id group /\
  (out_of_range s fsr_id group = false ->
   setFixedSourceByFSR fsr_id group source w = (Return tt, w)) /\
  is_not_ready (getFSRScalarFlux s fsr_id group)
    = negb (out_of_range s fsr_id group) && is_NULL (_scalar_flux s) /\
  is_not_ready (getFSRSource s fsr_id group)
    = negb (out_of_range s fsr_id group) && is_NULL (_scalar_flux s) /\
  (_scalar_flux s = None ->
   (exists e, getFSRScalarFlux s fsr_id group = Raise e) /\
   (exists e, getFSRSource s fsr_id group = Raise e)).
Proof.
  intros s. split; [apply getFSRScalarFlux_range|].
  split; [apply getFSRSource_range|].
  split.
  { rewrite setFixedSourceByFSR_outcome. unfold out_of_range. fold s. zcases. }
  split.
  { rewrite setFixedSourceByFSR_outcome. unfold out_of_range. fold s.
    intros Hin. revert Hin. zcases; discriminate. }
  split; [apply getFSRScalarFlux_not_ready|].
  split; [apply getFSRSource_not_ready|].
  intros Hnull.
  pose proof (getFSRScalarFlux_range s fsr_id group) as H1.
  pose proof (getFSRScalarFlux_not_ready s fsr_id group) as H2.
  pose proof (getFSRSource_range s fsr_id group) as H3.
  pose proof (getFSRSource_not_ready s fsr_id group) as H4.
  rewrite Hnull in H2, H4. simpl in H2, H4.
  destruct (out_of_range s fsr_id group); simpl in *.
  - split.
    + destruct (getFSRScalarFlux s fsr_id group); try discriminate; eauto.
    + destruct (getFSRSource s fsr_id group); try discriminate; eauto.
  - split.
    + destruct (getFSRScalarFlux s fsr_id group); try discriminate; eauto.
    + destruct (getFSRSource s fsr_id group); try discriminate; eauto.
Qed.

(** C8. [getFSRVolume] raises its range error exactly when [fsr_id < 0] or
    [fsr_id > numFSRs], and the not-ready error when the index passes that
    guard and the volume array does not exist. The index [numFSRs] passes
    the guard and is read from the array (one element past the end of an
    array of [numFSRs] volumes), whereas [getFSRScalarFlux] and
    [getFSRSource] reject [numFSRs]. *)
Theorem getFSRVolume_guard_off_by_one (s : Solver) (fsr_id group : Z) :
  let beyond := (fsr_id <? 0) || (fsr_id >? _num_FSRs s) in
  is_range_error (getFSRVolume s fsr_id) = beyond /\
  is_not_ready (getFSRVolume s fsr_id) = negb beyond && is_NULL (_FSR_volumes s) /\
  (0 <= _num_FSRs s -> _FSR_volumes s <> None ->
   getFSRVolume s (_num_FSRs s) = array_read (_FSR_volumes s) (_num_FSRs s)) /\
  (forall volumes, 0 <= _num_FSRs s -> _FSR_volumes s = Some volumes ->
   length volumes = Z.to_nat (_num_FSRs s) ->
   getFSRVolume s (_num_FSRs s) = Undefined) /\
  is_range_error (getFSRScalarFlux s (_num_FSRs s) group) = true /\
  is_range_error (getFSRSource s (_num_FSRs s) group) = true.
Proof.
  intros beyond. subst beyond.
  assert (Hboundary : 0 <= _num_FSRs s -> _FSR_volumes s <> None ->
    getFSRVolume s (_num_FSRs s) = array_read (_FSR_volumes s) (_num_FSRs s)).
  { intros HN Hv. unfold getFSRVolume. zcases.
    destruct (_FSR_volumes s); [reflexivity|congruence]. }
  split; [|split; [|split; [exact Hboundary|split; [|split]]]].
  - unfold getFSRVolume. zcases.
    destruct (is_NULL (_FSR_volumes s)); [reflexivity|].
    apply no_raise_not_range, array_read_no_raise.
  - unfold getFSRVolume. zcases.
    destruct (is_NULL (_FSR_volumes s)); [reflexivity|].
    apply no_raise_not_ready, array_read_no_raise.
  - intros volumes HN Hv Hlen. rewrite Hboundary by congruence.
    rewrite Hv. unfold array_read. zcases.
    rewrite lookup_ge_None_2; [reflexivity|lia].
  - rewrite getFSRScalarFlux_range. unfold out_of_range. zcases.
  - rewrite getFSRSource_range. unfold out_of_range. zcases.
Qed.

(** *** The value of [getFSRSource] *)

Lemma array_read_in_bounds {A} (l : list A) (i : Z) :
  0 <= i < Z.of_nat (length l) ->
  exists x, array_read (Some l) i = Return x.
Proof.
  intros Hi. unfold array_read. zcases.
  destruct (lookup_lt_is_Some_2 l (Z.to_nat i)) as [x Hx]; [lia|].
  exists x. now rewrite Hx.
Qed.

Lemma entry_of_read arr i x : array_read arr i = Return x -> entry arr i = x.
Proof. unfold entry. now intros ->. Qed.

Lemma idx2_in_bounds stride rows r e :
  0 <= r < rows -> 0 <= e < stride -> 0 <= idx2 stride r e < rows * stride.
Proof. unfold idx2. nia. Qed.

Lemma sum_groups_ext n : forall e0 f g,
  (forall e, (f e == g e)%Q) ->
  (sum_groups n e0 f == sum_groups n e0 g)%Q.
Proof.
  induction n as [|n IH]; intros e0 f g Hfg; simpl; [reflexivity|].
  rewrite (Hfg e0), (IH (e0 + 1) f g Hfg). reflexivity.
Qed.

(** A loop that adds [term e arr[ix e]] to the accumulator computes the sum of
    these terms, provided that every read is inside the array. *)
Lemma for_acc_accumulates (arr : option (list FP_PRECISION)) (ix : Z -> Z)
  (term : Z -> FP_PRECISION -> FP_PRECISION)
  (step : Z -> FP_PRECISION -> outcome FP_PRECISION) :
  (forall e acc, step e acc
                 = (phi ← array_read arr (ix e); Return (acc + term e phi)%Q)) ->
  forall n e0 acc,
    (forall e, e0 <= e < e0 + Z.of_nat n ->
               exists x, array_read arr (ix e) = Return x) ->
    exists v, for_acc n e0 step acc = Return v /\
              (v == acc + sum_groups n e0 (fun e => term e (entry arr (ix e))))%Q.
Proof.
  intros Hstep n. induction n as [|n IH]; intros e0 acc Hread.
  - exists acc. split; [reflexivity|]. simpl. ring.
  - destruct (Hread e0) as [x Hx]; [lia|].
    destruct (IH (e0 + 1) (acc + term e0 x)%Q) as [v [Hv Heq]].
    { intros e He. apply Hread. lia. }
    exists v. split.
    + simpl. rewrite Hstep, Hx. simpl. exact Hv.
    + rewrite Heq. simpl. rewrite (entry_of_read _ _ _ Hx). ring.
Qed.

(** The division of the fission term yields a number. *)
Lemma fp_div_number a b : ~ (b == 0)%Q -> fp_div a b = Return (a / b)%Q.
Proof.
  intros Hb. unfold fp_div. destruct (Qeq_bool b 0) eqn:E; [|reflexivity].
  apply Qeq_bool_iff in E. contradiction.
Qed.

Lemma fp_div_by_zero a b : (b == 0)%Q -> fp_div a b = NonFinite.
Proof.
  intros Hb. unfold fp_div. apply Qeq_bool_iff in Hb. now rewrite Hb.
Qed.

(** For valid indices and allocated arrays, [getFSRSource] returns
    [(source + fixed) * ONE_OVER_FOUR_PI], where [fixed] is the entry
    [_fixed_sources(fsr_id,group-1)] and [source] is what the fission and
    scatter loops accumulate, provided that the divisor of the fission term
    is not zero. *)
Lemma getFSRSource_returns s fsr_id group :
  arrays_ready s ->
  0 <= fsr_id < _num_FSRs s -> 1 <= group <= _num_groups s ->
  fission_divisor_nonzero s fsr_id group ->
  exists material source fixed,
    array_read (_FSR_materials s) fsr_id = Return material /\
    array_read (_fixed_sources s) (idx2 (_num_groups s) fsr_id (group - 1))
      = Return fixed /\
    getFSRSource s fsr_id group
      = Return ((source + fixed) * ONE_OVER_FOUR_PI)%Q /\
    (source ==
     (if mat_fissionable material then
        sum_groups (Z.to_nat (_num_groups s)) 0
          (fun e => entry (_scalar_flux s) (idx2 (_num_groups s) fsr_id e)
                    * mat_nu_sigma_f material e)
        / (_k_eff s * mat_chi material (group - 1))
      else 0)
     + sum_groups (Z.to_nat (_num_groups s)) 0
         (fun g => mat_sigma_s material g (group - 1)
                   * entry (_scalar_flux s) (idx2 (_num_groups s) fsr_id g)))%Q.
Proof.
  intros [(HN & HG & (flux & Hflux & Hfl) & (mats & Hmats & Hml))
            (fixed & Hfixed & Hxl)] Hr Hg Hdiv.
  destruct (array_read_in_bounds mats fsr_id) as [material Hm]; [lia|].
  assert (Hphi : forall e, 0 <= e < 0 + Z.of_nat (Z.to_nat (_num_groups s)) ->
            exists x, array_read (_scalar_flux s)
                        (idx2 (_num_groups s) fsr_id e) = Return x).
  { intros e He. rewrite Hflux. apply array_read_in_bounds.
    pose proof (idx2_in_bounds (_num_groups s) (_num_FSRs s) fsr_id e).
    rewrite Hfl. lia. }
  destruct (array_read_in_bounds fixed (idx2 (_num_groups s) fsr_id (group - 1)))
    as [fx Hfx].
  { pose proof (idx2_in_bounds (_num_groups s) (_num_FSRs s) fsr_id (group - 1)).
    rewrite Hxl. lia. }
  rewrite <- Hfixed in Hfx. rewrite <- Hmats in Hm.
  specialize (Hdiv material Hm).
  destruct (for_acc_accumulates (_scalar_flux s) (idx2 (_num_groups s) fsr_id)
              (fun e phi => phi * mat_nu_sigma_f material e)%Q
              (fission_step s material fsr_id) (fun _ _ => eq_refl)
              (Z.to_nat (_num_groups s)) 0 0%Q Hphi) as [fis [Hfis Efis]].
  set (src0 := if mat_fissionable material
               then (fis / (_k_eff s * mat_chi material (group - 1)))%Q
               else 0%Q).
  destruct (for_acc_accumulates (_scalar_flux s) (idx2 (_num_groups s) fsr_id)
              (fun g phi => mat_sigma_s material g (group - 1) * phi)%Q
              (scatter_step s material fsr_id group) (fun _ _ => eq_refl)
              (Z.to_nat (_num_groups s)) 0 src0 Hphi) as [src [Hsrc Esrc]].
  exists material, src, fx.
  split; [exact Hm|]. split; [exact Hfx|]. split.
  - unfold getFSRSource. zcases. rewrite Hflux at 1. cbn [is_NULL].
    rewrite Hm. cbn [mbind outcome_bind obind].
    unfold src0 in Hsrc.
    destruct (mat_fissionable material).
    + rewrite Hfis. cbn [mbind outcome_bind obind].
      rewrite (fp_div_number _ _ (Hdiv eq_refl)).
      cbn [mbind outcome_bind obind]. rewrite Hsrc.
      cbn [mbind outcome_bind obind]. rewrite Hfx. reflexivity.
    + cbn [mbind outcome_bind obind]. rewrite Hsrc.
      cbn [mbind outcome_bind obind]. rewrite Hfx. reflexivity.
  - rewrite Esrc. unfold src0. destruct (mat_fissionable material).
    + rewrite Efis, Qplus_0_l. reflexivity.
    + reflexivity.
Qed.

(** When the divisor [_k_eff * chi[group-1]] of the fission term is zero, the
    query yields no number: the code divides by zero. *)
Remark getFSRSource_zero_divisor s fsr_id group material :
  flux_ready s ->
  0 <= fsr_id < _num_FSRs s -> 1 <= group <= _num_groups s ->
  array_read (_FSR_materials s) fsr_id = Return material ->
  mat_fissionable material = true ->
  (_k_eff s * mat_chi material (group - 1) == 0)%Q ->
  getFSRSource s fsr_id group = NonFinite.
Proof.
  intros (HN & HG & (flux & Hflux & Hfl) & _) Hr Hg Hm Hf Hzero.
  assert (Hphi : forall e, 0 <= e < 0 + Z.of_nat (Z.to_nat (_num_groups s)) ->
            exists x, array_read (_scalar_flux s)
                        (idx2 (_num_groups s) fsr_id e) = Return x).
  { intros e He. rewrite Hflux. apply array_read_in_bounds.
    pose proof (idx2_in_bounds (_num_groups s) (_num_FSRs s) fsr_id e).
    rewrite Hfl. lia. }
  destruct (for_acc_accumulates (_scalar_flux s) (idx2 (_num_groups s) fsr_id)
              (fun e phi => phi * mat_nu_sigma_f material e)%Q
              (fission_step s material fsr_id) (fun _ _ => eq_refl)
              (Z.to_nat (_num_groups s)) 0 0%Q Hphi) as [fis [Hfis _]].
  unfold getFSRSource. zcases. rewrite Hflux at 1. cbn [is_NULL].
  rewrite Hm. cbn [mbind outcome_bind obind]. rewrite Hf, Hfis.
  cbn [mbind outcome_bind obind]. rewrite (fp_div_by_zero _ _ Hzero).
  reflexivity.
Qed.

(** C2. For [fsr_id] in [[0,numFSRs)] and [group] in [[1,numGroups]], once the
    scalar flux has been computed, [getFSRSource(fsr_id, group)] returns the
    value of the specification's formula: the fission sum divided by
    [kEff * chi[group]] (zero for a non-fissionable material), plus the
    in-scatter sum, plus the fixed source, times [1/(4 pi)]. The division is
    one of numbers: for a fissionable material [kEff * chi[group]] is not
    zero. *)
Theorem getFSRSource_formula (s : Solver) (fsr_id group : Z) :
  arrays_ready s ->
  0 <= fsr_id < _num_FSRs s -> 1 <= group <= _num_groups s ->
  fission_divisor_nonzero s fsr_id group ->
  exists material v,
    array_read (_FSR_materials s) fsr_id = Return material /\
    getFSRSource s fsr_id group = Return v /\
    (v == spec_FSRSource s material fsr_id group)%Q.
Proof.
  intros Hready Hr Hg Hdiv.
  destruct (getFSRSource_returns s fsr_id group Hready Hr Hg Hdiv)
    as (material & source & fixed & Hm & Hfx & Hrun & Hsource).
  exists material, ((source + fixed) * ONE_OVER_FOUR_PI)%Q.
  split; [exact Hm|]. split; [exact Hrun|].
  unfold spec_FSRSource, spec_FSRSource_with.
  rewrite (entry_of_read _ _ _ Hfx), Hsource.
  rewrite (sum_groups_ext _ 0
             (fun e => mat_sigma_s material e (group - 1)
                       * entry (_scalar_flux s) (idx2 (_num_groups s) fsr_id e))%Q
             (fun e => entry (_scalar_flux s) (idx2 (_num_groups s) fsr_id e)
                       * mat_sigma_s material e (group - 1))%Q)
    by (intros; ring).
  reflexivity.
Qed.

(** *** Storing a fixed source *)

Lemma array_write_read {A} (l : list A) (i : Z) (v : A) :
  0 <= i < Z.of_nat (length l) ->
  exists l', array_write (Some l) i v = Return (Some l') /\
             length l' = length l /\
             array_read (Some l') i = Return v.
Proof.
  intros Hi. exists (<[Z.to_nat i := v]> l). unfold array_write, array_read.
  rewrite length_insert. split; [|split; [reflexivity|]].
  - zcases.
  - zcases. rewrite list_lookup_insert_eq by lia. reflexivity.
Qed.

Lemma idx2_injective stride r e r' e' :
  0 <= e < stride -> 0 <= e' < stride ->
  idx2 stride r e = idx2 stride r' e' -> r = r' /\ e = e'.
Proof.
  unfold idx2. intros He He' H.
  assert (Hr : r = r').
  { destruct (Z.lt_trichotomy r r') as [L|[E|L]]; [|exact E|]; exfalso.
    - assert (0 <= (r' - r - 1) * stride) by (apply Z.mul_nonneg_nonneg; lia).
      lia.
    - assert (0 <= (r - r' - 1) * stride) by (apply Z.mul_nonneg_nonneg; lia).
      lia. }
  subst r'. split; [reflexivity|lia].
Qed.

(** The run of the storing override on valid indices. *)
Lemma Subclass_setFixedSourceByFSR_run (w : World) (fsr_id group : Z)
  (source : FP_PRECISION) :
  0 <= fsr_id < _num_FSRs (solver w) ->
  1 <= group <= _num_groups (solver w) ->
  _fixed_sources (solver w) = None \/ fixed_sources_sized (solver w) ->
  length (fixed_sources_before (solver w))
  = Z.to_nat (_num_FSRs (solver w) * _num_groups (solver w)) /\
  Subclass_setFixedSourceByFSR fsr_id group source w
  = (Return tt,
     mkWorld (with_fixed_source fsr_id group source (solver w)) (trace w)).
Proof.
  intros Hr Hg Hfixed.
  pose proof (idx2_in_bounds (_num_groups (solver w)) (_num_FSRs (solver w))
                fsr_id (group - 1)) as Hidx.
  unfold with_fixed_source, fixed_sources_before.
  unfold Subclass_setFixedSourceByFSR, mbind, M_bind, bind.
  rewrite setFixedSourceByFSR_outcome.
  replace ((group <=? 0) || (group >? _num_groups (solver w))) with false
    by zcases.
  replace ((fsr_id <? 0) || (fsr_id >=? _num_FSRs (solver w))) with false
    by zcases.
  cbn [get solver].
  destruct Hfixed as [Hnull | (fixed & Hsome & Hlen)].
  - rewrite Hnull. cbn [is_NULL get lift solver trace].
    unfold new_array.
    replace (_num_FSRs (solver w) * _num_groups (solver w) <? 0) with false
      by zcases.
    split; [apply length_replicate|].
    cbn [modify solver trace set_fixed_sources _fixed_sources _num_groups lift].
    unfold array_write.
    match goal with
    | |- context [if ?c then Undefined else _] =>
        replace c with false by (rewrite length_replicate; zcases)
    end.
    reflexivity.
  - rewrite Hsome. cbn [is_NULL ret get lift solver trace]. rewrite Hsome.
    split; [exact Hlen|]. unfold array_write.
    match goal with
    | |- context [if ?c then Undefined else _] =>
        replace c with false by zcases
    end.
    reflexivity.
Qed.

(** C10. For [fsr_id] in [[0,numFSRs)] and [group] in [[1,numGroups]],
    [setFixedSourceByFSR(fsr_id, group, source)], as the subclasses override
    it, validates the indices and stores [source] as the fixed source of that
    region and group: the entry read afterwards for [(fsr_id, group)] is
    [source], the entries of the other regions and groups are the ones the
    engine had (zero when it had no fixed sources yet), and the fixed-source
    term that [getFSRSource] adds for [(fsr_id, group)] is [source]. For
    indices outside the rectangle the range error is raised and nothing is
    stored. *)
Theorem setFixedSourceByFSR_stores (w : World) (fsr_id group : Z)
  (source : FP_PRECISION) :
  let s := solver w in
  let s' := with_fixed_source fsr_id group source s in
  (out_of_range s fsr_id group = true ->
   exists e, Subclass_setFixedSourceByFSR fsr_id group source w = (Raise e, w) /\
             err_kind e = OutOfRange) /\
  (0 <= fsr_id < _num_FSRs s -> 1 <= group <= _num_groups s ->
   _fixed_sources s = None \/ fixed_sources_sized s ->
   Subclass_setFixedSourceByFSR fsr_id group source w
   = (Return tt, mkWorld s' (trace w)) /\
   array_read (_fixed_sources s') (idx2 (_num_groups s') fsr_id (group - 1))
   = Return source /\
   (forall r g,
      0 <= r < _num_FSRs s -> 1 <= g <= _num_groups s ->
      r <> fsr_id \/ g <> group ->
      array_read (_fixed_sources s') (idx2 (_num_groups s') r (g - 1))
      = array_read (Some (fixed_sources_before s))
          (idx2 (_num_groups s) r (g - 1))) /\
   (flux_ready s -> fission_divisor_nonzero s fsr_id group ->
    exists accumulated,
      getFSRSource s' fsr_id group
      = Return ((accumulated + source) * ONE_OVER_FOUR_PI)%Q)).
Proof.
  intros s s'. split.
  - intros Hout. unfold Subclass_setFixedSourceByFSR, mbind, M_bind, bind.
    rewrite setFixedSourceByFSR_outcome. fold s.
    unfold out_of_range in Hout.
    destruct ((group <=? 0) || (group >? _num_groups s)) eqn:Eg.
    + eexists. split; reflexivity.
    + destruct ((fsr_id <? 0) || (fsr_id >=? _num_FSRs s)) eqn:Er.
      * eexists. split; reflexivity.
      * exfalso. apply orb_false_iff in Eg as [Eg1 Eg2].
        apply orb_false_iff in Er as [Er1 Er2].
        rewrite Eg1, Eg2 in Hout. discriminate.
  - intros Hr Hg Hfixed.
    destruct (Subclass_setFixedSourceByFSR_run w fsr_id group source Hr Hg Hfixed)
      as (Hlen & Hrun).
    fold s in Hlen. fold s s' in Hrun.
    pose proof (idx2_in_bounds (_num_groups s) (_num_FSRs s) fsr_id (group - 1))
      as Hidx.
    assert (Hstored : array_read (_fixed_sources s')
                        (idx2 (_num_groups s') fsr_id (group - 1))
                      = Return source).
    { unfold s', with_fixed_source.
      cbn [_fixed_sources _num_groups set_fixed_sources]. unfold array_read.
      replace (idx2 (_num_groups s) fsr_id (group - 1) <? 0) with false by zcases.
      rewrite list_lookup_insert_eq by (rewrite Hlen; lia). reflexivity. }
    split; [exact Hrun|]. split; [exact Hstored|]. split.
    + intros r g Hr' Hg' Hother. unfold s', with_fixed_source.
      cbn [_fixed_sources _num_groups set_fixed_sources]. unfold array_read.
      pose proof (idx2_in_bounds (_num_groups s) (_num_FSRs s) r (g - 1)).
      replace (idx2 (_num_groups s) r (g - 1) <? 0) with false by zcases.
      rewrite list_lookup_insert_ne; [reflexivity|].
      intros Heq.
      destruct (idx2_injective (_num_groups s) fsr_id (group - 1) r (g - 1))
        as [E1 E2]; [lia|lia|lia|]. lia.
    + intros Hflux Hdiv.
      assert (Hready : arrays_ready s').
      { split.
        - exact Hflux.
        - eexists. split; [reflexivity|].
          rewrite length_insert. exact Hlen. }
      destruct (getFSRSource_returns s' fsr_id group Hready Hr Hg Hdiv)
        as (material & accumulated & fixed & _ & Hfx & Hsrc & _).
      exists accumulated. rewrite Hstored in Hfx. injection Hfx as <-.
      exact Hsrc.
Qed.

(** *** [computeSource] and a non-positive k-effective *)

Lemma fp_le_true a b : fp_le a b = true <-> (a <= b)%Q.
Proof.
  unfold fp_le. rewrite Qle_alt. destruct (a ?= b)%Q; split; congruence.
Qed.

Lemma fp_lt_true a b : fp_lt a b = true <-> (a < b)%Q.
Proof.
  unfold fp_lt. rewrite Qlt_alt. destruct (a ?= b)%Q; split; congruence.
Qed.

Lemma computeSource_without_track_generator w max_iters k_eff res_type :
  _track_generator (solver w) = None ->
  computeSource max_iters k_eff res_type w
  = (Raise (mkError ConfigurationError
       "The Solver is unable to compute the source since it does not contain a TrackGenerator"),
     w).
Proof.
  intros Hnull. unfold computeSource, computeSource_setup. run.
  rewrite Hnull. reflexivity.
Qed.

(** C5. [computeSource] with [k_eff <= 0] fails at once: no iteration is run,
    no collaborator is called, and the engine is exactly as it was before the
    call (stored k-effective, scalar flux, old flux, sources and boundary
    flux included). On an engine with a track generator the error raised is
    the invalid-argument error on k-effective. *)
Theorem computeSource_rejects_nonpositive_keff (w : World) (max_iters : Z)
  (k_eff : FP_PRECISION) (res_type : residualType) :
  (k_eff <= 0)%Q ->
  exists e,
    computeSource max_iters k_eff res_type w = (Raise e, w) /\
    (_track_generator (solver w) <> None ->
     e = mkError InvalidArgument
           "The Solver is unable to compute the source with keff = %f since it is not a positive value").
Proof.
  intros Hk. apply fp_le_true in Hk.
  destruct (_track_generator (solver w)) as [tg|] eqn:Htg.
  - eexists. split; [|reflexivity].
    unfold computeSource, computeSource_setup. run.
    rewrite Htg. simpl. rewrite Hk. reflexivity.
  - eexists. split; [|congruence].
    now apply computeSource_without_track_generator.
Qed.

(** *** The exponential evaluator *)

Lemma std_min_spec a b :
  (std_min a b <= a)%Q /\ (std_min a b <= b)%Q /\
  (std_min a b = a \/ std_min a b = b).
Proof.
  unfold std_min. destruct (fp_lt b a) eqn:E.
  - apply fp_lt_true in E. repeat split; auto.
    + now apply Qlt_le_weak.
    + apply Qle_refl.
  - assert (a <= b)%Q.
    { apply Qnot_lt_le. intros H. apply fp_lt_true in H. congruence. }
    repeat split; auto. apply Qle_refl.
Qed.

(** C7. In interpolation mode, [initializeExpEvaluator] takes the minimum of
    the maximum optical length measured by the track generator and the bound
    configured in the evaluator, has the track generator split its segments
    with that minimum, then sets the evaluator's maximum optical length to
    it, and only then has the interpolation table initialized. In intrinsic
    mode only the polar quadrature is handed to the evaluator: no splitting,
    no change of the bound, no table. *)
Theorem initializeExpEvaluator_reconciles (w : World) :
  let s := solver w in
  let evaluator := _exp_evaluator s in
  let pq := _polar_quad s in
  (exp_interpolate evaluator = true ->
   forall tg, _track_generator s = Some tg ->
     let max_tau := std_min (tg_max_optical_length tg)
                      (exp_max_optical_length evaluator) in
     (max_tau <= tg_max_optical_length tg)%Q /\
     (max_tau <= exp_max_optical_length evaluator)%Q /\
     (max_tau = tg_max_optical_length tg \/
      max_tau = exp_max_optical_length evaluator) /\
     exists w',
       initializeExpEvaluator w = (Return tt, w') /\
       exp_max_optical_length (_exp_evaluator (solver w')) = max_tau /\
       exp_table (_exp_evaluator (solver w'))
         = Some (exp_build_table (Some pq) max_tau (exp_precision evaluator)) /\
       _track_generator (solver w') = Some (tg_splitSegments max_tau tg) /\
       trace w' = trace w ++ [Exp_setPolarQuadrature; TG_splitSegments max_tau;
                              Exp_setMaxOpticalLength max_tau; Exp_initialize]) /\
  (exp_interpolate evaluator = false ->
   initializeExpEvaluator w
   = (Return tt,
      mkWorld (set_exp_evaluator (Exp_with_polar_quad pq evaluator) s)
        (trace w ++ [Exp_setPolarQuadrature]))).
Proof.
  intros s evaluator pq. subst s evaluator pq. split.
  - intros Hint tg Htg max_tau.
    destruct (std_min_spec (tg_max_optical_length tg)
                (exp_max_optical_length (_exp_evaluator (solver w))))
      as (Ha & Hb & Hc).
    split; [exact Ha|]. split; [exact Hb|]. split; [exact Hc|].
    unfold initializeExpEvaluator, on_exp_evaluator. run.
    rewrite Hint. simpl. rewrite Htg. simpl.
    eexists. split; [reflexivity|]. simpl.
    repeat split. now rewrite <- !app_assoc.
  - intros Hint. unfold initializeExpEvaluator, on_exp_evaluator. run.
    rewrite Hint. reflexivity.
Qed.

(** *** Attaching a track generator *)

Lemma set_tracks_same s : set_tracks (_tracks s) s = s.
Proof. destruct s; reflexivity. Qed.

Lemma world_eta w : mkWorld (solver w) (trace w) = w.
Proof. destruct w; reflexivity. Qed.

(** The inner loop of [setTrackGenerator] fills the next [n] slots of
    [_tracks] with the handles of row [i]. *)
Lemma store_row i : forall n j0 counter w pre rest,
  _tracks (solver w) = Some (pre ++ rest) ->
  counter = Z.of_nat (length pre) ->
  (n <= length rest)%nat ->
  for_M n j0 (store_track i) counter w
  = (Return (counter + Z.of_nat n),
     mkWorld (set_tracks
                (Some (pre ++ map (fun j => (i, j0 + Z.of_nat j)) (seq 0 n)
                           ++ drop n rest))
                (solver w))
       (trace w)).
Proof.
  induction n as [|n IH]; intros j0 counter w pre rest Htr Hc Hn.
  - simpl. unfold ret. rewrite drop_0, <- Htr, set_tracks_same, world_eta.
    now rewrite Z.add_0_r.
  - destruct rest as [|x rest]; [simpl in Hn; lia|].
    cbn [for_M]. unfold mbind, M_bind, bind. unfold store_track at 1. run.
    rewrite Htr. unfold array_write.
    match goal with
    | |- context [if ?c then Undefined else _] =>
        replace c with false by (rewrite length_app; simpl; zcases)
    end.
    cbn [solver trace].
    replace (Z.to_nat counter) with (length pre + 0)%nat by lia.
    rewrite insert_app_r. cbn [list_insert].
    match goal with
    | |- for_M n ?j ?b ?c ?w0 = _ =>
        rewrite (IH j c w0 (pre ++ [(i, j0)]) rest)
    end.
    + assert (Hmap : map (fun j => (i, j0 + 1 + Z.of_nat j)) (seq 0 n)
                     = map (fun j => (i, j0 + Z.of_nat j)) (seq 1 n)).
      { rewrite <- seq_shift, map_map. apply map_ext. intros j. f_equal. lia. }
      rewrite Hmap, <- app_assoc. cbn [seq map drop app solver set_tracks].
      rewrite Z.add_0_r. f_equal. f_equal. lia.
    + cbn [solver set_tracks _tracks]. now rewrite <- app_assoc.
    + rewrite length_app. simpl. lia.
    + simpl in Hn. lia.
Qed.

Lemma length_track_row i n : length (track_row i n) = Z.to_nat n.
Proof. unfold track_row. now rewrite length_map, length_seq. Qed.

(** The nested loops of [setTrackGenerator] fill [_tracks] row after row. *)
Lemma store_rows (num_tracks : list Z) : forall m i0 counter w done rows pre rest,
  num_tracks = done ++ rows ->
  i0 = Z.of_nat (length done) ->
  (m <= length rows)%nat ->
  _tracks (solver w) = Some (pre ++ rest) ->
  counter = Z.of_nat (length pre) ->
  (length (flat_tracks_from i0 (firstn m rows)) <= length rest)%nat ->
  for_M m i0 (store_track_row (Some num_tracks)) counter w
  = (Return (counter + Z.of_nat (length (flat_tracks_from i0 (firstn m rows)))),
     mkWorld (set_tracks
                (Some (pre ++ flat_tracks_from i0 (firstn m rows)
                           ++ drop (length (flat_tracks_from i0 (firstn m rows)))
                                rest))
                (solver w))
       (trace w)).
Proof.
  induction m as [|m IH]; intros i0 counter w done rows pre rest Harr Hi Hm Htr Hc Hlen.
  - simpl. unfold ret. rewrite drop_0, <- Htr, set_tracks_same, world_eta.
    now rewrite Z.add_0_r.
  - destruct rows as [|n rows]; [simpl in Hm; lia|].
    cbn [firstn flat_tracks_from] in *. rewrite length_app, length_track_row in Hlen.
    cbn [for_M]. unfold mbind at 1, M_bind at 1, bind at 1.
    unfold store_track_row at 1.
    unfold mbind at 1, M_bind at 1, bind at 1, lift at 1.
    assert (Hread : array_read (Some num_tracks) i0 = Return n).
    { unfold array_read. replace (i0 <? 0) with false by zcases.
      subst num_tracks i0. rewrite Nat2Z.id.
      rewrite list_lookup_middle by reflexivity. reflexivity. }
    rewrite Hread.
    rewrite (store_row i0 (Z.to_nat n) 0 counter w pre rest Htr Hc) by lia.
    change (map (fun j => (i0, 0 + Z.of_nat j)) (seq 0 (Z.to_nat n)))
      with (track_row i0 n).
    match goal with
    | |- for_M m ?i ?b ?c ?w0 = _ =>
        rewrite (IH i c w0 (done ++ [n]) rows (pre ++ track_row i0 n)
                   (drop (Z.to_nat n) rest))
    end.
    + rewrite !length_app, length_track_row, drop_drop, <- !app_assoc.
      cbn [solver trace set_tracks]. f_equal. f_equal. lia.
    + now rewrite <- app_assoc.
    + rewrite length_app. simpl. lia.
    + simpl in Hm. lia.
    + cbn [solver set_tracks _tracks]. now rewrite <- app_assoc.
    + rewrite length_app, length_track_row. lia.
    + rewrite length_drop. lia.
Qed.

Lemma setTrackGenerator_without_tracks tg w :
  tg_containsTracks tg = false ->
  setTrackGenerator tg w
  = (Raise (mkError ConfigurationError
       "Unable to set the TrackGenerator for the Solver since the TrackGenerator has not yet generated tracks"),
     w).
Proof.
  intros Hno. unfold setTrackGenerator. run. rewrite Hno. reflexivity.
Qed.

Lemma setGeometry_with_FSRs geometry w :
  geo_num_FSRs geometry <> 0 ->
  setGeometry geometry w
  = (Return tt,
     mkWorld
       (set_num_materials (geo_num_materials geometry)
          (set_polar_times_groups
             (int_mul (geo_num_groups geometry) (_num_polar (solver w)))
             (set_num_groups (geo_num_groups geometry)
                (set_num_FSRs (geo_num_FSRs geometry)
                   (set_cmfd (geo_cmfd geometry)
                      (set_geometry (Some geometry) (solver w)))))))
       (trace w)).
Proof.
  intros HN. unfold setGeometry. run.
  destruct (Z.eqb_spec (geo_num_FSRs geometry) 0); [contradiction|reflexivity].
Qed.

Lemma setTrackGenerator_binds tg w :
  tg_containsTracks tg = true ->
  tracks_consistent tg ->
  geo_num_FSRs (tg_geometry tg) <> 0 ->
  setTrackGenerator tg w = (Return tt, mkWorld (bound_to tg (solver w)) (trace w)).
Proof.
  intros Hyes [Hrows Htot] HN.
  unfold setTrackGenerator.
  unfold mbind, M_bind, bind. rewrite Hyes. cbn [negb ret].
  cbn [modify get lift solver trace set_track_generator set_num_azim
         set_tot_num_tracks _tot_num_tracks _num_azim set_tracks].
  unfold new_array. replace (tg_num_tracks tg <? 0) with false by zcases.
  cbn [solver trace set_track_generator set_num_azim
         set_tot_num_tracks _tot_num_tracks _num_azim set_tracks].
  set (num_azim := Z.quot (tg_num_azim tg) 2) in *.
  set (w0 := mkWorld _ (trace w)).
  rewrite (store_rows (tg_num_tracks_array tg) (Z.to_nat num_azim) 0 0 w0 []
             (tg_num_tracks_array tg) [] (replicate (Z.to_nat (tg_num_tracks tg)) junk_handle));
    try reflexivity; try assumption.
  - fold (flat_tracks num_azim (tg_num_tracks_array tg)).
    rewrite setGeometry_with_FSRs by assumption.
    f_equal. f_equal. unfold bound_to. fold num_azim.
    cbn [solver trace w0 set_tracks set_track_generator set_num_azim
           set_tot_num_tracks _num_polar].
    rewrite drop_ge, app_nil_r; [reflexivity|].
    rewrite length_replicate. lia.
  - fold (flat_tracks num_azim (tg_num_tracks_array tg)).
    rewrite length_replicate. lia.
Qed.

(** When the generator has tracks but its geometry has no region yet, the
    error is raised by [setGeometry], after the generator and its tracks have
    been bound. *)
Remark setTrackGenerator_geometry_without_FSRs tg w :
  tg_containsTracks tg = true ->
  tracks_consistent tg ->
  geo_num_FSRs (tg_geometry tg) = 0 ->
  setTrackGenerator tg w
  = (Raise (mkError ConfigurationError
       "Unable to set the Geometry for the Solver since the Geometry has not yet initialized FSRs"),
     mkWorld
       (set_tracks
          (Some (flat_tracks (Z.quot (tg_num_azim tg) 2) (tg_num_tracks_array tg)))
          (set_tot_num_tracks (tg_num_tracks tg)
             (set_num_azim (Z.quot (tg_num_azim tg) 2)
                (set_track_generator (Some tg) (solver w)))))
       (trace w)).
Proof.
  intros Hyes [Hrows Htot] HN.
  unfold setTrackGenerator.
  unfold mbind, M_bind, bind. rewrite Hyes. cbn [negb ret].
  cbn [modify get lift solver trace set_track_generator set_num_azim
         set_tot_num_tracks _tot_num_tracks _num_azim set_tracks].
  unfold new_array. replace (tg_num_tracks tg <? 0) with false by zcases.
  cbn [solver trace set_track_generator set_num_azim
         set_tot_num_tracks _tot_num_tracks _num_azim set_tracks].
  set (num_azim := Z.quot (tg_num_azim tg) 2) in *.
  set (w0 := mkWorld _ (trace w)).
  rewrite (store_rows (tg_num_tracks_array tg) (Z.to_nat num_azim) 0 0 w0 []
             (tg_num_tracks_array tg) [] (replicate (Z.to_nat (tg_num_tracks tg)) junk_handle));
    try reflexivity; try assumption.
  - fold (flat_tracks num_azim (tg_num_tracks_array tg)).
    unfold setGeometry. run. rewrite HN. simpl.
    rewrite drop_ge, app_nil_r; [reflexivity|].
    rewrite length_replicate. lia.
  - fold (flat_tracks num_azim (tg_num_tracks_array tg)).
    rewrite length_replicate. lia.
Qed.

(** The flat track array lists every track once, by azimuthal index and then
    by track index. *)
Lemma In_track_row i n h :
  In h (track_row i n) <-> fst h = i /\ 0 <= snd h < n.
Proof.
  unfold track_row. rewrite in_map_iff. split.
  - intros (j & <- & Hj). apply in_seq in Hj. simpl. lia.
  - intros [Hi Hj]. exists (Z.to_nat (snd h)). split.
    + destruct h as [a b]. simpl in *. subst a. f_equal. lia.
    + apply in_seq. lia.
Qed.

Lemma track_row_sorted i : forall k j0,
  StronglySorted handle_lt (map (fun j => (i, Z.of_nat j)) (seq j0 k)).
Proof.
  induction k as [|k IH]; intros j0; simpl; constructor; [apply IH|].
  apply List.Forall_forall. intros h Hh. apply in_map_iff in Hh.
  destruct Hh as (j & <- & Hj). apply in_seq in Hj.
  right. simpl. lia.
Qed.

Lemma In_flat_tracks_from rows : forall i0 h,
  In h (flat_tracks_from i0 rows) <->
  exists k n, rows !! k = Some n /\ fst h = i0 + Z.of_nat k /\ 0 <= snd h < n.
Proof.
  induction rows as [|n rows IH]; intros i0 h; simpl.
  - split; [contradiction|]. intros (k & n & Hk & _). discriminate.
  - rewrite in_app_iff, In_track_row, IH. split.
    + intros [[Hi Hj] | (k & n' & Hk & Hi & Hj)].
      * exists 0%nat, n. simpl. split; [reflexivity|]. lia.
      * exists (S k), n'. simpl. split; [exact Hk|]. lia.
    + intros ([|k] & n' & Hk & Hi & Hj); simpl in Hk.
      * injection Hk as <-. left. lia.
      * right. exists k, n'. split; [exact Hk|]. lia.
Qed.

Lemma flat_tracks_from_sorted rows : forall i0,
  StronglySorted handle_lt (flat_tracks_from i0 rows).
Proof.
  induction rows as [|n rows IH]; intros i0; simpl; [constructor|].
  apply StronglySorted_app_2; [|apply track_row_sorted|apply IH].
  intros h1 h2 H1 H2. apply list_elem_of_In in H1, H2.
  apply In_track_row in H1. apply In_flat_tracks_from in H2.
  destruct H2 as (k & n' & _ & Hi & _). left. lia.
Qed.

Lemma flat_tracks_sorted num_azim num_tracks :
  StronglySorted handle_lt (flat_tracks num_azim num_tracks).
Proof. apply flat_tracks_from_sorted. Qed.

Lemma In_flat_tracks num_azim num_tracks i j :
  In (i, j) (flat_tracks num_azim num_tracks) <->
  0 <= i < num_azim /\
  exists n, num_tracks !! Z.to_nat i = Some n /\ 0 <= j < n.
Proof.
  unfold flat_tracks. rewrite In_flat_tracks_from. simpl. split.
  - intros (k & n & Hk & Hi & Hj). apply lookup_take_Some in Hk.
    destruct Hk as [Hk Hlt]. split; [lia|]. exists n.
    replace (Z.to_nat i) with k by lia. auto.
  - intros [Hi (n & Hn & Hj)]. exists (Z.to_nat i), n.
    split; [|lia]. apply lookup_take_Some. split; [exact Hn|lia].
Qed.

(** C6. [setTrackGenerator] raises the configuration error whenever the track
    generator reports no tracks, and then the engine is exactly as before
    (the generator, the geometry and the counts derived from an earlier
    attachment included); so the engine changes only when the generator
    contains tracks. For a consistent generator with tracks (whose geometry
    has its regions) the call binds it, fills the flat track array row by row
    -- sorted by azimuthal index and then track index, every track of the
    first [numAzim] rows exactly once -- and takes [numAzim],
    [totalNumTracks], [numFSRs], [numGroups] and [numMaterials] from the
    generator and its geometry. *)
Theorem setTrackGenerator_binds_only_with_tracks (tg : TrackGenerator)
  (w : World) :
  (tg_containsTracks tg = false ->
   setTrackGenerator tg w
   = (Raise (mkError ConfigurationError
        "Unable to set the TrackGenerator for the Solver since the TrackGenerator has not yet generated tracks"),
      w)) /\
  (snd (setTrackGenerator tg w) <> w -> tg_containsTracks tg = true) /\
  (tg_containsTracks tg = true -> tracks_consistent tg ->
   geo_num_FSRs (tg_geometry tg) <> 0 ->
   let s' := bound_to tg (solver w) in
   let geometry := tg_geometry tg in
   setTrackGenerator tg w = (Return tt, mkWorld s' (trace w)) /\
   _track_generator s' = Some tg /\
   _geometry s' = Some geometry /\
   _num_azim s' = Z.quot (tg_num_azim tg) 2 /\
   _tot_num_tracks s' = tg_num_tracks tg /\
   _num_FSRs s' = geo_num_FSRs geometry /\
   _num_groups s' = geo_num_groups geometry /\
   _num_materials s' = geo_num_materials geometry /\
   exists tracks,
     _tracks s' = Some tracks /\
     Z.of_nat (length tracks) = tg_num_tracks tg /\
     StronglySorted handle_lt tracks /\
     forall i j, In (i, j) tracks <->
       0 <= i < _num_azim s' /\
       exists n, tg_num_tracks_array tg !! Z.to_nat i = Some n /\ 0 <= j < n).
Proof.
  split; [apply setTrackGenerator_without_tracks|]. split.
  - intros Hchanged. destruct (tg_containsTracks tg) eqn:E; [reflexivity|].
    rewrite setTrackGenerator_without_tracks in Hchanged by exact E.
    now contradiction Hchanged.
  - intros Hyes Hcons HN s' geometry.
    split; [now apply setTrackGenerator_binds|].
    repeat (split; [reflexivity|]).
    exists (flat_tracks (Z.quot (tg_num_azim tg) 2) (tg_num_tracks_array tg)).
    split; [reflexivity|]. split; [symmetry; apply Hcons|].
    split; [apply flat_tracks_sorted|]. intros i j. apply In_flat_tracks.
Qed.

(** *** The source-iteration loops *)

Lemma computeFlux_iteration_total : total_pass computeFlux_iteration.
Proof.
  intros i w. unfold computeFlux_iteration, virtual, virtual_computeResidual.
  run. destruct (computeResidual _ _). eauto.
Qed.

Lemma computeSource_iteration_total res_type :
  total_pass (computeSource_iteration res_type).
Proof.
  intros i w. unfold computeSource_iteration, virtual, virtual_computeResidual.
  run. destruct (computeResidual _ _). eauto.
Qed.

Lemma computeEigenvalue_iteration_total res_type :
  total_pass (computeEigenvalue_iteration res_type).
Proof.
  intros i w. unfold computeEigenvalue_iteration, virtual, virtual_computeResidual.
  run. destruct (computeResidual _ _) as [r s1]. simpl.
  destruct (cmfd_flux_update_on _); simpl; [|eauto].
  destruct (cmfd_computeKeff _ _). eauto.
Qed.

Lemma iteration_of_total op : total_pass (iteration_of op).
Proof.
  destruct op; simpl.
  - apply computeFlux_iteration_total.
  - apply computeSource_iteration_total.
  - apply computeEigenvalue_iteration_total.
Qed.

Lemma converged_at_S pass i0 k w :
  converged_at pass i0 (S k) w
  = converged_at pass (i0 + 1) k (world_after pass i0 w).
Proof.
  unfold converged_at. cbn [passes].
  replace (i0 + Z.of_nat (S k)) with (i0 + 1 + Z.of_nat k) by lia.
  reflexivity.
Qed.

Lemma for_return_S {R} n i (body : Z -> M (option R)) w :
  for_return (S n) i body w
  = match body i w with
    | (Return (Some x), w') => (Return (Some x), w')
    | (Return None, w') => for_return n (i + 1) body w'
    | (Raise e, w') => (Raise e, w')
    | (Undefined, w') => (Undefined, w')
    | (NonFinite, w') => (NonFinite, w')
    end.
Proof.
  cbn [for_return]. unfold mbind, M_bind, bind.
  destruct (body i w) as [[[x|]| | |] w']; reflexivity.
Qed.

Lemma checked_pass pass i w r w' :
  pass i w = (Return r, w') ->
  (residual ← pass i; check_convergence i residual) w
  = if (i >? 1) && fp_lt r (_converge_thresh (solver w'))
    then (Return (Some tt), success_world i w')
    else (Return None, w').
Proof.
  intros Hp. unfold mbind at 1, M_bind at 1, bind at 1. rewrite Hp.
  unfold check_convergence. run.
  destruct ((i >? 1) && fp_lt r (_converge_thresh (solver w'))); [|reflexivity].
  unfold success_world. now rewrite <- app_assoc.
Qed.

(** The loop either returns at the first pass whose convergence test
    succeeds, or runs all its passes. *)
Lemma for_return_passes pass :
  total_pass pass ->
  forall n i0 w,
    (exists k, (k < n)%nat /\
       converged_at pass i0 k w = true /\
       (forall j, (j < k)%nat -> converged_at pass i0 j w = false) /\
       for_return n i0
         (fun i => residual ← pass i; check_convergence i residual) w
       = (Return (Some tt),
          success_world (i0 + Z.of_nat k)
            (world_after pass (i0 + Z.of_nat k) (passes pass i0 k w)))) \/
    ((forall j, (j < n)%nat -> converged_at pass i0 j w = false) /\
     for_return n i0
       (fun i => residual ← pass i; check_convergence i residual) w
     = (Return None, passes pass i0 n w)).
Proof.
  intros Htot n. induction n as [|n IH]; intros i0 w.
  - right. split; [intros j Hj; lia|reflexivity].
  - destruct (Htot i0 w) as (r & w' & Hp).
    assert (H0 : converged_at pass i0 0 w
                 = (i0 >? 1) && fp_lt r (_converge_thresh (solver w'))).
    { unfold converged_at, residual_of_pass, world_after. cbn [passes].
      rewrite Z.add_0_r, Hp. reflexivity. }
    assert (Hw' : world_after pass i0 w = w').
    { unfold world_after. now rewrite Hp. }
    rewrite for_return_S, (checked_pass pass i0 w r w' Hp).
    destruct ((i0 >? 1) && fp_lt r (_converge_thresh (solver w'))) eqn:Hc.
    + left. exists 0%nat. split; [lia|]. split; [exact H0|].
      split; [intros j Hj; lia|].
      cbn [passes]. now rewrite Z.add_0_r, Hw'.
    + destruct (IH (i0 + 1) w') as [(k & Hk & Hconv & Hbefore & Hrun) | [Hnone Hrun]].
      * left. exists (S k). split; [lia|].
        split; [now rewrite converged_at_S, Hw'|]. split.
        -- intros [|j] Hj; [exact H0|]. rewrite converged_at_S, Hw'.
           apply Hbefore. lia.
        -- rewrite Hrun. cbn [passes]. rewrite Hw'.
           replace (i0 + Z.of_nat (S k)) with (i0 + 1 + Z.of_nat k) by lia.
           reflexivity.
      * right. split.
        -- intros [|j] Hj; [exact H0|]. rewrite converged_at_S, Hw'.
           apply Hnone. lia.
        -- rewrite Hrun. cbn [passes]. now rewrite Hw'.
Qed.

Lemma solve_after_setup op max_iters w w1 :
  setup_of op w = (Return tt, w1) ->
  solve op max_iters w
  = (returned ← for_return (Z.to_nat max_iters) 0
                  (fun i => residual ← iteration_of op i;
                            check_convergence i residual);
     match returned with
     | Some _ => ret tt
     | None => not_converged (warning_of op) max_iters
     end) w1.
Proof.
  intros Hsetup. destruct op; simpl in *;
    unfold computeFlux, computeSource, computeEigenvalue;
    unfold mbind at 1, M_bind at 1, bind at 1; rewrite Hsetup; reflexivity.
Qed.

(** C1. Once its initialization is done, each of the three solve operations
    ends in one of two ways, for every [max_iters >= 0]. Either it returns at
    a pass [k] with [1 < k < max_iters] whose residual is strictly below the
    threshold, no earlier pass having passed the convergence test, and the
    iteration counter is [k]; or no pass [j < max_iters] passes the test
    ([j > 1] and residual below the threshold), all [max_iters] passes are
    run, the warning is logged, the call still returns normally, the
    iteration counter is [max_iters] and the rest of the state is the one the
    last pass left. Success is never reported at pass 0 or 1. *)
Theorem solve_loop_termination (op : solve_operation) (max_iters : Z)
  (w w1 : World) :
  0 <= max_iters ->
  setup_of op w = (Return tt, w1) ->
  let pass := iteration_of op in
  (exists k : nat,
     let before := passes pass 0 k w1 in
     let after := world_after pass (Z.of_nat k) before in
     1 < Z.of_nat k < max_iters /\
     (residual_of_pass pass (Z.of_nat k) before
      < _converge_thresh (solver after))%Q /\
     (forall j, (j < k)%nat -> converged_at pass 0 j w1 = false) /\
     solve op max_iters w = (Return tt, success_world (Z.of_nat k) after) /\
     getNumIterations (solver (success_world (Z.of_nat k) after)) = Z.of_nat k) \/
  ((forall j : nat, Z.of_nat j < max_iters -> converged_at pass 0 j w1 = false) /\
   let last := passes pass 0 (Z.to_nat max_iters) w1 in
   solve op max_iters w
   = (Return tt, exhausted_world (warning_of op) max_iters last) /\
   getNumIterations (solver (exhausted_world (warning_of op) max_iters last))
   = max_iters /\
   In (Logged WARNING (warning_of op) [])
     (trace (exhausted_world (warning_of op) max_iters last))).
Proof.
  intros Hmax Hsetup pass.
  rewrite (solve_after_setup op max_iters w w1 Hsetup).
  destruct (for_return_passes pass (iteration_of_total op)
              (Z.to_nat max_iters) 0 w1)
    as [(k & Hk & Hconv & Hbefore & Hrun) | [Hnone Hrun]].
  - left. exists k. cbn zeta. rewrite Z.add_0_l in Hrun.
    unfold converged_at in Hconv. rewrite Z.add_0_l in Hconv.
    apply andb_true_iff in Hconv. destruct Hconv as [Hgt Hlt].
    apply fp_lt_true in Hlt. rewrite Z.gtb_ltb in Hgt. apply Z.ltb_lt in Hgt.
    split; [lia|]. split; [exact Hlt|]. split; [exact Hbefore|].
    split; [|reflexivity].
    unfold mbind at 1, M_bind at 1, bind at 1. fold pass. rewrite Hrun.
    reflexivity.
  - right. split; [intros j Hj; apply Hnone; lia|]. cbn zeta.
    split; [|split; [reflexivity|]].
    + unfold mbind at 1, M_bind at 1, bind at 1. fold pass. rewrite Hrun.
      unfold not_converged, exhausted_world. run.
      now rewrite <- !app_assoc.
    + unfold exhausted_world. cbn [trace]. apply in_or_app. right. now left.
Qed.

(** *** What the initialization routines preserve *)

Lemma quiet_extension_refl w : quiet_extension w w.
Proof. exists []. split; [now rewrite app_nil_r|constructor]. Qed.

Lemma quiet_extension_trans w1 w2 w3 :
  quiet_extension w1 w2 -> quiet_extension w2 w3 -> quiet_extension w1 w3.
Proof.
  intros (d1 & H1 & Q1) (d2 & H2 & Q2). exists (d1 ++ d2). split.
  - now rewrite H2, H1, app_assoc.
  - apply Forall_app. auto.
Qed.

#[local] Instance quiet_extension_preorder : PreOrder quiet_extension.
Proof.
  split.
  - intros w. apply quiet_extension_refl.
  - intros w1 w2 w3. apply quiet_extension_trans.
Qed.

#[local] Instance steady_preorder : PreOrder steady.
Proof.
  split.
  - intros w. repeat split. apply quiet_extension_refl.
  - intros w1 w2 w3 (A1 & B1 & C1 & D1 & E1) (A2 & B2 & C2 & D2 & E2).
    repeat split; try congruence. eapply quiet_extension_trans; eauto.
Qed.

#[local] Instance flux_kept_preorder : PreOrder flux_kept.
Proof.
  split.
  - intros w. split; [reflexivity|apply quiet_extension_refl].
  - intros w1 w2 w3 [A1 E1] [A2 E2]. split; [congruence|].
    eapply quiet_extension_trans; eauto.
Qed.

Lemma steady_flux_kept w w' : steady w w' -> flux_kept w w'.
Proof. intros (A & _ & _ & _ & E). split; assumption. Qed.

Section Preserving.
Context (R : World -> World -> Prop) `{!PreOrder R}.

Lemma pres_ret {A} (a : A) : preserving R (ret a).
Proof. intros w o w' H. injection H as <- <-. reflexivity. Qed.

Lemma pres_get {A} (f : Solver -> A) : preserving R (get f).
Proof. intros w o w' H. injection H as <- <-. reflexivity. Qed.

Lemma pres_lift {A} (o : outcome A) : preserving R (lift o).
Proof. intros w o' w' H. injection H as <- <-. reflexivity. Qed.

Lemma pres_log_error {A} k fmt : preserving R (@log_error _ A k fmt).
Proof. intros w o w' H. injection H as <- <-. reflexivity. Qed.

Lemma pres_emit ev :
  (forall w, R w (mkWorld (solver w) (trace w ++ [ev]))) ->
  preserving R (emit ev).
Proof. intros HR w o w' H. injection H as <- <-. apply HR. Qed.

Lemma pres_modify f :
  (forall w, R w (mkWorld (f (solver w)) (trace w))) ->
  preserving R (modify f).
Proof. intros HR w o w' H. injection H as <- <-. apply HR. Qed.

Lemma pres_modify_with {A} (f : Solver -> A * Solver) :
  (forall w, R w (mkWorld (snd (f (solver w))) (trace w))) ->
  preserving R (modify_with f).
Proof.
  intros HR w o w' H. unfold modify_with in H. specialize (HR w).
  destruct (f (solver w)) as [a s']. injection H as <- <-. exact HR.
Qed.

Lemma pres_bind {A C} (m : M A) (f : A -> M C) :
  preserving R m -> (forall a, preserving R (f a)) -> preserving R (m ≫= f).
Proof.
  intros Hm Hf w o w' H. unfold mbind, M_bind, bind in H.
  destruct (m w) as [[a|e| |] w1] eqn:E.
  - transitivity w1; [eapply Hm; eauto|eapply Hf; eauto].
  - injection H as <- <-. eapply Hm; eauto.
  - injection H as <- <-. eapply Hm; eauto.
  - injection H as <- <-. eapply Hm; eauto.
Qed.

Lemma pres_for_M {A} (body : Z -> A -> M A) :
  (forall i acc, preserving R (body i acc)) ->
  forall n i acc, preserving R (for_M n i body acc).
Proof.
  intros Hb n. induction n as [|n IH]; intros i acc; cbn [for_M].
  - apply pres_ret.
  - apply pres_bind; [apply Hb|]. intros a. apply IH.
Qed.

Lemma pres_for_return {A} (body : Z -> M (option A)) :
  (forall i, preserving R (body i)) ->
  forall n i, preserving R (for_return n i body).
Proof.
  intros Hb n. induction n as [|n IH]; intros i; cbn [for_return].
  - apply pres_ret.
  - apply pres_bind; [apply Hb|]. intros [x|]; [apply pres_ret|apply IH].
Qed.

End Preserving.

Lemma bind_inv {A C} (m : M A) (f : A -> M C) w c w1 :
  (m ≫= f) w = (Return c, w1) ->
  exists a w', m w = (Return a, w') /\ f a w' = (Return c, w1).
Proof.
  unfold mbind, M_bind, bind. destruct (m w) as [[a|e| |] w'];
    [eauto|discriminate|discriminate|discriminate].
Qed.

(** Discharges [preserving steady m] for a routine that only logs quiet
    events and writes fields other than the flux, the dimensions and the
    iteration counter. *)
Ltac quiet_step :=
  intros ?;
  solve [ exists []; split; [simpl; now rewrite app_nil_r|constructor]
        | eexists [_]; split; [reflexivity|repeat constructor] ].

Ltac steady_step :=
  intros ?; repeat split; simpl;
  solve [ exists []; split; [simpl; now rewrite app_nil_r|constructor]
        | eexists [_]; split; [reflexivity|repeat constructor] ].

(** Decomposes [preserving R m] along the structure of [m]; [step] proves
    the side conditions of the writes and of the events. *)
Ltac preserve_with step :=
  repeat first
    [ apply pres_ret; tc_solve
    | apply pres_get; tc_solve
    | apply pres_lift; tc_solve
    | apply pres_log_error; tc_solve
    | apply pres_emit; step
    | apply pres_modify; step
    | apply pres_modify_with; step
    | apply pres_for_M; [tc_solve|intros ? ?]
    | apply pres_for_return; [tc_solve|intros ?]
    | apply pres_bind; [tc_solve| |intros ?]
    | match goal with
      | |- preserving _ (if ?c then _ else _) => destruct c
      | |- preserving _ (match ?x with _ => _ end) => destruct x
      end ].

Ltac preserve := preserve_with steady_step.

Lemma log_printf_steady lvl fmt args : preserving steady (log_printf lvl fmt args).
Proof. unfold log_printf. preserve. Qed.

Lemma initializePolarQuadrature_steady : preserving steady initializePolarQuadrature.
Proof.
  unfold initializePolarQuadrature, deref, store_polar_weight. preserve.
Qed.

Lemma initializeExpEvaluator_steady : preserving steady initializeExpEvaluator.
Proof.
  unfold initializeExpEvaluator, deref, on_exp_evaluator. preserve.
Qed.

Lemma initializeFSRs_steady : preserving steady initializeFSRs.
Proof. unfold initializeFSRs, deref, log_printf. preserve. Qed.

Lemma countFissionableFSRs_steady : preserving steady countFissionableFSRs.
Proof. unfold countFissionableFSRs, deref, log_printf. preserve. Qed.

(** The source iteration of [computeFlux] neither reallocates nor flattens
    the flux. *)
Lemma computeFlux_iterations_quiet max_iters :
  preserving quiet_extension (computeFlux_iterations max_iters).
Proof.
  unfold computeFlux_iterations, computeFlux_iteration, check_convergence,
    not_converged, virtual, virtual_computeResidual, log_printf.
  preserve_with quiet_step.
Qed.

Section FluxInitialization.
Context {BC : BackendContract}.

Lemma virtual_flux_kept c f :
  quiet (Virtual c) ->
  (forall s, _scalar_flux (f s) = _scalar_flux s) ->
  preserving flux_kept (virtual c f).
Proof.
  intros Hq Hf w o w' H. unfold virtual in H. run. injection H as <- <-.
  split; [apply Hf|]. exists [Virtual c]. split; [reflexivity|].
  repeat constructor. exact Hq.
Qed.

Lemma quiet_not_allocation d :
  Forall quiet d -> ~ In (Virtual V_initializeFluxArrays) d.
Proof.
  intros Hd Hin. rewrite List.Forall_forall in Hd. exact (Hd _ Hin).
Qed.

Lemma quiet_not_flatten d v :
  Forall quiet d -> ~ In (Virtual (V_flattenFSRFluxes v)) d.
Proof.
  intros Hd Hin. rewrite List.Forall_forall in Hd. exact (Hd _ Hin).
Qed.

(** The initialization of [computeFlux]: the flux is reallocated and
    flattened to zero exactly when [only_fixed_source] is true or the
    iteration counter is 0; the scalar flux it hands to the source iteration
    is all zero in that case and the one of the caller otherwise. *)
Lemma computeFlux_setup_flux (only_fixed_source : bool) (w w1 : World) :
  computeFlux_setup only_fixed_source w = (Return tt, w1) ->
  let s := solver w in
  let fresh := only_fixed_source || (_num_iterations s =? 0) in
  (exists d,
     trace w1 = trace w ++ d /\
     (In (Virtual V_initializeFluxArrays) d <-> fresh = true) /\
     (In (Virtual (V_flattenFSRFluxes 0%Q)) d <-> fresh = true) /\
     (forall v, In (Virtual (V_flattenFSRFluxes v)) d -> v = 0%Q)) /\
  (fresh = true ->
   _scalar_flux (solver w1)
   = Some (replicate (Z.to_nat (_num_FSRs s * _num_groups s)) 0%Q)) /\
  (fresh = false -> _scalar_flux (solver w1) = _scalar_flux s).
Proof.
  intros Hrun s fresh.
  unfold computeFlux_setup in Hrun.
  apply bind_inv in Hrun as (tg & w0 & H0 & Hrun). injection H0 as _ <-.
  apply bind_inv in Hrun as (? & w0 & H0 & Hrun).
  assert (w0 = w) as ->.
  { destruct (is_NULL tg); [discriminate|now injection H0]. }
  clear H0.
  apply bind_inv in Hrun as (? & wa & Ha & Hrun). apply log_printf_steady in Ha.
  apply bind_inv in Hrun as (? & wb & Hb & Hrun).
  assert (steady wa wb) as Sb.
  { refine (pres_emit steady (TimerClearSplit "Total time") _ _ _ _ Hb).
    steady_step. }
  clear Hb.
  apply bind_inv in Hrun as (? & wc & Hc & Hrun).
  assert (steady wb wc) as Sc.
  { refine (pres_emit steady TimerStart _ _ _ _ Hc). steady_step. }
  clear Hc.
  apply bind_inv in Hrun as (? & wd & Hd & Hrun).
  apply initializePolarQuadrature_steady in Hd.
  apply bind_inv in Hrun as (? & we & He & Hrun).
  apply initializeExpEvaluator_steady in He.
  assert (steady w we) as Spre.
  { transitivity wa; [exact Ha|]. transitivity wb; [exact Sb|].
    transitivity wc; [exact Sc|]. transitivity wd; assumption. }
  clear Ha Sb Sc Hd He wa wb wc wd.
  apply bind_inv in Hrun as (n & w0 & H0 & Hrun). injection H0 as <- <-.
  apply bind_inv in Hrun as (? & wf & Hguard & Hrun).
  apply bind_inv in Hrun as (? & wg & Hg & Hrun).
  apply (virtual_flux_kept V_initializeSourceArrays _ I
           initializeSourceArrays_keeps_flux) in Hg.
  apply bind_inv in Hrun as (? & wh & Hh & Hrun).
  apply initializeFSRs_steady, steady_flux_kept in Hh.
  apply bind_inv in Hrun as (? & wi & Hi & Hrun).
  apply countFissionableFSRs_steady, steady_flux_kept in Hi.
  apply bind_inv in Hrun as (? & wj & Hj & Hrun).
  apply (virtual_flux_kept V_zeroTrackFluxes _ I zeroTrackFluxes_keeps_flux) in Hj.
  apply (virtual_flux_kept V_computeFSRSources _ I
           computeFSRSources_keeps_flux) in Hrun.
  assert (flux_kept wf w1) as Spost.
  { transitivity wg; [exact Hg|]. transitivity wh; [exact Hh|].
    transitivity wi; [exact Hi|]. transitivity wj; assumption. }
  clear Hg Hh Hi Hj Hrun wg wh wi wj.
  destruct Spre as (Fpre & Npre & Gpre & Ipre & (dpre & Tpre & Qpre)).
  destruct Spost as (Fpost & (dpost & Tpost & Qpost)).
  rewrite Ipre in Hguard. fold s in Hguard. fold fresh in Hguard.
  destruct fresh eqn:Hfresh.
  - unfold virtual in Hguard. revert Hguard. run. intros Hguard.
    injection Hguard as _ <-. cbn [trace solver] in *.
    split; [|split; [|discriminate]].
    + exists (dpre ++ [Virtual V_initializeFluxArrays;
                       Virtual (V_flattenFSRFluxes 0%Q)] ++ dpost).
      split; [rewrite Tpost, Tpre, <- !app_assoc; reflexivity|].
      split; [|split].
      * split; [reflexivity|]. intros _. apply in_or_app. right. now left.
      * split; [reflexivity|]. intros _. apply in_or_app. right.
        right. now left.
      * intros v Hin. apply in_app_or in Hin. destruct Hin as [Hin | Hin].
        { now apply quiet_not_flatten in Hin. }
        destruct Hin as [Hin | [Hin | Hin]]; [discriminate|congruence|].
        now apply quiet_not_flatten in Hin.
    + intros _. rewrite Fpost, flatten_after_allocation, Npre, Gpre.
      reflexivity.
  - injection Hguard as _ <-.
    split; [|split; [discriminate|]].
    + exists (dpre ++ dpost).
      split; [rewrite Tpost, Tpre, <- !app_assoc; reflexivity|].
      assert (Hq : Forall quiet (dpre ++ dpost)) by (apply Forall_app; auto).
      split; [|split].
      * split; [|discriminate]. intros Hin.
        now apply quiet_not_allocation in Hin.
      * split; [|discriminate]. intros Hin.
        now apply quiet_not_flatten in Hin.
      * intros v Hin. now apply quiet_not_flatten in Hin.
    + intros _. now rewrite Fpost, Fpre.
Qed.

(** C3. [computeFlux] has the scalar-flux arrays reallocated and flattened to
    zero exactly when [only_fixed_source] is true or the iteration counter is
    0: over the whole call, [initializeFluxArrays] and [flattenFSRFluxes(0.0)]
    are called in that case and in no other, and the flux is never flattened
    to another value. In that case every region/group entry of the scalar
    flux is zero when the source iteration starts; otherwise the scalar flux
    at that point is the one the engine had when [computeFlux] was called. *)
Theorem computeFlux_initial_flux (max_iters : Z) (only_fixed_source : bool)
  (w w1 : World) :
  computeFlux_setup only_fixed_source w = (Return tt, w1) ->
  let s := solver w in
  let fresh := only_fixed_source || (_num_iterations s =? 0) in
  computeFlux max_iters only_fixed_source w = computeFlux_iterations max_iters w1 /\
  (exists d,
     trace (snd (computeFlux max_iters only_fixed_source w)) = trace w ++ d /\
     (In (Virtual V_initializeFluxArrays) d <-> fresh = true) /\
     (In (Virtual (V_flattenFSRFluxes 0%Q)) d <-> fresh = true) /\
     (forall v, In (Virtual (V_flattenFSRFluxes v)) d -> v = 0%Q)) /\
  (fresh = true ->
   _scalar_flux (solver w1)
   = Some (replicate (Z.to_nat (_num_FSRs s * _num_groups s)) 0%Q)) /\
  (fresh = false -> _scalar_flux (solver w1) = _scalar_flux s).
Proof.
  intros Hrun s fresh.
  assert (Hcont : computeFlux max_iters only_fixed_source w
                  = computeFlux_iterations max_iters w1).
  { unfold computeFlux. unfold mbind at 1, M_bind at 1, bind at 1.
    now rewrite Hrun. }
  destruct (computeFlux_setup_flux only_fixed_source w w1 Hrun)
    as ((d1 & Htr1 & Halloc & Hflat & Hzero) & Hfresh & Hkept).
  split; [exact Hcont|]. split; [|split; [exact Hfresh|exact Hkept]].
  rewrite Hcont.
  destruct (computeFlux_iterations max_iters w1) as [o w2] eqn:Hloop.
  destruct (computeFlux_iterations_quiet max_iters w1 o w2 Hloop)
    as (d2 & Htr2 & Hq2).
  exists (d1 ++ d2). cbn [snd].
  split; [now rewrite Htr2, Htr1, app_assoc|].
  split; [|split].
  - split.
    + intros Hin. apply in_app_or in Hin. destruct Hin as [Hin | Hin];
        [now apply Halloc|]. now apply quiet_not_allocation in Hin.
    + intros Hf. apply in_or_app. left. now apply Halloc.
  - split.
    + intros Hin. apply in_app_or in Hin. destruct Hin as [Hin | Hin];
        [now apply Hflat|]. now apply quiet_not_flatten in Hin.
    + intros Hf. apply in_or_app. left. now apply Hflat.
  - intros v Hin. apply in_app_or in Hin. destruct Hin as [Hin | Hin];
      [now apply Hzero|]. now apply quiet_not_flatten in Hin.
Qed.

End FluxInitialization.

(** ** Further properties of the configuration routines *)

Lemma bind_run {A C} (m : M A) (f : A -> M C) w a w0 :
  m w = (Return a, w0) -> (m ≫= f) w = f a w0.
Proof. intros H. unfold mbind, M_bind, bind. now rewrite H. Qed.

(** X1. [setGeometry] refuses a geometry that has no region yet and leaves
    the engine as it was; it binds any other geometry: the geometry is the
    one [getGeometry] returns from then on, the dimensions and the CMFD
    object are the geometry's, [_polar_times_groups] is the product of the
    group count and of the polar angle count, and nothing else changes. *)
Theorem setGeometry_requires_regions (geometry : Geometry) (w : World) :
  (geo_num_FSRs geometry = 0 ->
   setGeometry geometry w
   = (Raise (mkError ConfigurationError
        "Unable to set the Geometry for the Solver since the Geometry has not yet initialized FSRs"),
      w)) /\
  (geo_num_FSRs geometry <> 0 ->
   exists w',
     setGeometry geometry w = (Return tt, w') /\
     getGeometry (solver w') = Return geometry /\
     _num_FSRs (solver w') = geo_num_FSRs geometry /\
     _num_groups (solver w') = geo_num_groups geometry /\
     _num_materials (solver w') = geo_num_materials geometry /\
     _cmfd (solver w') = geo_cmfd geometry /\
     polar_times_groups_ok (solver w') /\
     _num_polar (solver w') = _num_polar (solver w) /\
     _track_generator (solver w') = _track_generator (solver w) /\
     _tracks (solver w') = _tracks (solver w) /\
     solution_kept w w' /\
     trace w' = trace w).
Proof.
  split.
  - intros H0. unfold setGeometry. run. rewrite H0. reflexivity.
  - intros HN. eexists. split; [apply setGeometry_with_FSRs; exact HN|].
    unfold polar_times_groups_ok, solution_kept, getGeometry. simpl.
    repeat split; reflexivity.
Qed.

(** X2. The test of [setConvergenceThreshold] is [threshold <= 0.0]. A
    number [<= 0], like minus infinity, raises and leaves the engine as it
    was. A number [> 0] is stored, is what [getConvergenceThreshold] returns
    afterwards, and changes nothing else; so a positive threshold stays
    positive whatever number is passed. NaN and plus infinity are not
    rejected, the test being false for them: the call does not raise, and
    what it stores is not a number. *)
Theorem setConvergenceThreshold_guard (w : World) :
  let rejected :=
    (Raise (mkError InvalidArgument
       "Unable to set the convergence threshold to %f since it is not a positive number"),
     w) in
  (forall x, (x <= 0)%Q -> setConvergenceThreshold (Number x) w = rejected) /\
  setConvergenceThreshold MinusInfinity w = rejected /\
  (forall x, (0 < x)%Q ->
     setConvergenceThreshold (Number x) w
     = (Return tt, mkWorld (set_converge_thresh x (solver w)) (trace w)) /\
     getConvergenceThreshold
       (solver (snd (setConvergenceThreshold (Number x) w))) = x) /\
  (forall x, (0 < getConvergenceThreshold (solver w))%Q ->
     (0 < getConvergenceThreshold
            (solver (snd (setConvergenceThreshold (Number x) w))))%Q) /\
  no_raise (fst (setConvergenceThreshold NaN w)) /\
  setConvergenceThreshold NaN w = (NonFinite, w) /\
  setConvergenceThreshold PlusInfinity w = (NonFinite, w).
Proof.
  intros rejected.
  assert (Hle : forall x, (x <= 0)%Q ->
            setConvergenceThreshold (Number x) w = rejected).
  { intros x H. apply fp_le_true in H. unfold setConvergenceThreshold. run.
    rewrite H. reflexivity. }
  assert (Hlt : forall x, (0 < x)%Q ->
     setConvergenceThreshold (Number x) w
     = (Return tt, mkWorld (set_converge_thresh x (solver w)) (trace w))).
  { intros x H. unfold setConvergenceThreshold. run.
    destruct (fp_le x 0) eqn:E; [|reflexivity].
    apply fp_le_true in E. exfalso. exact (Qlt_not_le _ _ H E). }
  split; [exact Hle|]. split; [reflexivity|]. split; [|split].
  - intros x H. rewrite (Hlt x H). split; reflexivity.
  - intros x Hpos. destruct (Qlt_le_dec 0 x) as [H|H].
    + rewrite (Hlt x H). exact H.
    + rewrite (Hle x H). exact Hpos.
  - split; [exact I|]. split; reflexivity.
Qed.

(** X3. Without a track generator each of the three solve operations
    raises a configuration error before doing anything: the engine and the
    trace are the ones of the call, nothing is logged and the timer is not
    started. *)
Theorem solve_requires_track_generator (op : solve_operation) (max_iters : Z)
  (w : World) :
  _track_generator (solver w) = None ->
  exists msg,
    solve op max_iters w = (Raise (mkError ConfigurationError msg), w).
Proof.
  intros Hno. destruct op; simpl;
    unfold computeFlux, computeFlux_setup, computeSource, computeSource_setup,
      computeEigenvalue, computeEigenvalue_setup;
    run; rewrite Hno; simpl; eexists; reflexivity.
Qed.

(** X4. With [max_iters <= 0], negative values included, a solve operation
    whose initialization returns runs no pass at all: it logs the warning,
    stops the timer and returns normally, and the iteration counter is
    [max_iters] itself, a negative number when [max_iters] is negative. *)
Theorem solve_without_passes (op : solve_operation) (max_iters : Z)
  (w w1 : World) :
  max_iters <= 0 ->
  setup_of op w = (Return tt, w1) ->
  solve op max_iters w
  = (Return tt,
     mkWorld (set_num_iterations max_iters (solver w1))
       (trace w1 ++ [Logged WARNING (warning_of op) []; TimerStop;
                     TimerRecordSplit "Total time"])) /\
  getNumIterations (solver (snd (solve op max_iters w))) = max_iters.
Proof.
  intros Hmax Hsetup.
  assert (Hrun : solve op max_iters w
    = (Return tt,
       mkWorld (set_num_iterations max_iters (solver w1))
         (trace w1 ++ [Logged WARNING (warning_of op) []; TimerStop;
                       TimerRecordSplit "Total time"]))).
  { rewrite (solve_after_setup op max_iters w w1 Hsetup).
    replace (Z.to_nat max_iters) with 0%nat by lia.
    unfold not_converged. run. now rewrite <- !app_assoc. }
  split; [exact Hrun|]. rewrite Hrun. reflexivity.
Qed.
(** X5. For a consistent track generator [setTrackGenerator] has three
    outcomes and no other. It returns, and then [getTrackGenerator] and
    [getGeometry] return the generator and its geometry. Or the generator
    has no tracks, and the error leaves the engine as it was. Or the
    generator has tracks but its geometry has no region: the error is then
    raised by [setGeometry] after the generator and its tracks have been
    bound, so that [getTrackGenerator] returns the new generator while the
    geometry and the dimensions are still the old ones. *)
Theorem setTrackGenerator_outcomes (tg : TrackGenerator) (w : World) :
  tracks_consistent tg ->
  (tg_containsTracks tg = true /\ geo_num_FSRs (tg_geometry tg) <> 0 /\
   setTrackGenerator tg w = (Return tt, mkWorld (bound_to tg (solver w)) (trace w)) /\
   getTrackGenerator (bound_to tg (solver w)) = Return tg /\
   getGeometry (bound_to tg (solver w)) = Return (tg_geometry tg)) \/
  (tg_containsTracks tg = false /\
   exists e, setTrackGenerator tg w = (Raise e, w) /\
             err_kind e = ConfigurationError) \/
  (tg_containsTracks tg = true /\ geo_num_FSRs (tg_geometry tg) = 0 /\
   exists e w',
     setTrackGenerator tg w = (Raise e, w') /\
     err_kind e = ConfigurationError /\
     getTrackGenerator (solver w') = Return tg /\
     _tracks (solver w')
     = Some (flat_tracks (Z.quot (tg_num_azim tg) 2) (tg_num_tracks_array tg)) /\
     getGeometry (solver w') = getGeometry (solver w) /\
     _num_FSRs (solver w') = _num_FSRs (solver w) /\
     _num_groups (solver w') = _num_groups (solver w) /\
     trace w' = trace w).
Proof.
  intros Hcons. destruct (tg_containsTracks tg) eqn:Hyes.
  - destruct (Z.eq_dec (geo_num_FSRs (tg_geometry tg)) 0) as [H0|HN].
    + right. right. split; [reflexivity|]. split; [exact H0|].
      eexists. eexists.
      split; [apply setTrackGenerator_geometry_without_FSRs; assumption|].
      repeat split; reflexivity.
    + left. split; [reflexivity|]. split; [exact HN|].
      split; [apply setTrackGenerator_binds; assumption|].
      split; reflexivity.
  - right. left. split; [reflexivity|]. eexists.
    split; [apply setTrackGenerator_without_tracks; assumption|reflexivity].
Qed.

(** X6. Binding a second track generator replaces the first binding
    altogether: the engine is the one that binding the second generator
    alone yields. *)
Theorem setTrackGenerator_rebinds (tg1 tg2 : TrackGenerator) (w : World) :
  tg_containsTracks tg1 = true -> tracks_consistent tg1 ->
  geo_num_FSRs (tg_geometry tg1) <> 0 ->
  tg_containsTracks tg2 = true -> tracks_consistent tg2 ->
  geo_num_FSRs (tg_geometry tg2) <> 0 ->
  (setTrackGenerator tg1;; setTrackGenerator tg2) w = setTrackGenerator tg2 w.
Proof.
  intros A1 B1 C1 A2 B2 C2.
  rewrite (bind_run _ _ w tt _ (setTrackGenerator_binds tg1 w A1 B1 C1)).
  rewrite !setTrackGenerator_binds by assumption.
  reflexivity.
Qed.

(** *** What the configuration leaves alone *)

#[local] Instance solution_kept_preorder : PreOrder solution_kept.
Proof.
  split.
  - intros w. unfold solution_kept. repeat split.
  - intros w1 w2 w3 H1 H2. unfold solution_kept in *.
    destruct H1 as (? & ? & ? & ? & ? & ? & ? & ?).
    destruct H2 as (? & ? & ? & ? & ? & ? & ? & ?).
    repeat split; congruence.
Qed.

Ltac kept_step :=
  intros ?; unfold solution_kept; simpl; repeat split; reflexivity.

(** X7. The configuration and initialization routines of the engine never
    touch the solution of a solve, whatever their outcome: the scalar
    fluxes old and new, the boundary fluxes and leakages, the fixed and
    reduced sources, the eigenvalue and the iteration counter are after the
    call what they were before. *)
Theorem configuration_keeps_solution :
  (forall geometry, preserving solution_kept (setGeometry geometry)) /\
  (forall tg, preserving solution_kept (setTrackGenerator tg)) /\
  (forall pq, preserving solution_kept (setPolarQuadrature pq)) /\
  (forall threshold, preserving solution_kept (setConvergenceThreshold threshold)) /\
  (forall fsr_id group source,
     preserving solution_kept (setFixedSourceByFSR fsr_id group source)) /\
  preserving solution_kept initializePolarQuadrature /\
  preserving solution_kept initializeExpEvaluator /\
  preserving solution_kept initializeFSRs /\
  preserving solution_kept countFissionableFSRs /\
  preserving solution_kept initializeCmfd.
Proof.
  assert (Hgeo : forall geometry, preserving solution_kept (setGeometry geometry)).
  { intros geometry. unfold setGeometry. preserve_with kept_step. }
  split; [exact Hgeo|]. split.
  { intros tg. unfold setTrackGenerator, store_track_row, store_track.
    preserve_with ltac:(first [kept_step | apply Hgeo]). }
  split. { intros pq. unfold setPolarQuadrature. preserve_with kept_step. }
  split. { intros t. unfold setConvergenceThreshold. preserve_with kept_step. }
  split. { intros r g src. unfold setFixedSourceByFSR. preserve_with kept_step. }
  split. { unfold initializePolarQuadrature, deref, store_polar_weight.
           preserve_with kept_step. }
  split. { unfold initializeExpEvaluator, deref, on_exp_evaluator.
           preserve_with kept_step. }
  split. { unfold initializeFSRs, deref, log_printf. preserve_with kept_step. }
  split. { unfold countFissionableFSRs, deref, log_printf.
           preserve_with kept_step. }
  unfold initializeCmfd, on_cmfd, deref, log_printf. preserve_with kept_step.
Qed.
(** X8. A scalar-flux query after a new track generator has been bound
    reads the flux array of the earlier solve with the dimensions of the new
    geometry: the binding keeps the array, the guards of [getFSRScalarFlux]
    use the new region and group counts, and an index that is valid for the
    new geometry but lies beyond the old array is read out of bounds. *)
Theorem getFSRScalarFlux_after_rebinding (tg : TrackGenerator) (w : World)
  (flux : list FP_PRECISION) (fsr_id group : Z) :
  tg_containsTracks tg = true -> tracks_consistent tg ->
  geo_num_FSRs (tg_geometry tg) <> 0 ->
  _scalar_flux (solver w) = Some flux ->
  0 <= fsr_id < geo_num_FSRs (tg_geometry tg) ->
  1 <= group <= geo_num_groups (tg_geometry tg) ->
  let s' := solver (snd (setTrackGenerator tg w)) in
  let index := idx2 (geo_num_groups (tg_geometry tg)) fsr_id (group - 1) in
  _scalar_flux s' = Some flux /\
  getFSRScalarFlux s' fsr_id group = array_read (Some flux) index /\
  (Z.of_nat (length flux) <= index -> getFSRScalarFlux s' fsr_id group = Undefined).
Proof.
  intros Hyes Hcons HN Hflux Hr Hg s' index. subst s'.
  rewrite (setTrackGenerator_binds tg w Hyes Hcons HN). cbn [snd solver].
  assert (Hread : getFSRScalarFlux (bound_to tg (solver w)) fsr_id group
                  = array_read (Some flux) index).
  { unfold getFSRScalarFlux, bound_to. simpl. rewrite Hflux. simpl.
    zcases. }
  split; [exact Hflux|]. split; [exact Hread|].
  intros Hout. rewrite Hread. unfold array_read.
  assert (0 <= index) by (unfold index, idx2; nia).
  replace (index <? 0) with false by zcases.
  rewrite (lookup_ge_None_2 flux (Z.to_nat index)) by lia. reflexivity.
Qed.

(** ** The derived data *)




Lemma length_weight_row weight n i p0 : length (weight_row weight n i p0) = n.
Proof. unfold weight_row. now rewrite length_map, length_seq. Qed.

Lemma length_weight_rows weight num_polar : forall n i0,
  length (weight_rows weight num_polar i0 n) = (n * num_polar)%nat.
Proof.
  induction n as [|n IH]; intros i0; simpl; [reflexivity|].
  now rewrite length_app, length_weight_row, IH.
Qed.

Lemma lookup_map_seq {A} (f : nat -> A) : forall n a j,
  (j < n)%nat -> map f (seq a n) !! j = Some (f (a + j)%nat).
Proof.
  induction n as [|n IH]; intros a [|j] H; simpl; try lia.
  - now rewrite Nat.add_0_r.
  - rewrite IH by lia. f_equal. f_equal. lia.
Qed.


Lemma set_FSR_materials_same s : set_FSR_materials (_FSR_materials s) s = s.
Proof. destruct s; reflexivity. Qed.

Lemma array_read_entry (l : list FP_PRECISION) (i : Z) :
  0 <= i < Z.of_nat (length l) ->
  array_read (Some l) i = Return (entry (Some l) i).
Proof.
  intros Hi. destruct (array_read_in_bounds l i Hi) as [x Hx].
  unfold entry. now rewrite Hx.
Qed.

(** The loop of [initializeFSRs] stores the material of each region in the
    next slot of [_FSR_materials] and logs the region. *)
Lemma fill_FSR_materials geometry volumes : forall n r0 w pre rest,
  _geometry (solver w) = Some geometry ->
  _FSR_volumes (solver w) = Some volumes ->
  _FSR_materials (solver w) = Some (pre ++ rest) ->
  r0 = Z.of_nat (length pre) ->
  (n <= length rest)%nat ->
  (length pre + n <= length volumes)%nat ->
  for_M n r0
    (fun r _ =>
       geometry ← deref _geometry;
       materials ← get _FSR_materials;
       materials' ← lift (array_write materials r (geo_findFSRMaterial geometry r));
       modify (set_FSR_materials materials');;
       materials ← get _FSR_materials;
       material ← lift (array_read materials r);
       volumes ← get _FSR_volumes;
       volume ← lift (array_read volumes r);
       log_printf DEBUG "FSR ID = %d has Material ID = %d and volume = %f "
         [ArgInt r; ArgInt (mat_id material); ArgFP volume]) tt w
  = (Return tt,
     mkWorld
       (set_FSR_materials
          (Some (pre ++ region_materials geometry r0 n ++ drop n rest))
          (solver w))
       (trace w ++ FSR_log geometry volumes r0 n)).
Proof.
  induction n as [|n IH]; intros r0 w pre rest Hgeo Hvol Hmat Hr Hn Hv.
  - simpl. unfold ret.
    rewrite drop_0, <- Hmat, set_FSR_materials_same, app_nil_r, world_eta.
    reflexivity.
  - destruct rest as [|x rest]; [simpl in Hn; lia|].
    cbn [for_M]. subst r0. set (r0 := Z.of_nat (length pre)).
    erewrite bind_run; cycle 1.
    { run. rewrite Hgeo. simpl. rewrite Hmat. unfold array_write.
      match goal with
      | |- context [if ?c then Undefined else _] =>
          replace c with false by (rewrite length_app; simpl; zcases)
      end.
      simpl. unfold r0. rewrite Nat2Z.id.
      replace (Z.of_nat (length pre) <? 0) with false by zcases.
      rewrite list_lookup_insert_eq by (rewrite length_app; simpl; lia).
      rewrite Hvol, array_read_entry by lia. simpl.
      replace (length pre) with (length pre + 0)%nat at 1 by lia.
      rewrite insert_app_r. cbn [list_insert]. reflexivity. }
    match goal with
    | |- for_M n ?r ?b ?c ?w0 = _ =>
        rewrite (IH r w0 (pre ++ [geo_findFSRMaterial geometry r0]) rest)
    end.
    + cbn [solver trace set_FSR_materials].
      unfold region_materials, FSR_log.
      assert (Hmap : forall A (f : Z -> A),
                map (fun k => f (r0 + 1 + Z.of_nat k)) (seq 0 n)
                = map (fun k => f (r0 + Z.of_nat k)) (seq 1 n)).
      { intros A f. rewrite <- seq_shift, map_map. apply map_ext.
        intros k. f_equal. lia. }
      rewrite (Hmap _ (geo_findFSRMaterial geometry)).
      rewrite (Hmap _ (fun r =>
                 Logged DEBUG "FSR ID = %d has Material ID = %d and volume = %f "
                   [ArgInt r; ArgInt (mat_id (geo_findFSRMaterial geometry r));
                    ArgFP (entry (Some volumes) r)])).
      rewrite <- !app_assoc. cbn [seq map drop app]. rewrite Z.add_0_r.
      reflexivity.
    + exact Hgeo.
    + exact Hvol.
    + cbn [solver set_FSR_materials _FSR_materials]. now rewrite <- app_assoc.
    + rewrite length_app. simpl. lia.
    + simpl in Hn. lia.
    + rewrite length_app. simpl. lia.
Qed.

Lemma length_region_materials geometry r0 n :
  length (region_materials geometry r0 n) = n.
Proof. unfold region_materials. now rewrite length_map, length_seq. Qed.
Lemma initializeFSRs_run (w : World) (tg : TrackGenerator)
  (geometry : Geometry) :
  _track_generator (solver w) = Some tg ->
  _geometry (solver w) = Some geometry ->
  0 <= _num_FSRs (solver w) <= Z.of_nat (length (tg_FSR_volumes tg)) ->
  let s := solver w in
  initializeFSRs w
  = (Return tt,
     mkWorld (with_FSRs tg geometry s)
       (trace w
        ++ Logged INFO "Initializing flat source regions..." []
           :: FSR_log geometry (tg_FSR_volumes tg) 0 (Z.to_nat (_num_FSRs s)))).
Proof.
  intros Htg Hgeo HN s.
  unfold initializeFSRs.
  erewrite bind_run by reflexivity.
  erewrite bind_run; cycle 1.
  { unfold deref. run. rewrite Htg. reflexivity. }
  repeat (erewrite bind_run by reflexivity; cbv beta).
  unfold new_array.
  match goal with
  | |- context [if ?c then Undefined else _] =>
      replace c with false by (simpl; zcases)
  end.
  repeat (erewrite bind_run by reflexivity; cbv beta).
  match goal with
  | |- for_M _ 0 _ tt ?w0 = _ =>
      rewrite (fill_FSR_materials geometry (tg_FSR_volumes tg) _ 0 w0 []
                 (replicate (Z.to_nat (_num_FSRs s)) junk_material))
  end; try reflexivity; try assumption; subst s; simpl.
  - rewrite drop_ge by (rewrite length_replicate; lia).
    unfold with_FSRs. simpl. rewrite app_nil_r, <- app_assoc. reflexivity.
  - rewrite length_replicate. lia.
  - lia.
Qed.

(** X10. [initializeFSRs] on an engine bound to a track generator and a
    geometry, the generator having a volume for each region: the volumes of
    the engine are the generator's, the fissionable count is reset, and a
    fresh material array holds for each region the material the geometry
    finds for it. Afterwards the material and the volume of every region
    [0 <= r < numFSRs] can be read. *)
Theorem initializeFSRs_fills (w : World) (tg : TrackGenerator)
  (geometry : Geometry) :
  _track_generator (solver w) = Some tg ->
  _geometry (solver w) = Some geometry ->
  0 <= _num_FSRs (solver w) <= Z.of_nat (length (tg_FSR_volumes tg)) ->
  let s := solver w in
  initializeFSRs w
  = (Return tt,
     mkWorld (with_FSRs tg geometry s)
       (trace w
        ++ Logged INFO "Initializing flat source regions..." []
           :: FSR_log geometry (tg_FSR_volumes tg) 0 (Z.to_nat (_num_FSRs s)))) /\
  forall r, 0 <= r < _num_FSRs s ->
    array_read (_FSR_materials (with_FSRs tg geometry s)) r
    = Return (geo_findFSRMaterial geometry r) /\
    getFSRVolume (with_FSRs tg geometry s) r
    = Return (entry (Some (tg_FSR_volumes tg)) r).
Proof.
  intros Htg Hgeo HN s. split.
  - exact (initializeFSRs_run w tg geometry Htg Hgeo HN).
  - intros r Hr. subst s. unfold with_FSRs, getFSRVolume.
    cbn [_FSR_materials _FSR_volumes _num_FSRs set_FSR_materials
           set_num_fissionable_FSRs set_FSR_volumes is_NULL].
    split.
    + unfold array_read. replace (r <? 0) with false by zcases.
      unfold region_materials. rewrite lookup_map_seq by lia.
      f_equal. f_equal. lia.
    + replace ((r <? 0) || (r >? _num_FSRs (solver w))) with false by zcases.
      apply array_read_entry. lia.
Qed.

Lemma set_num_fissionable_FSRs_same s :
  set_num_fissionable_FSRs (_num_fissionable_FSRs s) s = s.
Proof. destruct s; reflexivity. Qed.

(** The loop of [countFissionableFSRs] adds one to the counter for each
    fissionable material it meets. *)
Lemma count_fissionable_loop materials : forall n r0 w k,
  _FSR_materials (solver w) = Some materials ->
  r0 = Z.of_nat k ->
  (k + n <= length materials)%nat ->
  for_M n r0
    (fun r _ =>
       materials ← get _FSR_materials;
       material ← lift (array_read materials r);
       if mat_fissionable material then
         modify (fun s => set_num_fissionable_FSRs (_num_fissionable_FSRs s + 1) s)
       else ret tt) tt w
  = (Return tt,
     mkWorld
       (set_num_fissionable_FSRs
          (_num_fissionable_FSRs (solver w)
           + count_fissionable (take n (drop k materials)))
          (solver w))
       (trace w)).
Proof.
  induction n as [|n IH]; intros r0 w k Hmat Hr Hk.
  - simpl. unfold ret.
    rewrite Z.add_0_r, set_num_fissionable_FSRs_same, world_eta. reflexivity.
  - destruct (lookup_lt_is_Some_2 materials k ltac:(lia)) as [m Hm].
    rewrite (drop_S _ _ _ Hm). cbn [take count_fissionable for_M].
    assert (Hread : array_read (Some materials) r0 = Return m).
    { unfold array_read. replace (r0 <? 0) with false by zcases.
      subst r0. now rewrite Nat2Z.id, Hm. }
    destruct (mat_fissionable m) eqn:Hf.
    + erewrite bind_run; cycle 1.
      { run. rewrite Hmat, Hread. simpl. rewrite Hf. reflexivity. }
      rewrite (IH (r0 + 1) _ (S k)); [|exact Hmat|lia|lia].
      f_equal. f_equal. unfold set_num_fissionable_FSRs. simpl.
      f_equal. lia.
    + erewrite bind_run; cycle 1.
      { run. rewrite Hmat, Hread. simpl. rewrite Hf. reflexivity. }
      rewrite (IH (r0 + 1) _ (S k)); [|exact Hmat|lia|lia].
      reflexivity.
Qed.

Lemma count_fissionable_bounds materials :
  0 <= count_fissionable materials <= Z.of_nat (length materials).
Proof.
  induction materials as [|m l IH]; simpl; [lia|].
  destruct (mat_fissionable m); lia.
Qed.

Lemma countFissionableFSRs_run (w : World) (materials : list Material) :
  _geometry (solver w) <> None ->
  _FSR_materials (solver w) = Some materials ->
  0 <= _num_FSRs (solver w) <= Z.of_nat (length materials) ->
  countFissionableFSRs w
  = (Return tt,
     mkWorld
       (set_num_fissionable_FSRs
          (count_fissionable (take (Z.to_nat (_num_FSRs (solver w))) materials))
          (solver w))
       (trace w ++ [Logged INFO "Counting fissionable FSRs..." []])).
Proof.
  intros Hgeo Hmat HN. unfold countFissionableFSRs.
  destruct (_geometry (solver w)) as [g|] eqn:Eg; [|now contradiction Hgeo].
  erewrite bind_run by reflexivity.
  erewrite bind_run; cycle 1.
  { unfold deref. run. rewrite Eg. reflexivity. }
  repeat (erewrite bind_run by reflexivity; cbv beta).
  rewrite (count_fissionable_loop materials _ 0 _ 0%nat);
    [|exact Hmat|reflexivity|simpl; lia].
  rewrite drop_0. reflexivity.
Qed.

(** X11. [countFissionableFSRs] on an engine with a geometry and a material
    for each region: the counter is reset and becomes the number of regions
    [0 <= r < numFSRs] whose material is fissionable, a number between 0
    and [numFSRs]; nothing else changes. *)
Theorem countFissionableFSRs_counts (w : World)
  (materials : list Material) :
  _geometry (solver w) <> None ->
  _FSR_materials (solver w) = Some materials ->
  0 <= _num_FSRs (solver w) <= Z.of_nat (length materials) ->
  let s := solver w in
  let fissionable :=
    count_fissionable (take (Z.to_nat (_num_FSRs s)) materials) in
  countFissionableFSRs w
  = (Return tt,
     mkWorld (set_num_fissionable_FSRs fissionable s)
       (trace w ++ [Logged INFO "Counting fissionable FSRs..." []])) /\
  0 <= fissionable <= _num_FSRs s.
Proof.
  intros Hgeo Hmat HN s fissionable. split.
  - exact (countFissionableFSRs_run w materials Hgeo Hmat HN).
  - pose proof (count_fissionable_bounds
                  (take (Z.to_nat (_num_FSRs s)) materials)) as Hb.
    rewrite length_take in Hb. unfold fissionable. subst s. lia.
Qed.
(** X12. [initializeFSRs] followed by [countFissionableFSRs], as the solve
    operations call them: the fissionable count of the engine is the number
    of regions of the geometry whose material is fissionable. *)
Theorem fissionable_regions_of_geometry (w : World) (tg : TrackGenerator)
  (geometry : Geometry) :
  _track_generator (solver w) = Some tg ->
  _geometry (solver w) = Some geometry ->
  0 <= _num_FSRs (solver w) <= Z.of_nat (length (tg_FSR_volumes tg)) ->
  let regions :=
    region_materials geometry 0 (Z.to_nat (_num_FSRs (solver w))) in
  exists w',
    (initializeFSRs;; countFissionableFSRs) w = (Return tt, w') /\
    _FSR_materials (solver w') = Some regions /\
    _num_fissionable_FSRs (solver w') = count_fissionable regions /\
    0 <= _num_fissionable_FSRs (solver w') <= _num_FSRs (solver w').
Proof.
  intros Htg Hgeo HN regions.
  rewrite (bind_run _ _ w tt _ (initializeFSRs_run w tg geometry Htg Hgeo HN)).
  rewrite (countFissionableFSRs_run _ regions).
  - eexists. split; [reflexivity|].
    cbn [solver with_FSRs set_num_fissionable_FSRs set_FSR_materials
           set_FSR_volumes _FSR_materials _num_fissionable_FSRs _num_FSRs].
    assert (Htake : take (Z.to_nat (_num_FSRs (solver w))) regions = regions).
    { apply take_ge. unfold regions. now rewrite length_region_materials. }
    rewrite Htake. split; [reflexivity|]. split; [reflexivity|].
    pose proof (count_fissionable_bounds regions) as Hb.
    assert (Hlen : length regions = Z.to_nat (_num_FSRs (solver w)))
      by apply length_region_materials.
    rewrite Hlen in Hb. lia.
  - cbn [solver with_FSRs set_FSR_materials set_num_fissionable_FSRs
           set_FSR_volumes _geometry]. rewrite Hgeo. discriminate.
  - reflexivity.
  - cbn [solver with_FSRs set_FSR_materials set_num_fissionable_FSRs
           set_FSR_volumes _num_FSRs].
    unfold regions. rewrite length_region_materials. lia.
Qed.

(** ** The timer of the solve operations *)

Lemma appends_refl P w : appends P w w.
Proof. exists []. split; [now rewrite app_nil_r|constructor]. Qed.

Lemma appends_trans P w1 w2 w3 :
  appends P w1 w2 -> appends P w2 w3 -> appends P w1 w3.
Proof.
  intros (d1 & H1 & Q1) (d2 & H2 & Q2). exists (d1 ++ d2). split.
  - now rewrite H2, H1, app_assoc.
  - apply Forall_app. auto.
Qed.

#[local] Instance appends_preorder P : PreOrder (appends P).
Proof.
  split.
  - intros w. apply appends_refl.
  - intros w1 w2 w3. apply appends_trans.
Qed.

Ltac untimed_step :=
  intros ?;
  solve [ exists []; split; [simpl; now rewrite app_nil_r|constructor]
        | eexists [_]; split; [reflexivity|repeat constructor] ].

Lemma iteration_of_untimed op i :
  preserving (appends untimed) (iteration_of op i).
Proof.
  destruct op; simpl;
    unfold computeFlux_iteration, computeSource_iteration,
      computeEigenvalue_iteration, virtual, virtual_computeResidual, log_printf;
    preserve_with untimed_step.
Qed.

Lemma passes_untimed op : forall k i0 w,
  appends untimed w (passes (iteration_of op) i0 k w).
Proof.
  induction k as [|k IH]; intros i0 w; cbn [passes]; [apply appends_refl|].
  eapply appends_trans; [|apply IH].
  unfold world_after.
  destruct (iteration_of op i0 w) as [o w'] eqn:E.
  exact (iteration_of_untimed op i0 w o w' E).
Qed.
Ltac untimed_rest H :=
  cbv beta in H;
  match type of H with
  | ?m ?w0 = _ =>
      let Hp := fresh "Hp" in
      assert (Hp : preserving (appends untimed) m)
        by (unfold initializePolarQuadrature, initializeExpEvaluator,
              initializeFSRs, countFissionableFSRs, initializeCmfd, on_cmfd,
              on_exp_evaluator, deref, store_polar_weight, virtual, log_printf;
            preserve_with untimed_step);
      apply Hp in H
  end.

(** The initialization of a solve operation either raises at once, or logs
    its banner, clears and starts the timer, and does not call the timer
    again. *)
Lemma setup_of_trace op w o w1 :
  setup_of op w = (o, w1) ->
  ((exists e, o = Raise e) /\ w1 = w) \/
  (exists d,
     trace w1
     = trace w ++ [Logged NORMAL (banner_of op) [];
                   TimerClearSplit "Total time"; TimerStart] ++ d /\
     Forall untimed d).
Proof.
  intros H.
  assert (Hstart : forall w0 : World,
            trace w0 = ((trace w ++ [Logged NORMAL (banner_of op) []])
                        ++ [TimerClearSplit "Total time"]) ++ [TimerStart] ->
            appends untimed w0 w1 ->
            exists d,
              trace w1
              = trace w ++ [Logged NORMAL (banner_of op) [];
                            TimerClearSplit "Total time"; TimerStart] ++ d /\
              Forall untimed d).
  { intros w0 H0 (d & Hd & Hu). exists d. split; [|exact Hu].
    rewrite Hd, H0, <- !app_assoc. reflexivity. }
  destruct op as [only_fixed_source|k_eff res_type|res_type]; simpl in H.
  - unfold computeFlux_setup in H.
    erewrite bind_run in H by reflexivity. cbv beta in H.
    destruct (_track_generator (solver w)) as [tg|]; cbn [is_NULL] in H.
    + do 4 (erewrite bind_run in H by reflexivity).
      untimed_rest H. right. eapply Hstart; [|exact H]. reflexivity.
    + left. injection H as <- <-. split; [eexists; reflexivity|reflexivity].
  - unfold computeSource_setup in H.
    erewrite bind_run in H by reflexivity. cbv beta in H.
    destruct (_track_generator (solver w)) as [tg|]; cbn [is_NULL] in H.
    + destruct (fp_le k_eff 0).
      * left. injection H as <- <-. split; [eexists; reflexivity|reflexivity].
      * do 4 (erewrite bind_run in H by reflexivity).
        untimed_rest H. right. eapply Hstart; [|exact H]. reflexivity.
    + left. injection H as <- <-. split; [eexists; reflexivity|reflexivity].
  - unfold computeEigenvalue_setup in H.
    erewrite bind_run in H by reflexivity. cbv beta in H.
    destruct (_track_generator (solver w)) as [tg|]; cbn [is_NULL] in H.
    + do 4 (erewrite bind_run in H by reflexivity).
      untimed_rest H. right. eapply Hstart; [|exact H]. reflexivity.
    + left. injection H as <- <-. split; [eexists; reflexivity|reflexivity].
Qed.

(** X13. The timer of a solve operation. A call that returns has logged its
    banner, cleared and started the timer once at its beginning, stopped it
    and recorded the split "Total time" once at its very end, and not
    called the timer in between. A call that does not return either was
    refused before anything was logged, or has started the timer and never
    stopped it. *)
Theorem solve_timer_bracket (op : solve_operation) (max_iters : Z)
  (w w' : World) (o : outcome unit) :
  solve op max_iters w = (o, w') ->
  let start := [Logged NORMAL (banner_of op) [];
                TimerClearSplit "Total time"; TimerStart] in
  match o with
  | Return _ =>
      exists d,
        trace w'
        = trace w ++ start ++ d ++ [TimerStop; TimerRecordSplit "Total time"] /\
        Forall untimed d
  | _ =>
      w' = w \/
      exists d, trace w' = trace w ++ start ++ d /\ Forall untimed d
  end.
Proof.
  intros Hrun start.
  destruct (setup_of op w) as [o1 w1] eqn:Hsetup.
  pose proof (setup_of_trace op w o1 w1 Hsetup) as Htrace.
  destruct o1 as [[]|e| |].
  - (* the initialization returned: the loop decides *)
    destruct Htrace as [[[e He] _]|(d & Hd & Hu)]; [discriminate|].
    rewrite (solve_after_setup op max_iters w w1 Hsetup) in Hrun.
    destruct (for_return_passes (iteration_of op) (iteration_of_total op)
                (Z.to_nat max_iters) 0 w1)
      as [(k & _ & _ & _ & Hloop) | [_ Hloop]];
      rewrite (bind_run _ _ _ _ _ Hloop) in Hrun.
    + injection Hrun as <- <-.
      set (before := passes (iteration_of op) 0 k w1).
      destruct (passes_untimed op k 0 w1) as (d1 & Hd1 & Hu1). fold before in Hd1.
      destruct (iteration_of op (0 + Z.of_nat k) before) as [o2 w2] eqn:Hpass.
      destruct (iteration_of_untimed op _ _ _ _ Hpass) as (d2 & Hd2 & Hu2).
      exists (d ++ d1 ++ d2). split.
      * unfold success_world, world_after. rewrite Hpass. cbn [trace snd].
        rewrite Hd2, Hd1, Hd. fold start. now rewrite <- !app_assoc.
      * repeat (apply Forall_app; split); assumption.
    + unfold not_converged in Hrun. run. injection Hrun as <- <-.
      destruct (passes_untimed op (Z.to_nat max_iters) 0 w1) as (d1 & Hd1 & Hu1).
      exists (d ++ d1 ++ [Logged WARNING (warning_of op) []]). split.
      * cbn [trace]. rewrite Hd1, Hd. fold start. now rewrite <- !app_assoc.
      * repeat (apply Forall_app; split); try assumption.
        repeat constructor.
  - (* the initialization raised *)
    assert (Hsolve : solve op max_iters w = (Raise e, w1)).
    { destruct op; simpl in *;
        unfold computeFlux, computeSource, computeEigenvalue;
        unfold mbind at 1, M_bind at 1, bind at 1; rewrite Hsetup; reflexivity. }
    rewrite Hsolve in Hrun. injection Hrun as <- <-.
    destruct Htrace as [[_ ->]|Hd]; [now left|right; exact Hd].
  - assert (Hsolve : solve op max_iters w = (Undefined, w1)).
    { destruct op; simpl in *;
        unfold computeFlux, computeSource, computeEigenvalue;
        unfold mbind at 1, M_bind at 1, bind at 1; rewrite Hsetup; reflexivity. }
    rewrite Hsolve in Hrun. injection Hrun as <- <-.
    destruct Htrace as [[_ ->]|Hd]; [now left|right; exact Hd].
  - assert (Hsolve : solve op max_iters w = (NonFinite, w1)).
    { destruct op; simpl in *;
        unfold computeFlux, computeSource, computeEigenvalue;
        unfold mbind at 1, M_bind at 1, bind at 1; rewrite Hsetup; reflexivity. }
    rewrite Hsolve in Hrun. injection Hrun as <- <-.
    destruct Htrace as [[_ ->]|Hd]; [now left|right; exact Hd].
Qed.

(** ** The polar quadrature and the product [_polar_times_groups] *)

Lemma setGeometry_establishes_product geometry w w' :
  setGeometry geometry w = (Return tt, w') ->
  polar_times_groups_ok (solver w').
Proof.
  intros H. destruct (Z.eq_dec (geo_num_FSRs geometry) 0) as [H0|HN].
  - unfold setGeometry, mbind, M_bind, bind, log_error, raise in H.
    rewrite H0 in H. simpl in H. discriminate.
  - rewrite (setGeometry_with_FSRs geometry w HN) in H.
    injection H as <-. reflexivity.
Qed.

Lemma int_wrap_small z : - 2 ^ 31 <= z < 2 ^ 31 -> int_wrap z = z.
Proof. intros H. unfold int_wrap. rewrite Z.mod_small by lia. lia. Qed.

Lemma int_wrap_range z : - 2 ^ 31 <= int_wrap z < 2 ^ 31.
Proof.
  unfold int_wrap.
  pose proof (Z.mod_pos_bound (z + 2 ^ 31) (2 ^ 32) ltac:(lia)). lia.
Qed.

(** X14. Every routine of the engine that changes the number of groups or
    the number of polar angles refreshes [_polar_times_groups]: whenever
    [setGeometry], [setTrackGenerator], [setPolarQuadrature] or
    [initializePolarQuadrature] returns, [_polar_times_groups] is the
    product of [_num_groups] and [_num_polar] as [int] computes it: the
    product itself when it fits an [int], its wrap-around otherwise. After
    [setPolarQuadrature] the number of polar angles of the engine is the one
    of the quadrature, which is marked as the user's. *)
Theorem polar_times_groups_maintained (w w' : World) :
  (forall geometry,
     setGeometry geometry w = (Return tt, w') ->
     polar_times_groups_ok (solver w')) /\
  (forall tg,
     setTrackGenerator tg w = (Return tt, w') ->
     polar_times_groups_ok (solver w')) /\
  (forall pq,
     setPolarQuadrature pq w = (Return tt, w') ->
     polar_times_groups_ok (solver w') /\
     getNumPolarAngles (solver w') = pq_getNumPolarAngles pq /\
     _polar_quad (solver w') = pq /\
     _user_polar_quad (solver w') = true) /\
  (initializePolarQuadrature w = (Return tt, w') ->
   polar_times_groups_ok (solver w') /\
   getNumPolarAngles (solver w') = getNumPolarAngles (solver w)) /\
  (polar_times_groups_ok (solver w') ->
   - 2 ^ 31 <= _polar_times_groups (solver w') < 2 ^ 31 /\
   (- 2 ^ 31 <= _num_groups (solver w') * _num_polar (solver w') < 2 ^ 31 ->
    _polar_times_groups (solver w')
    = _num_groups (solver w') * _num_polar (solver w'))).
Proof.
  split; [|split; [|split; [|split]]]; cycle 4.
  { unfold polar_times_groups_ok, int_mul. intros ->.
    split; [apply int_wrap_range|apply int_wrap_small]. }
  - intros geometry. apply setGeometry_establishes_product.
  - intros tg H. unfold setTrackGenerator in H.
    do 9 (apply bind_inv in H as (? & ? & _ & H); cbv beta zeta in H).
    exact (setGeometry_establishes_product _ _ _ H).
  - intros pq H. unfold setPolarQuadrature, mbind, M_bind, bind, modify in H.
    simpl in H. injection H as <-. repeat split.
  - intros H. unfold initializePolarQuadrature in H.
    apply bind_inv in H as (tg & w0 & H0 & H).
    assert (w0 = w) as ->.
    { unfold deref, mbind, M_bind, bind, get, ret, lift in H0. simpl in H0.
      destruct (_track_generator (solver w)); [|discriminate].
      now injection H0 as _ <-. }
    do 6 (erewrite bind_run in H by reflexivity). cbv beta in H.
    match type of H with
    | ?m ?w5 = _ =>
        assert (Hp : preserving
                       (fun a b =>
                          _polar_times_groups (solver b) = _polar_times_groups (solver a) /\
                          _num_groups (solver b) = _num_groups (solver a) /\
                          _num_polar (solver b) = _num_polar (solver a)) m)
    end.
    { assert (PreOrder
                (fun a b : World =>
                   _polar_times_groups (solver b) = _polar_times_groups (solver a) /\
                   _num_groups (solver b) = _num_groups (solver a) /\
                   _num_polar (solver b) = _num_polar (solver a))).
      { split.
        - intros a. repeat split.
        - intros a b c (? & ? & ?) (? & ? & ?). repeat split; congruence. }
      unfold store_polar_weight.
      preserve_with ltac:(intros ?; simpl; repeat split; reflexivity). }
    apply Hp in H. cbn [solver] in H. destruct H as (Hptg & Hg & Hp').
    unfold polar_times_groups_ok, getNumPolarAngles.
    rewrite Hptg, Hg, Hp'. split; reflexivity.
Qed.

(** X15. When the scalar flux has the size of the problem, the guards of
    [getFSRScalarFlux] are enough: for a region in [[0,numFSRs)] and a group
    in [[1,numGroups]] the read is inside the array and the query returns the
    entry of row [fsr_id] and column [group - 1]. *)
Theorem getFSRScalarFlux_reads_in_bounds (s : Solver)
  (flux : list FP_PRECISION) (fsr_id group : Z) :
  _scalar_flux s = Some flux ->
  length flux = Z.to_nat (_num_FSRs s * _num_groups s) ->
  0 <= fsr_id < _num_FSRs s -> 1 <= group <= _num_groups s ->
  exists phi,
    flux !! Z.to_nat (fsr_id * _num_groups s + (group - 1)) = Some phi /\
    getFSRScalarFlux s fsr_id group = Return phi.
Proof.
  intros Hflux Hlen Hr Hg.
  assert (Hi : 0 <= idx2 (_num_groups s) fsr_id (group - 1)
               < Z.of_nat (length flux)).
  { pose proof (idx2_in_bounds (_num_groups s) (_num_FSRs s) fsr_id (group - 1)).
    rewrite Hlen. lia. }
  destruct (lookup_lt_is_Some_2 flux
              (Z.to_nat (idx2 (_num_groups s) fsr_id (group - 1))))
    as [phi Hphi]; [lia|].
  exists phi. split; [exact Hphi|].
  unfold getFSRScalarFlux. zcases. rewrite Hflux. cbn [is_NULL].
  unfold array_read.
  replace (idx2 (_num_groups s) fsr_id (group - 1) <? 0) with false by zcases.
  now rewrite Hphi.
Qed.
(** ** Construction *)

(** X16. The constructor without a track generator always returns, and
    yields an engine without regions, groups, tracks or arrays, with three
    polar angles, a convergence threshold of [1E-5] and an iteration counter
    of zero; [_k_eff] and [_tot_num_tracks] are not assigned. On that engine
    [getGeometry] and [getTrackGenerator] raise a configuration error, and
    every flux query, source query and fixed-source assignment raises a
    range error, whatever the region and the group. *)
Theorem Solver_constructor_defaults (new_ExpEvaluator : ExpEvaluator)
  (new_TYPolarQuad : PolarQuad) (raw : World) :
  let s := constructed new_ExpEvaluator new_TYPolarQuad (solver raw) in
  Solver_constructor new_ExpEvaluator new_TYPolarQuad None raw
  = (Return tt, mkWorld s (trace raw)) /\
  (exists e, getGeometry s = Raise e /\ err_kind e = ConfigurationError) /\
  (exists e, getTrackGenerator s = Raise e /\ err_kind e = ConfigurationError) /\
  (getConvergenceThreshold s == 1 # 100000)%Q /\
  forall fsr_id group source,
    is_range_error (getFSRScalarFlux s fsr_id group) = true /\
    is_range_error (getFSRSource s fsr_id group) = true /\
    is_range_error
      (fst (setFixedSourceByFSR fsr_id group source (mkWorld s (trace raw))))
    = true.
Proof.
  intros s. split; [|split; [|split; [|split]]].
  - unfold Solver_constructor.
    repeat (erewrite bind_run by reflexivity; cbn [solver trace]).
    reflexivity.
  - eexists. split; reflexivity.
  - eexists. split; reflexivity.
  - reflexivity.
  - intros fsr_id group source. split; [|split].
    + unfold getFSRScalarFlux. simpl. zcases.
    + unfold getFSRSource. simpl. zcases.
    + unfold setFixedSourceByFSR. run. zcases.
Qed.

(** The polar defaults of the constructor on three polar angles: zero is
    the [int] product of the group count and 3 only when there is no group. *)
Lemma int_mul_three_zero g :
  - 2 ^ 31 <= g < 2 ^ 31 -> (0 = int_mul g 3 <-> g = 0).
Proof.
  intros Hg. unfold int_mul, int_wrap. split.
  - intros H.
    pose proof (Z.div_mod (g * 3 + 2 ^ 31) (2 ^ 32) ltac:(lia)) as Hdm.
    pose proof (Z.mod_pos_bound (g * 3 + 2 ^ 31) (2 ^ 32) ltac:(lia)) as Hb.
    set (q := (g * 3 + 2 ^ 31) / 2 ^ 32) in *.
    set (r := (g * 3 + 2 ^ 31) mod 2 ^ 32) in *.
    lia.
  - intros ->. reflexivity.
Qed.

(** X17. The constructor with a track generator binds it before it assigns
    the polar defaults. With a generator that has no tracks it raises a
    configuration error, whatever else the generator holds. With a
    generator that has tracks and whose track counts are consistent: if
    its geometry has no region the constructor raises a configuration
    error; otherwise it returns an engine bound to the generator and its
    geometry, with three polar angles, an iteration counter of zero, and
    [_polar_times_groups] left at zero, which is the [int] product of the
    group count and of the polar angle count only for a geometry without
    groups. *)
Theorem Solver_constructor_binds_generator (new_ExpEvaluator : ExpEvaluator)
  (new_TYPolarQuad : PolarQuad) (tg : TrackGenerator) (raw : World) :
  (tg_containsTracks tg = false ->
   exists e w',
     Solver_constructor new_ExpEvaluator new_TYPolarQuad (Some tg) raw
     = (Raise e, w') /\
     err_kind e = ConfigurationError /\
     _track_generator (solver w') = None /\
     trace w' = trace raw) /\
  (tg_containsTracks tg = true -> tracks_consistent tg ->
   (geo_num_FSRs (tg_geometry tg) = 0 ->
    exists e w',
      Solver_constructor new_ExpEvaluator new_TYPolarQuad (Some tg) raw
      = (Raise e, w') /\
      err_kind e = ConfigurationError /\
      _track_generator (solver w') = Some tg /\
      _geometry (solver w') = None) /\
   (geo_num_FSRs (tg_geometry tg) <> 0 ->
    exists w',
      Solver_constructor new_ExpEvaluator new_TYPolarQuad (Some tg) raw
      = (Return tt, w') /\
      getTrackGenerator (solver w') = Return tg /\
      getGeometry (solver w') = Return (tg_geometry tg) /\
      _num_FSRs (solver w') = geo_num_FSRs (tg_geometry tg) /\
      _num_groups (solver w') = geo_num_groups (tg_geometry tg) /\
      _tracks (solver w')
      = Some (flat_tracks (Z.quot (tg_num_azim tg) 2) (tg_num_tracks_array tg)) /\
      getNumPolarAngles (solver w') = 3 /\
      getNumIterations (solver w') = 0 /\
      _polar_times_groups (solver w') = 0 /\
      (- 2 ^ 31 <= geo_num_groups (tg_geometry tg) < 2 ^ 31 ->
       (polar_times_groups_ok (solver w')
        <-> geo_num_groups (tg_geometry tg) = 0)) /\
      trace w' = trace raw)).
Proof.
  split.
  - intros Hno. unfold Solver_constructor.
    do 19 (erewrite bind_run by reflexivity; cbn [solver trace]).
    unfold mbind at 1, M_bind at 1, bind at 1.
    rewrite setTrackGenerator_without_tracks by assumption.
    eexists. eexists. repeat split; reflexivity.
  - intros Hyes Hcons. split.
    + intros H0. unfold Solver_constructor.
      do 19 (erewrite bind_run by reflexivity; cbn [solver trace]).
      unfold mbind at 1, M_bind at 1, bind at 1.
      rewrite setTrackGenerator_geometry_without_FSRs by assumption.
      eexists. eexists. repeat split; reflexivity.
    + intros HN. unfold Solver_constructor.
      do 19 (erewrite bind_run by reflexivity; cbn [solver trace]).
      erewrite bind_run; [|apply setTrackGenerator_binds; assumption].
      repeat (erewrite bind_run by reflexivity; cbn [solver trace]).
      eexists. split; [reflexivity|].
      unfold polar_times_groups_ok, getNumPolarAngles, getNumIterations.
      cbn [solver trace].
      repeat (split; [reflexivity|]). split; [|reflexivity].
      intros Hg.
      change (0 = int_mul (geo_num_groups (tg_geometry tg)) 3
              <-> geo_num_groups (tg_geometry tg) = 0).
      apply int_mul_three_zero. exact Hg.
Qed.

(** ** The CMFD accelerator *)

(** X19. [initializeCmfd] dereferences the CMFD object without testing it:
    on an engine without one it runs into undefined behaviour right after
    its log line. The test that [computeEigenvalue] puts before the call
    makes it safe: the guarded call always returns; it leaves the engine
    and the trace alone when there is no CMFD object or its flux update is
    off, and otherwise hands the region count, the volumes, the materials,
    the scalar flux and the polar quadrature of the engine to the CMFD
    object, in this order, and initializes its surface currents. *)
Theorem initializeCmfd_guarded (w : World) :
  let s := solver w in
  (_cmfd s = None ->
   initializeCmfd w
   = (Undefined, mkWorld s (trace w ++ [Logged INFO "Initializing CMFD..." []]))) /\
  (cmfd_flux_update_on s = false ->
   (update_on ← get cmfd_flux_update_on;
    if (update_on : bool) then initializeCmfd else ret tt) w
   = (Return tt, w)) /\
  (forall cmfd,
     _cmfd s = Some cmfd -> cmfd_isFluxUpdateOn cmfd = true ->
     (update_on ← get cmfd_flux_update_on;
      if (update_on : bool) then initializeCmfd else ret tt) w
     = (Return tt,
        mkWorld
          (set_cmfd
             (Some (cmfd_initializeSurfaceCurrents
                      (cmfd_setPolarQuadrature (_polar_quad s)
                         (cmfd_setFSRFluxes (_scalar_flux s)
                            (cmfd_setFSRMaterials (_FSR_materials s)
                               (cmfd_setFSRVolumes (_FSR_volumes s)
                                  (cmfd_setNumFSRs (_num_FSRs s) cmfd)))))))
             s)
          (trace w
           ++ [Logged INFO "Initializing CMFD..." [];
               Cmfd_call "setNumFSRs"; Cmfd_call "setFSRVolumes";
               Cmfd_call "setFSRMaterials"; Cmfd_call "setFSRFluxes";
               Cmfd_call "setPolarQuadrature";
               Cmfd_call "initializeSurfaceCurrents"]))).
Proof.
  intros s. subst s. split; [|split].
  - intros Hno. unfold initializeCmfd, on_cmfd.
    erewrite bind_run by reflexivity.
    unfold mbind at 1, M_bind at 1, bind at 1.
    unfold mbind at 1, M_bind at 1, bind at 1.
    unfold deref at 1. run. rewrite Hno. reflexivity.
  - intros Hoff. erewrite bind_run by reflexivity. cbv beta.
    rewrite Hoff. destruct w; reflexivity.
  - intros cmfd Hc Hon. erewrite bind_run by reflexivity. cbv beta.
    unfold cmfd_flux_update_on. rewrite Hc, Hon.
    unfold initializeCmfd, on_cmfd.
    erewrite bind_run by reflexivity. cbn [solver trace].
    erewrite bind_run; cycle 1.
    { erewrite bind_run; cycle 1.
      { unfold deref. run. rewrite Hc. reflexivity. }
      erewrite bind_run by reflexivity. reflexivity. }
    cbn [solver trace].
    do 4 (erewrite bind_run;
          [|erewrite bind_run by reflexivity;
            erewrite bind_run by reflexivity; reflexivity];
          cbn [solver trace set_cmfd _cmfd _num_FSRs _FSR_volumes
                 _FSR_materials _scalar_flux _polar_quad]).
    erewrite bind_run by reflexivity.
    erewrite bind_run by reflexivity.
    unfold modify. cbn [solver trace set_cmfd _cmfd _num_FSRs _FSR_volumes
                          _FSR_materials _scalar_flux _polar_quad].
    rewrite <- !app_assoc. reflexivity.
Qed.
End Properties.

(** * The properties on the concrete engine *)

Module DemoRuns.
Import Demo.
#[local] Existing Instance ext.
#[local] Existing Instance backend.

Lemma map_const_replicate {A C} (v : C) (x : A) n :
  map (fun _ => v) (replicate n x) = replicate n v.
Proof. induction n as [|n IH]; simpl; [reflexivity|now rewrite IH]. Qed.

Lemma backend_contract : BackendContract.
Proof.
  split; intros; simpl; try reflexivity.
  - unfold flux_size. now rewrite map_const_replicate.
  - destruct (is_NULL (_fixed_sources s)); reflexivity.
Defined.

Lemma solve_loop_termination_witness :
  0 <= 10 /\
  setup_of (Flux true) loose_world
  = (Return tt, snd (setup_of (Flux true) loose_world)) /\
  (exists k : nat,
     1 < Z.of_nat k < 10 /\
     getNumIterations (solver (snd (solve (Flux true) 10 loose_world)))
     = Z.of_nat k) /\
  0 <= 3 /\
  setup_of (Eigenvalue FISSION_SOURCE) attached_world
  = (Return tt, snd (setup_of (Eigenvalue FISSION_SOURCE) attached_world)) /\
  getNumIterations
    (solver (snd (solve (Eigenvalue FISSION_SOURCE) 3 attached_world))) = 3.
Proof.
  assert (H1 : 0 <= 10) by lia.
  assert (H2 : setup_of (Flux true) loose_world
               = (Return tt, snd (setup_of (Flux true) loose_world)))
    by (vm_compute; reflexivity).
  assert (H3 : 0 <= 3) by lia.
  assert (H4 : setup_of (Eigenvalue FISSION_SOURCE) attached_world
               = (Return tt,
                  snd (setup_of (Eigenvalue FISSION_SOURCE) attached_world)))
    by (vm_compute; reflexivity).
  split; [exact H1|]. split; [exact H2|]. split.
  - destruct (solve_loop_termination (Flux true) 10 loose_world _ H1 H2)
      as [(k & Hk & _ & _ & Hrun & Hn) | (Hnone & _)].
    + exists k. split; [exact Hk|]. rewrite Hrun. exact Hn.
    + specialize (Hnone 2%nat ltac:(lia)). vm_compute in Hnone. discriminate.
  - split; [exact H3|]. split; [exact H4|].
    destruct (solve_loop_termination (Eigenvalue FISSION_SOURCE) 3
                attached_world _ H3 H4)
      as [(k & Hk & Hres & _) | (_ & Hrun & Hn & _)].
    + assert (k = 2%nat) as -> by lia. vm_compute in Hres. discriminate.
    + rewrite Hrun. exact Hn.
Defined.

Lemma getFSRSource_formula_witness :
  arrays_ready solved /\
  0 <= 1 < _num_FSRs solved /\
  1 <= 2 <= _num_groups solved /\
  fission_divisor_nonzero solved 1 2 /\
  exists material v,
    array_read (_FSR_materials solved) 1 = Return material /\
    getFSRSource solved 1 2 = Return v /\
    (v == spec_FSRSource solved material 1 2)%Q.
Proof.
  assert (H1 : arrays_ready solved).
  { split; [split; [|split; [|split]]|].
    - vm_compute. discriminate.
    - vm_compute. discriminate.
    - eexists. split; reflexivity.
    - eexists. split; reflexivity.
    - eexists. split; reflexivity. }
  assert (H2 : 0 <= 1 < _num_FSRs solved) by (vm_compute; split; [discriminate|reflexivity]).
  assert (H3 : 1 <= 2 <= _num_groups solved) by (vm_compute; split; discriminate).
  assert (H4 : fission_divisor_nonzero solved 1 2).
  { intros material Hm _ Hzero. vm_compute in Hm. injection Hm as <-.
    vm_compute in Hzero. discriminate. }
  split; [exact H1|]. split; [exact H2|]. split; [exact H3|].
  split; [exact H4|].
  exact (getFSRSource_formula solved 1 2 H1 H2 H3 H4).
Defined.

Lemma computeFlux_initial_flux_witness :
  computeFlux_setup true attached_world
  = (Return tt, snd (computeFlux_setup true attached_world)) /\
  _scalar_flux (solver (snd (computeFlux_setup true attached_world)))
  = Some (replicate 4 0%Q) /\
  computeFlux_setup false solved_world
  = (Return tt, snd (computeFlux_setup false solved_world)) /\
  _scalar_flux (solver (snd (computeFlux_setup false solved_world)))
  = _scalar_flux solved.
Proof.
  assert (H1 : computeFlux_setup true attached_world
               = (Return tt, snd (computeFlux_setup true attached_world)))
    by (vm_compute; reflexivity).
  assert (H2 : computeFlux_setup false solved_world
               = (Return tt, snd (computeFlux_setup false solved_world)))
    by (vm_compute; reflexivity).
  destruct (computeFlux_initial_flux (BC := backend_contract) 10 true
              attached_world _ H1) as (_ & _ & Hfresh & _).
  destruct (computeFlux_initial_flux (BC := backend_contract) 10 false
              solved_world _ H2) as (_ & _ & _ & Hkept).
  split; [exact H1|]. split; [exact (Hfresh eq_refl)|].
  split; [exact H2|]. apply Hkept. vm_compute. reflexivity.
Defined.

Lemma pair_index_range_errors_witness :
  is_range_error (getFSRScalarFlux attached 2 1) = true /\
  is_range_error (getFSRSource attached 0 3) = true /\
  is_range_error (fst (setFixedSourceByFSR (-1) 1 5%Q attached_world)) = true /\
  setFixedSourceByFSR 1 2 5%Q attached_world = (Return tt, attached_world) /\
  is_not_ready (getFSRScalarFlux attached 1 2) = true /\
  is_not_ready (getFSRSource attached 1 2) = true.
Proof.
  pose proof (pair_index_range_errors attached_world 2 1 5%Q) as Ha.
  pose proof (pair_index_range_errors attached_world 0 3 5%Q) as Hb.
  pose proof (pair_index_range_errors attached_world (-1) 1 5%Q) as Hc.
  pose proof (pair_index_range_errors attached_world 1 2 5%Q) as Hd.
  cbv zeta in Ha, Hb, Hc, Hd.
  destruct Ha as (Ha & _). destruct Hb as (_ & Hb & _).
  destruct Hc as (_ & _ & Hc & _).
  destruct Hd as (_ & _ & _ & Hok & Hnr1 & Hnr2 & _).
  split; [exact Ha|]. split; [exact Hb|]. split; [exact Hc|].
  split; [exact (Hok eq_refl)|]. split; [exact Hnr1|exact Hnr2].
Defined.

Lemma computeSource_rejects_nonpositive_keff_witness :
  (-1 <= 0)%Q /\
  _track_generator (solver attached_world) <> None /\
  computeSource 100 (-1)%Q TOTAL_SOURCE attached_world
  = (Raise (mkError InvalidArgument
       "The Solver is unable to compute the source with keff = %f since it is not a positive value"),
     attached_world).
Proof.
  assert (H1 : (-1 <= 0)%Q) by (vm_compute; discriminate).
  assert (H2 : _track_generator (solver attached_world) <> None)
    by (vm_compute; discriminate).
  split; [exact H1|]. split; [exact H2|].
  destruct (computeSource_rejects_nonpositive_keff attached_world 100 (-1)%Q
              TOTAL_SOURCE H1) as (e & Hrun & He).
  rewrite Hrun, (He H2). reflexivity.
Defined.

Lemma setTrackGenerator_binds_only_with_tracks_witness :
  tg_containsTracks track_generator = true /\
  tracks_consistent track_generator /\
  geo_num_FSRs (tg_geometry track_generator) <> 0 /\
  setTrackGenerator track_generator fresh_world
  = (Return tt, mkWorld (bound_to track_generator fresh) []) /\
  _tracks (bound_to track_generator fresh)
  = Some [(0, 0); (0, 1); (1, 0); (1, 1); (1, 2)] /\
  tg_containsTracks no_tracks = false /\
  setTrackGenerator no_tracks attached_world
  = (Raise (mkError ConfigurationError
       "Unable to set the TrackGenerator for the Solver since the TrackGenerator has not yet generated tracks"),
     attached_world).
Proof.
  assert (H1 : tg_containsTracks track_generator = true) by reflexivity.
  assert (H2 : tracks_consistent track_generator)
    by (split; vm_compute; [lia|reflexivity]).
  assert (H3 : geo_num_FSRs (tg_geometry track_generator) <> 0)
    by (vm_compute; discriminate).
  assert (H4 : tg_containsTracks no_tracks = false) by reflexivity.
  destruct (setTrackGenerator_binds_only_with_tracks track_generator fresh_world)
    as (_ & _ & Hbind).
  destruct (Hbind H1 H2 H3) as (Hrun & _).
  destruct (setTrackGenerator_binds_only_with_tracks no_tracks attached_world)
    as (Hfail & _).
  split; [exact H1|]. split; [exact H2|]. split; [exact H3|].
  split; [exact Hrun|]. split; [reflexivity|]. split; [exact H4|].
  exact (Hfail H4).
Defined.

Lemma initializeExpEvaluator_reconciles_witness :
  exp_interpolate (_exp_evaluator attached) = true /\
  _track_generator attached = Some track_generator /\
  (exists w',
     initializeExpEvaluator attached_world = (Return tt, w') /\
     exp_max_optical_length (_exp_evaluator (solver w')) = 7%Q /\
     trace w' = [Exp_setPolarQuadrature; TG_splitSegments 7%Q;
                 Exp_setMaxOpticalLength 7%Q; Exp_initialize]) /\
  exp_interpolate (_exp_evaluator (solver intrinsic_world)) = false /\
  trace (snd (initializeExpEvaluator intrinsic_world)) = [Exp_setPolarQuadrature].
Proof.
  assert (H1 : exp_interpolate (_exp_evaluator attached) = true) by reflexivity.
  assert (H2 : _track_generator attached = Some track_generator) by reflexivity.
  assert (H3 : exp_interpolate (_exp_evaluator (solver intrinsic_world)) = false)
    by reflexivity.
  pose proof (initializeExpEvaluator_reconciles attached_world) as Ha.
  pose proof (initializeExpEvaluator_reconciles intrinsic_world) as Hb.
  cbv zeta in Ha, Hb. destruct Ha as (Ha & _). destruct Hb as (_ & Hb).
  destruct (Ha H1 track_generator H2) as (_ & _ & _ & w' & Hrun & Hmax & _ & _ & Htr).
  split; [exact H1|]. split; [exact H2|]. split.
  - exists w'. split; [exact Hrun|]. split; [exact Hmax|exact Htr].
  - split; [exact H3|]. rewrite (Hb H3). reflexivity.
Defined.

Lemma getFSRVolume_guard_off_by_one_witness :
  0 <= _num_FSRs solved /\
  _FSR_volumes solved = Some [1%Q; 3%Q] /\
  is_range_error (getFSRVolume solved 2) = false /\
  getFSRVolume solved 2 = Undefined /\
  is_range_error (getFSRVolume solved 3) = true /\
  is_range_error (getFSRScalarFlux solved 2 1) = true /\
  is_range_error (getFSRSource solved 2 1) = true.
Proof.
  assert (H1 : 0 <= _num_FSRs solved) by (vm_compute; discriminate).
  assert (H2 : _FSR_volumes solved = Some [1%Q; 3%Q]) by reflexivity.
  pose proof (getFSRVolume_guard_off_by_one solved 2 1) as Ha.
  pose proof (getFSRVolume_guard_off_by_one solved 3 1) as Hb.
  cbv zeta in Ha, Hb.
  destruct Ha as (Ha & _ & _ & Hpast & Hflux & Hsrc). destruct Hb as (Hb & _).
  split; [exact H1|]. split; [exact H2|]. split; [exact Ha|].
  split; [exact (Hpast _ H1 H2 eq_refl)|]. split; [exact Hb|].
  split; [exact Hflux|exact Hsrc].
Defined.

Lemma setFixedSourceByFSR_stores_witness :
  0 <= 1 < _num_FSRs (solver solved_world) /\
  1 <= 2 <= _num_groups (solver solved_world) /\
  fixed_sources_sized (solver solved_world) /\
  flux_ready (solver solved_world) /\
  fission_divisor_nonzero (solver solved_world) 1 2 /\
  (exists w',
     Subclass_setFixedSourceByFSR 1 2 5%Q solved_world = (Return tt, w') /\
     array_read (_fixed_sources (solver w')) (idx2 2 1 (2 - 1)) = Return 5%Q /\
     array_read (_fixed_sources (solver w')) (idx2 2 1 (1 - 1))
     = array_read (_fixed_sources (solver solved_world)) (idx2 2 1 (1 - 1)) /\
     exists accumulated,
       getFSRSource (solver w') 1 2
       = Return ((accumulated + 5) * ONE_OVER_FOUR_PI)%Q) /\
  _fixed_sources (solver attached_world) = None /\
  array_read
    (_fixed_sources
       (solver (snd (Subclass_setFixedSourceByFSR 0 1 7%Q attached_world))))
    (idx2 2 0 (1 - 1))
  = Return 7%Q /\
  out_of_range (solver solved_world) 2 1 = true /\
  exists e,
    Subclass_setFixedSourceByFSR 2 1 5%Q solved_world = (Raise e, solved_world) /\
    err_kind e = OutOfRange.
Proof.
  assert (H1 : 0 <= 1 < _num_FSRs (solver solved_world))
    by (vm_compute; split; [discriminate|reflexivity]).
  assert (H2 : 1 <= 2 <= _num_groups (solver solved_world))
    by (vm_compute; split; discriminate).
  assert (H3 : fixed_sources_sized (solver solved_world))
    by (eexists; split; reflexivity).
  assert (H4 : flux_ready (solver solved_world)).
  { split; [|split; [|split]].
    - vm_compute. discriminate.
    - vm_compute. discriminate.
    - eexists. split; reflexivity.
    - eexists. split; reflexivity. }
  assert (H5 : fission_divisor_nonzero (solver solved_world) 1 2).
  { intros material Hm _ Hzero. vm_compute in Hm. injection Hm as <-.
    vm_compute in Hzero. discriminate. }
  assert (H6 : _fixed_sources (solver attached_world) = None) by reflexivity.
  assert (H7 : 0 <= 0 < _num_FSRs (solver attached_world))
    by (vm_compute; split; [discriminate|reflexivity]).
  assert (H8 : 1 <= 1 <= _num_groups (solver attached_world))
    by (vm_compute; split; discriminate).
  assert (H9 : out_of_range (solver solved_world) 2 1 = true) by reflexivity.
  pose proof (setFixedSourceByFSR_stores solved_world 1 2 5%Q) as Ha.
  pose proof (setFixedSourceByFSR_stores attached_world 0 1 7%Q) as Hb.
  pose proof (setFixedSourceByFSR_stores solved_world 2 1 5%Q) as Hc.
  cbv zeta in Ha, Hb, Hc.
  destruct Ha as (_ & Ha). destruct Hb as (_ & Hb). destruct Hc as (Hc & _).
  destruct (Ha H1 H2 (or_intror H3)) as (Hrun & Hread & Hother & Hsrc).
  destruct (Hb H7 H8 (or_introl H6)) as (Hrun' & Hread' & _).
  repeat (split; [assumption|]). split.
  - eexists. split; [exact Hrun|]. split; [exact Hread|]. split.
    + apply (Hother 1 1); [exact H1| |right; discriminate].
      vm_compute. split; discriminate.
    + exact (Hsrc H4 H5).
  - split; [exact H6|]. split; [rewrite Hrun'; exact Hread'|].
    split; [exact H9|exact (Hc H9)].
Defined.

(** ** The further properties on the concrete engines *)

Import DemoVariants.

Lemma setGeometry_requires_regions_witness :
  geo_num_FSRs empty_geometry = 0 /\
  fst (setGeometry empty_geometry attached_world)
  = Raise (mkError ConfigurationError
      "Unable to set the Geometry for the Solver since the Geometry has not yet initialized FSRs") /\
  snd (setGeometry empty_geometry attached_world) = attached_world /\
  geo_num_FSRs mixed_geometry <> 0 /\
  exists w',
    setGeometry mixed_geometry attached_world = (Return tt, w') /\
    getGeometry (solver w') = Return mixed_geometry /\
    _num_FSRs (solver w') = 3 /\
    polar_times_groups_ok (solver w').
Proof.
  assert (H1 : geo_num_FSRs empty_geometry = 0) by reflexivity.
  assert (H2 : geo_num_FSRs mixed_geometry <> 0) by (vm_compute; discriminate).
  destruct (setGeometry_requires_regions empty_geometry attached_world)
    as [Hempty _].
  destruct (setGeometry_requires_regions mixed_geometry attached_world)
    as [_ Hbound].
  split; [exact H1|]. rewrite (Hempty H1).
  split; [reflexivity|]. split; [reflexivity|]. split; [exact H2|].
  destruct (Hbound H2) as (w' & Hrun & Hget & HN & _ & _ & _ & Hok & _).
  exists w'. split; [exact Hrun|]. split; [exact Hget|].
  split; [exact HN|exact Hok].
Defined.

Lemma setConvergenceThreshold_guard_witness :
  (0 <= 0)%Q /\
  snd (setConvergenceThreshold (Number 0) attached_world) = attached_world /\
  (0 < 1 # 2)%Q /\
  getConvergenceThreshold
    (solver (snd (setConvergenceThreshold (Number (1 # 2)) attached_world)))
  = (1 # 2)%Q /\
  (0 < getConvergenceThreshold (solver attached_world))%Q /\
  (0 < getConvergenceThreshold
         (solver (snd (setConvergenceThreshold (Number (-4)) attached_world))))%Q /\
  setConvergenceThreshold NaN attached_world = (NonFinite, attached_world).
Proof.
  assert (H1 : (0 <= 0)%Q) by (vm_compute; discriminate).
  assert (H2 : (0 < 1 # 2)%Q) by reflexivity.
  assert (H3 : (0 < getConvergenceThreshold (solver attached_world))%Q)
    by reflexivity.
  pose proof (setConvergenceThreshold_guard attached_world) as H.
  cbv zeta in H. destruct H as (Hle & _ & Hlt & Hkept & _ & Hnan & _).
  split; [exact H1|]. rewrite (Hle 0%Q H1). split; [reflexivity|].
  split; [exact H2|]. split; [exact (proj2 (Hlt (1 # 2)%Q H2))|].
  split; [exact H3|]. split; [exact (Hkept (-4)%Q H3)|exact Hnan].
Defined.

Lemma solve_requires_track_generator_witness :
  _track_generator (solver fresh_world) = None /\
  exists msg,
    solve (Eigenvalue FISSION_SOURCE) 10 fresh_world
    = (Raise (mkError ConfigurationError msg), fresh_world).
Proof.
  assert (H1 : _track_generator (solver fresh_world) = None) by reflexivity.
  split; [exact H1|].
  exact (solve_requires_track_generator (Eigenvalue FISSION_SOURCE) 10
           fresh_world H1).
Defined.

Lemma solve_without_passes_witness :
  -3 <= 0 /\
  setup_of (Flux true) attached_world
  = (Return tt, snd (setup_of (Flux true) attached_world)) /\
  fst (solve (Flux true) (-3) attached_world) = Return tt /\
  getNumIterations (solver (snd (solve (Flux true) (-3) attached_world))) = -3.
Proof.
  assert (H1 : -3 <= 0) by lia.
  assert (H2 : setup_of (Flux true) attached_world
               = (Return tt, snd (setup_of (Flux true) attached_world)))
    by (vm_compute; reflexivity).
  destruct (solve_without_passes (Flux true) (-3) attached_world _ H1 H2)
    as (Hrun & Hcount).
  split; [exact H1|]. split; [exact H2|]. split; [|exact Hcount].
  rewrite Hrun. reflexivity.
Defined.

Lemma setTrackGenerator_outcomes_witness :
  tracks_consistent early_generator /\
  exists e w',
    setTrackGenerator early_generator fresh_world = (Raise e, w') /\
    err_kind e = ConfigurationError /\
    getTrackGenerator (solver w') = Return early_generator /\
    getGeometry (solver w') = getGeometry fresh.
Proof.
  assert (H1 : tracks_consistent early_generator)
    by (split; vm_compute; [lia|reflexivity]).
  split; [exact H1|].
  destruct (setTrackGenerator_outcomes early_generator fresh_world H1)
    as [(_ & HN & _) | [(Hno & _) | (_ & _ & e & w' & Hrun & He & Htg & _ & Hgeo & _)]].
  - exfalso. apply HN. reflexivity.
  - discriminate Hno.
  - exists e, w'. split; [exact Hrun|]. split; [exact He|].
    split; [exact Htg|exact Hgeo].
Defined.

Lemma setTrackGenerator_rebinds_witness :
  tg_containsTracks track_generator = true /\
  tracks_consistent track_generator /\
  geo_num_FSRs (tg_geometry track_generator) <> 0 /\
  tg_containsTracks mixed_generator = true /\
  tracks_consistent mixed_generator /\
  geo_num_FSRs (tg_geometry mixed_generator) <> 0 /\
  (setTrackGenerator track_generator;; setTrackGenerator mixed_generator)
    fresh_world
  = setTrackGenerator mixed_generator fresh_world.
Proof.
  assert (H1 : tg_containsTracks track_generator = true) by reflexivity.
  assert (H2 : tracks_consistent track_generator)
    by (split; vm_compute; [lia|reflexivity]).
  assert (H3 : geo_num_FSRs (tg_geometry track_generator) <> 0)
    by (vm_compute; discriminate).
  assert (H4 : tg_containsTracks mixed_generator = true) by reflexivity.
  assert (H5 : tracks_consistent mixed_generator)
    by (split; vm_compute; [lia|reflexivity]).
  assert (H6 : geo_num_FSRs (tg_geometry mixed_generator) <> 0)
    by (vm_compute; discriminate).
  repeat (split; [assumption|]).
  exact (setTrackGenerator_rebinds track_generator mixed_generator fresh_world
           H1 H2 H3 H4 H5 H6).
Defined.

Lemma configuration_keeps_solution_witness :
  solution_kept solved_world (snd (setTrackGenerator mixed_generator solved_world)) /\
  solution_kept solved_world (snd (initializeFSRs solved_world)).
Proof.
  destruct configuration_keeps_solution
    as (_ & Htg & _ & _ & _ & _ & _ & HFSRs & _).
  split.
  - apply (Htg mixed_generator solved_world
             (fst (setTrackGenerator mixed_generator solved_world))).
    apply surjective_pairing.
  - apply (HFSRs solved_world (fst (initializeFSRs solved_world))).
    apply surjective_pairing.
Defined.
Lemma getFSRScalarFlux_after_rebinding_witness :
  tg_containsTracks mixed_generator = true /\
  tracks_consistent mixed_generator /\
  geo_num_FSRs (tg_geometry mixed_generator) <> 0 /\
  0 <= 2 < geo_num_FSRs (tg_geometry mixed_generator) /\
  1 <= 1 <= geo_num_groups (tg_geometry mixed_generator) /\
  exists flux,
    _scalar_flux (solver solved_world) = Some flux /\
    Z.of_nat (length flux) <= idx2 2 2 (1 - 1) /\
    getFSRScalarFlux
      (solver (snd (setTrackGenerator mixed_generator solved_world))) 2 1
    = Undefined.
Proof.
  assert (H1 : tg_containsTracks mixed_generator = true) by reflexivity.
  assert (H2 : tracks_consistent mixed_generator)
    by (split; vm_compute; [lia|reflexivity]).
  assert (H3 : geo_num_FSRs (tg_geometry mixed_generator) <> 0)
    by (vm_compute; discriminate).
  assert (H4 : 0 <= 2 < geo_num_FSRs (tg_geometry mixed_generator))
    by (vm_compute; split; [discriminate|reflexivity]).
  assert (H5 : 1 <= 1 <= geo_num_groups (tg_geometry mixed_generator))
    by (vm_compute; split; discriminate).
  repeat (split; [assumption|]).
  eexists. split; [reflexivity|].
  split; [vm_compute; discriminate|].
  refine (proj2 (proj2 (getFSRScalarFlux_after_rebinding mixed_generator
                          solved_world _ 2 1 H1 H2 H3 eq_refl H4 H5)) _).
  vm_compute. discriminate.
Defined.


Lemma initializeFSRs_fills_witness :
  _track_generator (solver mixed_world) = Some mixed_generator /\
  _geometry (solver mixed_world) = Some mixed_geometry /\
  0 <= _num_FSRs (solver mixed_world)
    <= Z.of_nat (length (tg_FSR_volumes mixed_generator)) /\
  fst (initializeFSRs mixed_world) = Return tt /\
  array_read (_FSR_materials (solver (snd (initializeFSRs mixed_world)))) 0
  = Return fuel /\
  array_read (_FSR_materials (solver (snd (initializeFSRs mixed_world)))) 2
  = Return moderator /\
  getFSRVolume (solver (snd (initializeFSRs mixed_world))) 2 = Return 7%Q.
Proof.
  assert (H1 : _track_generator (solver mixed_world) = Some mixed_generator)
    by reflexivity.
  assert (H2 : _geometry (solver mixed_world) = Some mixed_geometry)
    by reflexivity.
  assert (H3 : 0 <= _num_FSRs (solver mixed_world)
               <= Z.of_nat (length (tg_FSR_volumes mixed_generator)))
    by (vm_compute; split; discriminate).
  destruct (initializeFSRs_fills mixed_world mixed_generator mixed_geometry
              H1 H2 H3) as (Hrun & Hread).
  repeat (split; [assumption|]).
  rewrite Hrun. split; [reflexivity|].
  assert (R0 : 0 <= 0 < _num_FSRs (solver mixed_world))
    by (vm_compute; split; [discriminate|reflexivity]).
  assert (R2 : 0 <= 2 < _num_FSRs (solver mixed_world))
    by (vm_compute; split; [discriminate|reflexivity]).
  split; [exact (proj1 (Hread 0 R0))|].
  split; [exact (proj1 (Hread 2 R2))|exact (proj2 (Hread 2 R2))].
Defined.

Lemma countFissionableFSRs_counts_witness :
  _geometry (solver mixed_regions_world) <> None /\
  _FSR_materials (solver mixed_regions_world)
  = Some [fuel; moderator; moderator] /\
  0 <= _num_FSRs (solver mixed_regions_world)
    <= Z.of_nat (length [fuel; moderator; moderator]) /\
  fst (countFissionableFSRs mixed_regions_world) = Return tt /\
  _num_fissionable_FSRs
    (solver (snd (countFissionableFSRs mixed_regions_world))) = 1.
Proof.
  assert (H1 : _geometry (solver mixed_regions_world) <> None)
    by (vm_compute; discriminate).
  assert (H2 : _FSR_materials (solver mixed_regions_world)
               = Some [fuel; moderator; moderator]) by reflexivity.
  assert (H3 : 0 <= _num_FSRs (solver mixed_regions_world)
               <= Z.of_nat (length [fuel; moderator; moderator]))
    by (vm_compute; split; discriminate).
  destruct (countFissionableFSRs_counts mixed_regions_world _ H1 H2 H3)
    as (Hrun & _).
  repeat (split; [assumption|]).
  rewrite Hrun. split; reflexivity.
Defined.

Lemma fissionable_regions_of_geometry_witness :
  _track_generator (solver mixed_world) = Some mixed_generator /\
  _geometry (solver mixed_world) = Some mixed_geometry /\
  0 <= _num_FSRs (solver mixed_world)
    <= Z.of_nat (length (tg_FSR_volumes mixed_generator)) /\
  exists w',
    (initializeFSRs;; countFissionableFSRs) mixed_world = (Return tt, w') /\
    _num_fissionable_FSRs (solver w') = 1.
Proof.
  assert (H1 : _track_generator (solver mixed_world) = Some mixed_generator)
    by reflexivity.
  assert (H2 : _geometry (solver mixed_world) = Some mixed_geometry)
    by reflexivity.
  assert (H3 : 0 <= _num_FSRs (solver mixed_world)
               <= Z.of_nat (length (tg_FSR_volumes mixed_generator)))
    by (vm_compute; split; discriminate).
  destruct (fissionable_regions_of_geometry mixed_world mixed_generator
              mixed_geometry H1 H2 H3) as (w' & Hrun & _ & Hcount & _).
  repeat (split; [assumption|]).
  exists w'. split; [exact Hrun|]. rewrite Hcount. reflexivity.
Defined.
Lemma solve_timer_bracket_witness :
  solve (Flux true) 10 loose_world
  = (Return tt, snd (solve (Flux true) 10 loose_world)) /\
  (exists d,
     trace (snd (solve (Flux true) 10 loose_world))
     = trace loose_world
       ++ [Logged NORMAL "Computing the flux..." [];
           TimerClearSplit "Total time"; TimerStart]
       ++ d ++ [TimerStop; TimerRecordSplit "Total time"] /\
     Forall untimed d).
Proof.
  assert (H1 : solve (Flux true) 10 loose_world
               = (Return tt, snd (solve (Flux true) 10 loose_world)))
    by (vm_compute; reflexivity).
  split; [exact H1|].
  exact (solve_timer_bracket (Flux true) 10 loose_world _ _ H1).
Defined.

Lemma polar_times_groups_maintained_witness :
  setTrackGenerator track_generator fresh_world = (Return tt, attached_world) /\
  polar_times_groups_ok (solver attached_world) /\
  _polar_times_groups (solver attached_world) = 6 /\
  setPolarQuadrature 5 attached_world
  = (Return tt, snd (setPolarQuadrature 5 attached_world)) /\
  _polar_times_groups (solver (snd (setPolarQuadrature 5 attached_world))) = 10 /\
  setPolarQuadrature (2 ^ 30) attached_world
  = (Return tt, snd (setPolarQuadrature (2 ^ 30) attached_world)) /\
  _num_groups (solver (snd (setPolarQuadrature (2 ^ 30) attached_world))) = 2 /\
  _polar_times_groups (solver (snd (setPolarQuadrature (2 ^ 30) attached_world)))
  = -2147483648.
Proof.
  assert (H1 : setTrackGenerator track_generator fresh_world
               = (Return tt, attached_world)) by (vm_compute; reflexivity).
  assert (H2 : setPolarQuadrature 5 attached_world
               = (Return tt, snd (setPolarQuadrature 5 attached_world)))
    by (vm_compute; reflexivity).
  assert (H3 : setPolarQuadrature (2 ^ 30) attached_world
               = (Return tt, snd (setPolarQuadrature (2 ^ 30) attached_world)))
    by (vm_compute; reflexivity).
  destruct (polar_times_groups_maintained fresh_world attached_world)
    as (_ & Htg & _).
  destruct (polar_times_groups_maintained attached_world
              (snd (setPolarQuadrature (Ext := ext) 5 attached_world)))
    as (_ & _ & Hpq & _ & Hfits).
  destruct (polar_times_groups_maintained attached_world
              (snd (setPolarQuadrature (Ext := ext) (2 ^ 30) attached_world)))
    as (_ & _ & Hbig & _).
  split; [exact H1|]. split; [exact (Htg _ H1)|]. split; [reflexivity|].
  split; [exact H2|]. split.
  - destruct (Hpq 5 H2) as (Hok & _).
    destruct (Hfits Hok) as (_ & Hexact).
    rewrite Hexact; [reflexivity|].
    vm_compute. split; [discriminate|reflexivity].
  - split; [exact H3|]. split; [reflexivity|].
    destruct (Hbig (2 ^ 30) H3) as (Hok & _).
    unfold polar_times_groups_ok in Hok. rewrite Hok.
    vm_compute. reflexivity.
Defined.

Lemma getFSRScalarFlux_reads_in_bounds_witness :
  exists flux phi,
    _scalar_flux solved = Some flux /\
    length flux = Z.to_nat (_num_FSRs solved * _num_groups solved) /\
    0 <= 1 < _num_FSRs solved /\
    1 <= 2 <= _num_groups solved /\
    flux !! 3%nat = Some phi /\
    getFSRScalarFlux solved 1 2 = Return phi.
Proof.
  assert (H1 : 0 <= 1 < _num_FSRs solved)
    by (vm_compute; split; [discriminate|reflexivity]).
  assert (H2 : 1 <= 2 <= _num_groups solved)
    by (vm_compute; split; discriminate).
  destruct (getFSRScalarFlux_reads_in_bounds solved _ 1 2 eq_refl eq_refl H1 H2)
    as (phi & Hphi & Hrun).
  eexists. exists phi. split; [reflexivity|]. split; [reflexivity|].
  split; [exact H1|]. split; [exact H2|]. split; [exact Hphi|exact Hrun].
Defined.

Lemma Solver_constructor_defaults_witness :
  Solver_constructor evaluator 3 None raw_world
  = (Return tt, mkWorld (constructed evaluator 3 raw) []) /\
  _num_FSRs (constructed evaluator 3 raw) = 0 /\
  _scalar_flux (constructed evaluator 3 raw) = None /\
  _k_eff (constructed evaluator 3 raw) = 62%Q /\
  is_range_error (getFSRScalarFlux (constructed evaluator 3 raw) 0 1) = true.
Proof.
  destruct (Solver_constructor_defaults evaluator 3 raw_world)
    as (Hrun & _ & _ & _ & Hrange).
  split; [exact Hrun|]. split; [reflexivity|]. split; [reflexivity|].
  split; [reflexivity|]. exact (proj1 (Hrange 0 1 0%Q)).
Defined.

Lemma Solver_constructor_binds_generator_witness :
  tg_containsTracks no_tracks = false /\
  (exists e w',
     Solver_constructor evaluator 3 (Some no_tracks) raw_world = (Raise e, w') /\
     err_kind e = ConfigurationError) /\
  tg_containsTracks early_generator = true /\
  tracks_consistent early_generator /\
  geo_num_FSRs (tg_geometry early_generator) = 0 /\
  (exists e w',
     Solver_constructor evaluator 3 (Some early_generator) raw_world
     = (Raise e, w') /\
     err_kind e = ConfigurationError) /\
  tg_containsTracks track_generator = true /\
  tracks_consistent track_generator /\
  geo_num_FSRs (tg_geometry track_generator) <> 0 /\
  - 2 ^ 31 <= geo_num_groups (tg_geometry track_generator) < 2 ^ 31 /\
  exists w',
    Solver_constructor evaluator 3 (Some track_generator) raw_world
    = (Return tt, w') /\
    getTrackGenerator (solver w') = Return track_generator /\
    _num_groups (solver w') = 2 /\
    getNumPolarAngles (solver w') = 3 /\
    _polar_times_groups (solver w') = 0 /\
    ~ polar_times_groups_ok (solver w').
Proof.
  assert (H0 : tg_containsTracks no_tracks = false) by reflexivity.
  assert (H1 : tg_containsTracks early_generator = true) by reflexivity.
  assert (H2 : tracks_consistent early_generator)
    by (split; vm_compute; [lia|reflexivity]).
  assert (H3 : geo_num_FSRs (tg_geometry early_generator) = 0) by reflexivity.
  assert (H4 : tg_containsTracks track_generator = true) by reflexivity.
  assert (H5 : tracks_consistent track_generator)
    by (split; vm_compute; [lia|reflexivity]).
  assert (H6 : geo_num_FSRs (tg_geometry track_generator) <> 0)
    by (vm_compute; discriminate).
  assert (H7 : - 2 ^ 31 <= geo_num_groups (tg_geometry track_generator) < 2 ^ 31)
    by (vm_compute; split; [discriminate|reflexivity]).
  destruct (Solver_constructor_binds_generator evaluator 3 no_tracks raw_world)
    as (Hnone & _).
  destruct (Solver_constructor_binds_generator evaluator 3 early_generator
              raw_world) as (_ & Hearly).
  destruct (Solver_constructor_binds_generator evaluator 3 track_generator
              raw_world) as (_ & Hbound).
  split; [exact H0|]. split.
  { destruct (Hnone H0) as (e & w' & Hrun & He & _).
    exists e, w'. split; [exact Hrun|exact He]. }
  split; [exact H1|]. split; [exact H2|]. split; [exact H3|]. split.
  { destruct (proj1 (Hearly H1 H2) H3) as (e & w' & Hrun & He & _).
    exists e, w'. split; [exact Hrun|exact He]. }
  split; [exact H4|]. split; [exact H5|]. split; [exact H6|].
  split; [exact H7|].
  destruct (proj2 (Hbound H4 H5) H6)
    as (w' & Hrun & Htg & _ & _ & Hg & _ & Hp & _ & Hptg & Hiff & _).
  exists w'. split; [exact Hrun|]. split; [exact Htg|].
  split; [exact Hg|]. split; [exact Hp|]. split; [exact Hptg|].
  intros Hok. apply (Hiff H7) in Hok. vm_compute in Hok. discriminate.
Defined.
Lemma initializeCmfd_guarded_witness :
  _cmfd (solver attached_world) = None /\
  fst (initializeCmfd attached_world) = Undefined /\
  cmfd_flux_update_on (solver attached_world) = false /\
  (update_on ← get cmfd_flux_update_on;
   if (update_on : bool) then initializeCmfd else ret tt) attached_world
  = (Return tt, attached_world) /\
  _cmfd (solver accelerated_world) = Some true /\
  cmfd_isFluxUpdateOn true = true /\
  fst ((update_on ← get cmfd_flux_update_on;
        if (update_on : bool) then initializeCmfd else ret tt) accelerated_world)
  = Return tt.
Proof.
  assert (H1 : _cmfd (solver attached_world) = None) by reflexivity.
  assert (H2 : cmfd_flux_update_on (solver attached_world) = false)
    by reflexivity.
  assert (H3 : _cmfd (solver accelerated_world) = Some true) by reflexivity.
  assert (H4 : cmfd_isFluxUpdateOn true = true) by reflexivity.
  pose proof (initializeCmfd_guarded attached_world) as Ha.
  pose proof (initializeCmfd_guarded accelerated_world) as Hb.
  cbv zeta in Ha, Hb.
  destruct Ha as (Hnull & Hoff & _). destruct Hb as (_ & _ & Hon).
  split; [exact H1|]. split; [rewrite (Hnull H1); reflexivity|].
  split; [exact H2|]. split; [exact (Hoff H2)|].
  split; [exact H3|]. split; [exact H4|].
  rewrite (Hon true H3 H4). reflexivity.
Defined.
End DemoRuns.
